(** * Dungeon exploration: the grid-world environment and the level generator

    A shallow embedding of [map_env.py] (class [MapEnv]) and of the
    generator functions of [test_env.py], with the properties of the
    specification stated over them.

    Conventions of the embedding.
    - Python integers are [Z]; tile coordinates are pairs [(x, y)].
    - Python exceptions are values of [exn]; a call that may raise returns
      a [result].  A method that mutates [self] returns the object after
      the call next to its result, so that a mutation made before an
      exception is raised is still visible.
    - A numpy [uint8] matrix is a list of rows; indexing follows Python:
      a negative index counts from the end, anything else out of range
      raises [IndexError].
    - Python floats are IEEE 754 binary64 values ([spec_float] at
      precision 53); [math.sqrt] and [<] are the correctly rounded
      operations of [SpecFloat].
    - Rewards are the literals [-5], [1.0], [-0.5] and [100.0]; all are
      dyadic, and they are kept as exact rationals.
    - The debugging [print] calls of [step] write to the console only and
      are left out. *)

From Stdlib Require Import ZArith QArith Qabs Lia SpecFloat.
From stdpp Require Import base list gmap strings sorting.

#[local] Open Scope Z_scope.

(* ===================================================================== *)
(** * Part I: definitions                                                  *)
(* ===================================================================== *)

(** ** Python run time *)

Inductive exn : Set :=
  | IndexError      (* sequence or array index out of range *)
  | OverflowError   (* int too large to convert to float *)
  | ValueError.     (* empty range for randrange, math domain error *)

Inductive result (A : Type) : Type :=
  | Ok (a : A)
  | Raise (e : exn).
Arguments Ok {A} a.
Arguments Raise {A} e.

#[global] Instance result_ret : MRet result := fun A a => Ok a.
#[global] Instance result_bind : MBind result :=
  fun A B f m => match m with Ok a => f a | Raise e => Raise e end.

(** [for x in xs: acc = body(acc, x)], stopping at the first exception. *)
Fixpoint for_each {A S} (xs : list A) (body : S -> A -> result S) (acc : S)
  : result S :=
  match xs with
  | [] => Ok acc
  | x :: xs' => acc' ← body acc x; for_each xs' body acc'
  end.

(** Index normalisation of [seq[i]] for a sequence of length [len]. *)
Definition norm_index (len : nat) (i : Z) : option nat :=
  if (0 <=? i) && (i <? Z.of_nat len) then Some (Z.to_nat i)
  else if (- Z.of_nat len <=? i) && (i <? 0) then Some (Z.to_nat (i + Z.of_nat len))
  else None.

(** [l[i]] *)
Definition py_getitem {A} (l : list A) (i : Z) : result A :=
  match norm_index (length l) i with
  | Some n => match l !! n with Some a => Ok a | None => Raise IndexError end
  | None => Raise IndexError
  end.

(** [l[i] = a] *)
Definition py_setitem {A} (l : list A) (i : Z) (a : A) : result (list A) :=
  match norm_index (length l) i with
  | Some n => Ok (<[n := a]> l)
  | None => Raise IndexError
  end.

(** [range(lo, hi)] *)
Definition py_range (lo hi : Z) : list Z :=
  map (fun k => lo + Z.of_nat k) (seq 0 (Z.to_nat (hi - lo))).

(** ** Floats *)

Definition float : Set := spec_float.
Definition prec : Z := 53.
Definition emax : Z := 1024.

(** [float('inf')] *)
Definition inf : float := S754_infinity false.

(** [float(n)] for an int [n]: round to nearest even, [OverflowError] when
    the rounded value is not finite. *)
Definition float_of_int (n : Z) : result float :=
  match binary_normalize prec emax n 0 false with
  | S754_infinity _ => Raise OverflowError
  | f => Ok f
  end.

(** [math.sqrt(n)] for an int [n]. *)
Definition math_sqrt (n : Z) : result float :=
  if n <? 0 then Raise ValueError
  else f ← float_of_int n; Ok (SFsqrt prec emax f).

(** [a < b] on floats. *)
Definition float_lt (a b : float) : bool := SFltb a b.

(** [min(d :: ds)]: the first smallest element under [<]. *)
Definition py_min (d : float) (ds : list float) : float :=
  fold_left (fun best item => if float_lt item best then item else best) ds d.

(** ** numpy [uint8] matrices *)

Abbreviation matrix := (list (list Z)).

(** [np.ones((h, w))] and [np.zeros((h, w))] *)
Definition np_full (h w : nat) (v : Z) : matrix := replicate h (replicate w v).
Definition np_ones (h w : nat) : matrix := np_full h w 1.
Definition np_zeros (h w : nat) : matrix := np_full h w 0.

(** [m[y, x]] *)
Definition np_get (m : matrix) (y x : Z) : result Z :=
  row ← py_getitem m y; py_getitem row x.

(** [m[y, x] = v] *)
Definition np_set (m : matrix) (y x v : Z) : result matrix :=
  row ← py_getitem m y; row' ← py_setitem row x v; py_setitem m y row'.

(** [m * k] in [uint8] arithmetic *)
Definition np_scale (m : matrix) (k : Z) : matrix :=
  map (map (fun v => (v * k) mod 256)) m.

(** [m.shape == (h, w)] *)
Definition has_shape (h w : nat) (m : matrix) : bool :=
  bool_decide (length m = h) && forallb (fun row => bool_decide (length row = w)) m.

(** ** [map_env.py]: the tiled map handed over by [pytmx] *)

(** A visible layer: a tile layer iterates as [(x, y, gid)] triples, any
    other kind of layer (object group, image layer) is skipped by
    [isinstance(layer, pytmx.TiledTileLayer)]. *)
Inductive layer : Type :=
  | TiledTileLayer (tiles : list (Z * Z * Z))
  | OtherLayer.

Record TiledMap : Type := {
  width : nat;
  height : nat;
  visible_layers : list layer
}.

(** ** [map_env.py]: class [MapEnv] *)

Record MapEnv : Type := {
  map_width : Z;
  map_height : Z;
  start_pos : Z * Z;
  player_pos : Z * Z;
  enemy_locations : list (Z * Z);
  wall_matrix : matrix;
  goal_matrix : matrix;
  last_distance : float
}.

Definition set_player_pos (self : MapEnv) (p : Z * Z) : MapEnv :=
  {| map_width := map_width self; map_height := map_height self;
     start_pos := start_pos self; player_pos := p;
     enemy_locations := enemy_locations self;
     wall_matrix := wall_matrix self; goal_matrix := goal_matrix self;
     last_distance := last_distance self |}.

Definition set_last_distance (self : MapEnv) (d : float) : MapEnv :=
  {| map_width := map_width self; map_height := map_height self;
     start_pos := start_pos self; player_pos := player_pos self;
     enemy_locations := enemy_locations self;
     wall_matrix := wall_matrix self; goal_matrix := goal_matrix self;
     last_distance := d |}.

(** The body of [_get_distance_to_nearest_enemy], on the two attributes it
    reads. *)
Definition distance_to_nearest (player_pos : Z * Z) (enemy_locations : list (Z * Z))
  : result float :=
  let '(player_x, player_y) := player_pos in
  match enemy_locations with
  | [] => Ok inf
  | _ :: _ =>
      distances ← for_each enemy_locations
        (fun acc '(ex, ey) =>
           d ← math_sqrt ((player_x - ex) ^ 2 + (player_y - ey) ^ 2);
           Ok (acc ++ [d]))
        [];
      match distances with
      | [] => Raise ValueError
      | d :: ds => Ok (py_min d ds)
      end
  end.

Definition _get_distance_to_nearest_enemy (self : MapEnv) : result float :=
  distance_to_nearest (player_pos self) (enemy_locations self).

(** [0 <= y < self.map_height and 0 <= x < self.map_width] *)
Definition in_bounds (self : MapEnv) (p : Z * Z) : bool :=
  let '(x, y) := p in
  (0 <=? y) && (y <? map_height self) && (0 <=? x) && (x <? map_width self).

(** The observation is the stack of three channels: walls, player, goals. *)
Definition observation : Type := list matrix.

Definition _get_observation (self : MapEnv) : result observation :=
  let player_matrix :=
    np_zeros (Z.to_nat (map_height self)) (Z.to_nat (map_width self)) in
  let '(px, py) := player_pos self in
  player_matrix ←
    (if in_bounds self (px, py) then np_set player_matrix py px 255
     else Ok player_matrix);
  Ok [np_scale (wall_matrix self) 255; player_matrix; goal_matrix self].

(** One iteration of the tile loop of [__init__] (lines 34-42). *)
Definition classify_tile (walkable_gids enemy_gids : gset Z)
    (acc : matrix * matrix * list (Z * Z)) (tile : Z * Z * Z)
  : result (matrix * matrix * list (Z * Z)) :=
  let '(wall, goal, enemies) := acc in
  let '(x, y, gid) := tile in
  if bool_decide (gid ∈ walkable_gids) then
    wall ← np_set wall y x 0;
    Ok (wall, goal, enemies)
  else if bool_decide (gid ∈ enemy_gids) then
    wall ← np_set wall y x 0;
    goal ← np_set goal y x 255;
    Ok (wall, goal, enemies ++ [(x, y)])
  else
    wall ← np_set wall y x 1;
    Ok (wall, goal, enemies).

(** The layer loop of [__init__] (lines 31-42). *)
Definition derive_matrices (tiled_map : TiledMap) (walkable_gids enemy_gids : gset Z)
  : result (matrix * matrix * list (Z * Z)) :=
  for_each (visible_layers tiled_map)
    (fun acc layer =>
       match layer with
       | TiledTileLayer tiles =>
           for_each tiles (classify_tile walkable_gids enemy_gids) acc
       | OtherLayer => Ok acc
       end)
    (np_ones (height tiled_map) (width tiled_map),
     np_zeros (height tiled_map) (width tiled_map),
     []).

(** [MapEnv.__init__], given the map that [pytmx.load_pygame] returned. *)
Definition __init__ (tiled_map : TiledMap) (player_start_tile : Z * Z)
    (enemy_gids walkable_gids : gset Z) : result MapEnv :=
  '(wall, goal, enemies) ← derive_matrices tiled_map walkable_gids enemy_gids;
  last ← distance_to_nearest player_start_tile enemies;
  Ok {| map_width := Z.of_nat (width tiled_map);
        map_height := Z.of_nat (height tiled_map);
        start_pos := player_start_tile;
        player_pos := player_start_tile;
        enemy_locations := enemies;
        wall_matrix := wall;
        goal_matrix := goal;
        last_distance := last |}.

(** [MapEnv.reset]: the object after the call, and what the call returns
    (the [info] dictionary is always empty and is left out). *)
Definition reset (self : MapEnv) : MapEnv * result observation :=
  let self := set_player_pos self (start_pos self) in
  match _get_distance_to_nearest_enemy self with
  | Raise e => (self, Raise e)
  | Ok d =>
      let self := set_last_distance self d in
      (self, _get_observation self)
  end.

(** Lines 66-71 of [step]: the coordinate the action points at. *)
Definition candidate (action : Z) (pos : Z * Z) : Z * Z :=
  let '(x, y) := pos in
  if action =? 0 then (x, y - 1)
  else if action =? 1 then (x, y + 1)
  else if action =? 2 then (x - 1, y)
  else if action =? 3 then (x + 1, y)
  else (x, y).

(** Lines 75-91 of [step]: bounds check, wall check, move and shaping
    reward. *)
Definition resolve_move (self : MapEnv) (action : Z) : MapEnv * result Q :=
  let '(x, y) := candidate action (player_pos self) in
  if negb (in_bounds self (x, y)) then (self, Ok (-5)%Q)
  else
    match np_get (wall_matrix self) y x with
    | Raise e => (self, Raise e)
    | Ok w =>
        if w =? 1 then (self, Ok (-5)%Q)
        else
          let self' := set_player_pos self (x, y) in
          match _get_distance_to_nearest_enemy self' with
          | Raise e => (self', Raise e)
          | Ok new_distance =>
              let reward :=
                if float_lt new_distance (last_distance self) then 1%Q
                else (- (1 # 2))%Q in
              (set_last_distance self' new_distance, Ok reward)
          end
    end.

(** [MapEnv.step]: the object after the call, and the returned
    [(observation, reward, terminated, truncated)] (the [info] dictionary
    is always empty and is left out). *)
Definition step (self : MapEnv) (action : Z)
  : MapEnv * result (observation * Q * bool * bool) :=
  match resolve_move self action with
  | (self, Raise e) => (self, Raise e)
  | (self, Ok reward) =>
      (self,
       g ← np_get (goal_matrix self) (snd (player_pos self)) (fst (player_pos self));
       let '(reward, done) :=
         if g =? 255 then (100%Q, true) else (reward, false) in
       obs ← _get_observation self;
       Ok (obs, reward, done, false))
  end.

(** The matrix look-ups [step] performs, as [(row, column)] indices: the
    wall look-up of line 78 when the bounds check lets it happen, then the
    goal look-up of line 93 when it is reached. *)
Definition step_lookups (self : MapEnv) (action : Z) : list (Z * Z) :=
  let '(x, y) := candidate action (player_pos self) in
  (if in_bounds self (x, y) then [(y, x)] else []) ++
  match resolve_move self action with
  | (self', Ok _) => [(snd (player_pos self'), fst (player_pos self'))]
  | (_, Raise _) => []
  end.

(** A driver calling [reset] and [step] in any order; an exception raised
    by a call is caught and the driver carries on with the object as the
    call left it. *)
Inductive call : Type :=
  | CallReset
  | CallStep (action : Z).

Definition do_call (self : MapEnv) (c : call) : MapEnv :=
  match c with
  | CallReset => fst (reset self)
  | CallStep action => fst (step self action)
  end.

Definition run (self : MapEnv) (calls : list call) : MapEnv :=
  fold_left do_call calls self.

(** The shape invariant of the object: both matrices are
    [map_height] x [map_width]. *)
Definition wf_env (self : MapEnv) : bool :=
  (0 <=? map_height self) && (0 <=? map_width self) &&
  has_shape (Z.to_nat (map_height self)) (Z.to_nat (map_width self)) (wall_matrix self) &&
  has_shape (Z.to_nat (map_height self)) (Z.to_nat (map_width self)) (goal_matrix self).

(** The tile classes of the environment: [wall_matrix[y, x] == 1] and
    [goal_matrix[y, x] == 255]. *)
Definition is_wall (self : MapEnv) (p : Z * Z) : bool :=
  match np_get (wall_matrix self) (snd p) (fst p) with
  | Ok w => w =? 1
  | Raise _ => false
  end.

Definition is_goal (self : MapEnv) (p : Z * Z) : bool :=
  match np_get (goal_matrix self) (snd p) (fst p) with
  | Ok g => g =? 255
  | Raise _ => false
  end.

(** *** Sample environments *)

(** A 3x3 map in one tile layer: gid 8 is floor, gid 48 the enemy, gid 1 a
    wall.
<<
      x=0 x=1 x=2
  y=0  8   8   1
  y=1  8   1   8
  y=2  8   8  48
>> *)
Definition sample_map : TiledMap :=
  {| width := 3; height := 3;
     visible_layers :=
       [TiledTileLayer
          [(0, 0, 8); (1, 0, 8); (2, 0, 1);
           (0, 1, 8); (1, 1, 1); (2, 1, 8);
           (0, 2, 8); (1, 2, 8); (2, 2, 48)];
        OtherLayer] |}.

Definition sample_env_at (start : Z * Z) : result MapEnv :=
  __init__ sample_map start {[48]} {[8]}.

Definition sample_env_value (start : Z * Z) (last : float) : MapEnv :=
  {| map_width := 3; map_height := 3;
     start_pos := start; player_pos := start;
     enemy_locations := [(2, 2)];
     wall_matrix := [[0; 0; 1]; [0; 1; 0]; [0; 0; 0]];
     goal_matrix := [[0; 0; 0]; [0; 0; 0]; [0; 0; 255]];
     last_distance := last |}.

(** The environment with the agent starting at [(0, 0)]; the cached
    distance is [sqrt 8]. *)
Definition sample_env : MapEnv :=
  sample_env_value (0, 0) (S754_finite false 6369051672525773 (-51)).

(** The environment of [sample_map] once the agent, started on [(2, 1)],
    has stepped down onto the goal tile [(2, 2)]. *)
Definition sample_env_on_goal : MapEnv :=
  fst (step (sample_env_value (2, 1) (S754_finite false 4503599627370496 (-52))) 1).

(** The rewards and termination flags of a sequence of [step] calls. *)
Fixpoint rollout (self : MapEnv) (actions : list Z) : list (result (Q * bool)) :=
  match actions with
  | [] => []
  | action :: actions' =>
      let '(self', r) := step self action in
      ('(_, reward, done, _) ← r; Ok (reward, done)) :: rollout self' actions'
  end.

(** An 8x8 map, all floor (gid 8) but for the enemy (gid 48) at [(7, 7)]. *)
Definition open_map : TiledMap :=
  {| width := 8; height := 8;
     visible_layers :=
       [TiledTileLayer
          (flat_map
             (fun y => map (fun x => (x, y, if (x =? 7) && (y =? 7) then 48 else 8))
                         (py_range 0 8))
             (py_range 0 8))] |}.

(** A 2x1 map in two tile layers: floor and an enemy below, an empty layer
    (gid 0 in every cell) above. *)
Definition layered_map : TiledMap :=
  {| width := 2; height := 1;
     visible_layers :=
       [TiledTileLayer [(0, 0, 8); (1, 0, 48)];
        TiledTileLayer [(0, 0, 0); (1, 0, 0)]] |}.

(** ** [test_env.py]: configuration *)

Record config : Type := {
  MAP_W : Z;
  MAP_H : Z;
  N_ROOMS : Z;
  ROOM_MIN_W : Z;
  ROOM_MAX_W : Z;
  ROOM_MIN_H : Z;
  ROOM_MAX_H : Z
}.

(** The constants as the file sets them (lines 13 and 29-31). *)
Definition file_config : config :=
  {| MAP_W := 48; MAP_H := 36; N_ROOMS := 12;
     ROOM_MIN_W := 5; ROOM_MAX_W := 12;
     ROOM_MIN_H := 4; ROOM_MAX_H := 9 |}.

(** Line 26: [SEED = 42]. *)
Definition SEED : option Z := Some 42.

(** The images a grid cell can hold: the dark background every cell starts
    with, and the floor, path, castle and tree tiles. *)
Inductive tile : Set := Background | Floor | Path | Castle | Tree.

Abbreviation TileGrid := (list (list tile)).
Definition rect : Type := (Z * Z * Z * Z)%type.

(** ** The [random] module

    The generator is Python's global [random] object.  Its algorithm is not
    part of the repository; the model keeps its interface: a state,
    [seed(n)] which replaces the state by one that depends on [n] only,
    the primitive [_randbelow(n)] behind [randint] and [choice], and
    [random()]. *)
Class RandomSource : Type := {
  rng : Type;
  seed : Z -> rng;
  randbelow : rng -> Z -> Z * rng;
  random : rng -> Q * rng
}.

(** What [_randbelow] promises: a value in [[0, n)] for positive [n]. *)
Definition randbelow_in_range `{RandomSource} : Prop :=
  forall (g : rng) (n : Z), 0 < n -> 0 <= fst (randbelow g n) < n.

Section Generator.
Context `{RandomSource}.

(** [random.randint(a, b)] is [randrange(a, b + 1)]: [a + _randbelow(width)],
    or [ValueError] on an empty range. *)
Definition randint (a b : Z) (g : rng) : result (Z * rng) :=
  let width := b + 1 - a in
  if 0 <? width then
    let '(k, g) := randbelow g width in Ok (a + k, g)
  else Raise ValueError.

(** [random.choice(seq)] is [seq[_randbelow(len(seq))]]. *)
Definition choice {A} (seq : list A) (g : rng) : result (A * rng) :=
  match seq with
  | [] => Raise IndexError
  | _ :: _ =>
      let '(k, g) := randbelow g (Z.of_nat (length seq)) in
      a ← py_getitem seq k; Ok (a, g)
  end.

(** ** [test_env.py]: the generator *)

Definition rects_overlap (a b : rect) (padding : Z) : bool :=
  let '(ax1, ay1, aw, ah) := a in
  let '(bx1, by1, bw, bh) := b in
  let '(ax2, ay2) := (ax1 + aw - 1, ay1 + ah - 1) in
  let '(bx2, by2) := (bx1 + bw - 1, by1 + bh - 1) in
  negb ((ax2 + padding <? bx1) || (bx2 + padding <? ax1) ||
        (ay2 + padding <? by1) || (by2 + padding <? ay1)).

(** [grid[y][x] = tile] *)
Definition grid_set (grid : TileGrid) (y x : Z) (tile : tile) : result TileGrid :=
  row ← py_getitem grid y; row' ← py_setitem row x tile; py_setitem grid y row'.

Definition carve_h_corridor (grid : TileGrid) (x1 x2 y : Z) (tile : tile)
  : result TileGrid :=
  for_each (py_range (Z.min x1 x2) (Z.max x1 x2 + 1))
    (fun grid x => grid_set grid y x tile) grid.

Definition carve_v_corridor (grid : TileGrid) (y1 y2 x : Z) (tile : tile)
  : result TileGrid :=
  for_each (py_range (Z.min y1 y2) (Z.max y1 y2 + 1))
    (fun grid y => grid_set grid y x tile) grid.

(** Lines 75-77: the accepted room is filled with floor. *)
Definition carve_room (grid : TileGrid) (r : rect) (floor_tile : tile)
  : result TileGrid :=
  let '(x, y, w, h) := r in
  for_each (py_range y (y + h))
    (fun grid ry =>
       for_each (py_range x (x + w))
         (fun grid rx => grid_set grid ry rx floor_tile) grid)
    grid.

(** The [while] loop of lines 65-79.  Every iteration adds one to
    [attempts], so the loop is written by recursion on the attempts that
    are left: [budget] is [N_ROOMS * 12 - attempts]. *)
Fixpoint place_rooms (cfg : config) (budget : nat) (floor_tile : tile)
    (grid : TileGrid) (rooms : list rect) (g : rng)
  : result (TileGrid * list rect * rng) :=
  match budget with
  | O => Ok (grid, rooms, g)
  | S budget =>
      if Z.of_nat (length rooms) <? N_ROOMS cfg then
        '(w, g) ← randint (ROOM_MIN_W cfg) (ROOM_MAX_W cfg) g;
        '(h, g) ← randint (ROOM_MIN_H cfg) (ROOM_MAX_H cfg) g;
        '(x, g) ← randint 1 (MAP_W cfg - w - 2) g;
        '(y, g) ← randint 1 (MAP_H cfg - h - 2) g;
        let new_rect := (x, y, w, h) in
        if existsb (fun r => rects_overlap new_rect r 1) rooms then
          place_rooms cfg budget floor_tile grid rooms g
        else
          grid ← carve_room grid new_rect floor_tile;
          place_rooms cfg budget floor_tile grid (rooms ++ [new_rect]) g
      else Ok (grid, rooms, g)
  end.

(** [(x + w//2, y + h//2)] *)
Definition center (r : rect) : Z * Z :=
  let '(x, y, w, h) := r in (x + w / 2, y + h / 2).

(** One iteration of the corridor loop (lines 83-92). *)
Definition connect_pair (rooms : list rect) (path_tile : tile)
    (acc : TileGrid * rng) (i : Z) : result (TileGrid * rng) :=
  let '(grid, g) := acc in
  r1 ← py_getitem rooms (i - 1);
  r2 ← py_getitem rooms i;
  let c1 := center r1 in
  let c2 := center r2 in
  '(h_first, g) ← choice [true; false] g;
  if h_first : bool then
    grid ← carve_h_corridor grid (fst c1) (fst c2) (snd c1) path_tile;
    grid ← carve_v_corridor grid (snd c1) (snd c2) (fst c2) path_tile;
    Ok (grid, g)
  else
    grid ← carve_v_corridor grid (snd c1) (snd c2) (fst c1) path_tile;
    grid ← carve_h_corridor grid (fst c1) (fst c2) (snd c2) path_tile;
    Ok (grid, g).

(** Lines 82-92. *)
Definition connect_rooms (rooms : list rect) (path_tile : tile)
    (grid : TileGrid) (g : rng) : result (TileGrid * rng) :=
  for_each (py_range 1 (Z.of_nat (length rooms)))
    (connect_pair rooms path_tile) (grid, g).

Definition create_rooms_and_corridors (cfg : config) (grid : TileGrid)
    (floor_tile path_tile : tile) (g : rng)
  : result (TileGrid * list rect * rng) :=
  '(grid, rooms, g) ←
    place_rooms cfg (Z.to_nat (N_ROOMS cfg * 12)) floor_tile grid [] g;
  '(grid, g) ← connect_rooms rooms path_tile grid g;
  Ok (grid, rooms, g).

Definition place_castle (cfg : config) (grid : TileGrid) (origin : Z * Z)
    (castle_tile : tile) : result TileGrid :=
  let '(ox, oy) := origin in
  let size := 4 in
  for_each (py_range 0 size)
    (fun grid j =>
       for_each (py_range 0 size)
         (fun grid i =>
            let x := ox + i in
            let y := oy + j in
            if (0 <=? x) && (x <? MAP_W cfg) && (0 <=? y) && (y <? MAP_H cfg)
            then grid_set grid y x castle_tile
            else Ok grid)
         grid)
    grid.

(** [tree_tile] is [None] when there is no image; [random.random()] is
    called for every cell, before the test of [tree_tile]. *)
Definition add_decorations (cfg : config) (grid : TileGrid) (tree_tile : option tile)
    (density : Q) (g : rng) : result (TileGrid * rng) :=
  for_each (py_range 0 (MAP_H cfg))
    (fun acc y =>
       for_each (py_range 0 (MAP_W cfg))
         (fun '(grid, g) x =>
            let '(r, g) := random g in
            match Qlt_le_dec r density, tree_tile with
            | left _, Some t => grid ← grid_set grid y x t; Ok (grid, g)
            | _, _ => Ok (grid, g)
            end)
         acc)
    (grid, g).

(** [sorted(rooms, key=lambda r: r[2]*r[3], reverse=True)]: by area,
    largest first, rooms of equal area in their order in [rooms]. *)
Definition area (r : rect) : Z := let '(_, _, w, h) := r in w * h.

Fixpoint insert_by_area (r : rect) (sorted : list rect) : list rect :=
  match sorted with
  | [] => [r]
  | r' :: rest =>
      if area r' <=? area r then r :: r' :: rest
      else r' :: insert_by_area r rest
  end.

Definition sorted_by_area (rooms : list rect) : list rect :=
  foldr insert_by_area [] rooms.

(** What [main] has built when it enters its window loop. *)
Record generated : Type := {
  gen_grid : TileGrid;
  gen_rooms : list rect;
  gen_spawns : list (Z * Z);
  gen_hero_pos : Z * Z;
  gen_villain_positions : list (Z * Z)
}.

(** [main] up to the window loop (lines 127-192), started with the global
    generator in state [g].  The images are the five tiles: every
    [load_tile] result is replaced by its fallback when it is missing. *)
Definition main (cfg : config) (SEED : option Z) (g : rng) : result generated :=
  let g := match SEED with Some n => seed n | None => g end in
  let grid : TileGrid :=
    replicate (Z.to_nat (MAP_H cfg)) (replicate (Z.to_nat (MAP_W cfg)) Background) in
  '(grid, rooms, g) ← create_rooms_and_corridors cfg grid Floor Path g;
  grid ←
    (if 2 <=? Z.of_nat (length rooms) then
       let rooms_sorted := sorted_by_area rooms in
       r1 ← py_getitem rooms_sorted 0;
       r2 ← py_getitem rooms_sorted 1;
       let c1 := (fst (center r1) - 1, snd (center r1) - 1) in
       let c2 := (fst (center r2) - 1, snd (center r2) - 1) in
       grid ← place_castle cfg grid c1 Castle;
       place_castle cfg grid c2 Castle
     else Ok grid);
  '(grid, g) ← add_decorations cfg grid (Some Tree) (2 # 100) g;
  let spawns := map center (take 6 rooms) in
  let hero_pos :=
    match spawns with
    | p :: _ => p
    | [] => (MAP_W cfg / 2, MAP_H cfg / 2)
    end in
  Ok {| gen_grid := grid; gen_rooms := rooms; gen_spawns := spawns;
        gen_hero_pos := hero_pos;
        gen_villain_positions := take 3 (drop 1 spawns) |}.

End Generator.

(** *** Walkability of generated tiles *)

(** Modelled from the spec: the table that classifies the tiles of a
    generated grid is not in [test_env.py].  The specification has the
    background as the neutral unwalkable tile, floor and path as walkable,
    the castle as a goal (always enterable) and the decoration as a
    non-blocking cosmetic layer. *)
Definition blocks_movement (t : tile) : bool :=
  match t with
  | Background => true
  | Floor | Path | Castle | Tree => false
  end.

(** The tile of the cell at column [x], row [y], if the grid has one. *)
Definition tile_at (grid : TileGrid) (p : Z * Z) : option tile :=
  let '(x, y) := p in
  if (0 <=? x) && (0 <=? y) then
    row ← grid !! Z.to_nat y; row !! Z.to_nat x
  else None.

Definition non_wall (grid : TileGrid) (p : Z * Z) : bool :=
  match tile_at grid p with
  | Some t => negb (blocks_movement t)
  | None => false
  end.

(** Two cells that share an edge. *)
Definition adjacent (p q : Z * Z) : Prop :=
  Z.abs (fst p - fst q) + Z.abs (snd p - snd q) = 1.

(** [q] can be reached from [p] by steps between edge-sharing non-wall
    cells. *)
Inductive reachable (grid : TileGrid) : Z * Z -> Z * Z -> Prop :=
  | reach_here p : non_wall grid p = true -> reachable grid p p
  | reach_step p q r :
      reachable grid p q -> adjacent q r -> non_wall grid r = true ->
      reachable grid p r.

(** *** A stand-in generator for running the code

    A linear congruential generator, used only to run the generator on
    concrete seeds. *)
Definition lcg_next (g : Z) : Z := (g * 1103515245 + 12345) mod 2147483648.

#[local] Instance lcg : RandomSource :=
  {| rng := Z;
     seed := fun n => n mod 2147483648;
     randbelow := fun g n => ((g / 65536) mod n, lcg_next g);
     random := fun g => (((g / 65536) mod 1000) # 1000, lcg_next g) |}.

(** The grid [main] starts from, at the size of [file_config]. *)
Definition blank_grid : TileGrid :=
  replicate (Z.to_nat (MAP_H file_config))
    (replicate (Z.to_nat (MAP_W file_config)) Background).

(** The rooms of a run, none if it failed. *)
Definition rooms_of (r : result generated) : list rect :=
  match r with Ok out => gen_rooms out | Raise _ => [] end.

(** ** Predicates of the statements *)

(** The cell in row [y], column [x] of a list of rows. *)
Definition cell {A} (m : list (list A)) (y x : nat) : option A :=
  row ← m !! y; row !! x.

(** The invariant of the two matrices: a cell marked as goal is not a
    wall. *)
Definition goals_enterable (wall goal : matrix) : Prop :=
  forall y x, cell goal y x = Some 255 -> cell wall y x = Some 0.

(** The tiles of a layer are on the map, each cell listed once, as
    [pytmx] iterates a tile layer. *)
Definition layer_covers_once (tiled_map : TiledMap) (tiles : list (Z * Z * Z)) : Prop :=
  NoDup (map fst tiles) /\
  Forall (fun '(x, y, _) =>
            0 <= x < Z.of_nat (width tiled_map) /\
            0 <= y < Z.of_nat (height tiled_map)) tiles.

(** What no call changes: the dimensions, the start tile, the goals and
    the two matrices. *)
Definition same_map (a b : MapEnv) : Prop :=
  map_width a = map_width b /\ map_height a = map_height b /\
  start_pos a = start_pos b /\ enemy_locations a = enemy_locations b /\
  wall_matrix a = wall_matrix b /\ goal_matrix a = goal_matrix b.

(** The invariant of the driver. *)
Definition on_map (self : MapEnv) : Prop :=
  wf_env self = true /\
  in_bounds self (start_pos self) = true /\
  in_bounds self (player_pos self) = true.

(** The grid has [h] rows of [w] cells. *)
Definition grid_shape (h w : Z) (grid : TileGrid) : Prop :=
  length grid = Z.to_nat h /\ Forall (fun row => length row = Z.to_nat w) grid.

(** Every non-wall cell of the first grid is a non-wall cell of the
    second. *)
Definition grows (g g' : TileGrid) : Prop :=
  forall p, non_wall g p = true -> non_wall g' p = true.

(** The tiles of a rectangle, and the rectangle extended by [padding]
    tiles on every side. *)
Definition in_rect (r : rect) (p : Z * Z) : Prop :=
  let '(x, y, w, h) := r in
  x <= fst p < x + w /\ y <= snd p < y + h.

Definition padded (r : rect) (padding : Z) : rect :=
  let '(x, y, w, h) := r in
  (x - padding, y - padding, w + 2 * padding, h + 2 * padding).

(** No two rooms of the list overlap under the padded test. *)
Definition pairwise_apart (rooms : list rect) : Prop :=
  forall (i j : nat) (a b : rect),
    i <> j -> rooms !! i = Some a -> rooms !! j = Some b ->
    rects_overlap a b 1 = false.

(** The configurations in which every sampled room fits the map: room
    sizes are at least one tile, the size ranges are not empty, and the
    largest room leaves the three tiles that [randint(1, MAP - size - 2)]
    needs. *)
Definition config_ok (cfg : config) : Prop :=
  1 <= ROOM_MIN_W cfg <= ROOM_MAX_W cfg /\
  1 <= ROOM_MIN_H cfg <= ROOM_MAX_H cfg /\
  ROOM_MAX_W cfg + 3 <= MAP_W cfg /\
  ROOM_MAX_H cfg + 3 <= MAP_H cfg.

(** A room as the placement loop samples it. *)
Definition room_ok (cfg : config) (r : rect) : Prop :=
  let '(x, y, w, h) := r in
  1 <= x /\ 1 <= w /\ x + w + 2 <= MAP_W cfg /\
  1 <= y /\ 1 <= h /\ y + h + 2 <= MAP_H cfg.

(** The state of the placement loop. *)
Definition rooms_inv (cfg : config) (grid : TileGrid) (rooms : list rect) : Prop :=
  grid_shape (MAP_H cfg) (MAP_W cfg) grid /\
  Forall (room_ok cfg) rooms /\
  forall r, r ∈ rooms -> non_wall grid (center r) = true.


(** ** [map_env.py]: [save_vision_map] *)

Abbreviation pixel := (Z * Z * Z)%type (only parsing).

(** [img[m == v] = colour]: assignment through the boolean mask [m == v].
    The mask must have the first two dimensions of the image, or numpy
    raises [IndexError]. *)
Definition np_mask_assign (img : list (list pixel)) (m : matrix) (v : Z) (colour : pixel)
  : result (list (list pixel)) :=
  if bool_decide (map length img = map length m) then
    Ok (zip_with (zip_with (fun px e => if e =? v then colour else px)) img m)
  else Raise IndexError.

(** [np.transpose(img, (1, 0, 2))] of an image with [w] columns: entry
    [[x][y]] of the result is entry [[y][x]] of the image. *)
Definition np_transpose (w : nat) (img : list (list pixel)) : list (list pixel) :=
  map (fun x => omap (fun row => row !! x) img) (seq 0 w).

(** Lines 100-102: the image painted from the two matrices. *)
Definition vision_map (self : MapEnv) : result (list (list pixel)) :=
  let vision_map :=
    replicate (Z.to_nat (map_height self))
      (replicate (Z.to_nat (map_width self)) (255, 255, 255)) in
  vision_map ← np_mask_assign vision_map (wall_matrix self) 1 (0, 0, 0);
  np_mask_assign vision_map (goal_matrix self) 255 (255, 0, 0).

(** [save_vision_map], up to the array it hands to
    [pygame.surfarray.make_surface]; writing the file is [pygame]'s. *)
Definition save_vision_map (self : MapEnv) : result (list (list pixel)) :=
  vision_map ← vision_map self;
  Ok (np_transpose (Z.to_nat (map_width self)) vision_map).

(** ** [test_env.py]: the event handling of the window loop *)

(** The keys and events [main] tells apart (lines 194-211). *)
Inductive key : Set :=
  | K_ESCAPE | K_g | K_s | K_LEFT | K_RIGHT | K_UP | K_DOWN | K_other.

Inductive event : Set :=
  | QUIT
  | KEYDOWN (k : key)
  | OtherEvent.

(** The variables of the loop; [snapshots] counts the calls of
    [save_snapshot], whose writing is [pygame]'s. *)
Record window : Type := {
  running : bool;
  show_grid : bool;
  hero_pos : Z * Z;
  snapshots : nat
}.

(** The body of [for ev in pygame.event.get()] (lines 195-211). *)
Definition handle_event (cfg : config) (st : window) (ev : event) : window :=
  let '(hx, hy) := hero_pos st in
  match ev with
  | QUIT =>
      {| running := false; show_grid := show_grid st;
         hero_pos := (hx, hy); snapshots := snapshots st |}
  | KEYDOWN K_ESCAPE =>
      {| running := false; show_grid := show_grid st;
         hero_pos := (hx, hy); snapshots := snapshots st |}
  | KEYDOWN K_g =>
      {| running := running st; show_grid := negb (show_grid st);
         hero_pos := (hx, hy); snapshots := snapshots st |}
  | KEYDOWN K_s =>
      {| running := running st; show_grid := show_grid st;
         hero_pos := (hx, hy); snapshots := S (snapshots st) |}
  | KEYDOWN K_LEFT =>
      {| running := running st; show_grid := show_grid st;
         hero_pos := (Z.max 0 (hx - 1), hy); snapshots := snapshots st |}
  | KEYDOWN K_RIGHT =>
      {| running := running st; show_grid := show_grid st;
         hero_pos := (Z.min (MAP_W cfg - 1) (hx + 1), hy); snapshots := snapshots st |}
  | KEYDOWN K_UP =>
      {| running := running st; show_grid := show_grid st;
         hero_pos := (hx, Z.max 0 (hy - 1)); snapshots := snapshots st |}
  | KEYDOWN K_DOWN =>
      {| running := running st; show_grid := show_grid st;
         hero_pos := (hx, Z.min (MAP_H cfg - 1) (hy + 1)); snapshots := snapshots st |}
  | KEYDOWN K_other | OtherEvent => st
  end.

(** The events of one or more frames, handled in order. *)
Definition handle_events (cfg : config) (st : window) (events : list event) : window :=
  fold_left (handle_event cfg) events st.

(** The loop variables as [main] sets them before the loop (lines 187-191). *)
Definition window_of (out : generated) : window :=
  {| running := true; show_grid := true;
     hero_pos := gen_hero_pos out; snapshots := 0 |}.

(** ** [train.py]: class [CustomCallback] *)

Record CustomCallback : Type := {
  timesteps_data : list Z;
  rewards_data : list float;
  loss_data : list float;
  variance_data : list float
}.

(** [CustomCallback.__init__] *)
Definition CustomCallback_new : CustomCallback :=
  {| timesteps_data := []; rewards_data := []; loss_data := []; variance_data := [] |}.

(** [CustomCallback._on_step], given what the base class holds when it is
    called: the logger's [name_to_value] dictionary and [num_timesteps]. *)
Definition _on_step (self : CustomCallback) (name_to_value : gmap string float)
    (num_timesteps : Z) : CustomCallback * bool :=
  match name_to_value !! "rollout/ep_rew_mean"%string with
  | Some reward =>
      let fresh :=
        match last (timesteps_data self) with
        | None => true
        | Some t => negb (t =? num_timesteps)
        end in
      if fresh then
        ({| timesteps_data := timesteps_data self ++ [num_timesteps];
            rewards_data := rewards_data self ++ [reward];
            loss_data :=
              match name_to_value !! "train/loss"%string with
              | Some v => loss_data self ++ [v]
              | None => loss_data self
              end;
            variance_data :=
              match name_to_value !! "train/explained_variance"%string with
              | Some v => variance_data self ++ [v]
              | None => variance_data self
              end |}, true)
      else (self, true)
  | None => (self, true)
  end.

(** The callback after a training run: one [_on_step] per environment
    step, each with the logger and the step count of that moment. *)
Definition on_steps (self : CustomCallback) (steps : list (gmap string float * Z))
  : CustomCallback :=
  fold_left (fun cb '(name_to_value, num_timesteps) =>
               fst (_on_step cb name_to_value num_timesteps)) steps self.

(** ** Predicates of the further properties *)

(** Every call of the list returns normally. *)
Fixpoint all_return (self : MapEnv) (calls : list call) : bool :=
  match calls with
  | [] => true
  | c :: calls' =>
      match c with
      | CallReset => match snd (reset self) with Ok _ => true | Raise _ => false end
      | CallStep action => match snd (step self action) with Ok _ => true | Raise _ => false end
      end && all_return (do_call self c) calls'
  end.

(** Every tile of every tile layer is on the map, as [pytmx] yields them. *)
Definition tiles_on_map (tiled_map : TiledMap) : Prop :=
  forall tiles x y gid,
    TiledTileLayer tiles ∈ visible_layers tiled_map -> (x, y, gid) ∈ tiles ->
    0 <= x < Z.of_nat (width tiled_map) /\ 0 <= y < Z.of_nat (height tiled_map).

(** What a sampled room satisfies: sizes in the configured ranges,
    origin in the range [randint] draws it from. *)
Definition room_in_range (cfg : config) (r : rect) : Prop :=
  let '(x, y, w, h) := r in
  ROOM_MIN_W cfg <= w <= ROOM_MAX_W cfg /\
  ROOM_MIN_H cfg <= h <= ROOM_MAX_H cfg /\
  1 <= x <= MAP_W cfg - w - 2 /\
  1 <= y <= MAP_H cfg - h - 2.

(** The second grid is the first one with the cells of [region] set to
    [t]: every cell of the region holds [t], every other cell holds what it
    held (and no cell holds anything but what it held or [t]). *)
Definition painted (region : Z * Z -> Prop) (t : tile) (g g' : TileGrid) : Prop :=
  forall p,
    (tile_at g' p = tile_at g p \/ tile_at g' p = Some t) /\
    (region p -> tile_at g' p = Some t) /\
    (~ region p -> tile_at g' p = tile_at g p).

(* ===================================================================== *)
(** * Part II: properties                                                  *)
(* ===================================================================== *)

(** ** Indexing *)

Lemma norm_index_in_range (len : nat) (i : Z) :
  0 <= i < Z.of_nat len -> norm_index len i = Some (Z.to_nat i).
Proof.
  intros Hi. unfold norm_index.
  destruct (0 <=? i) eqn:H0; [| lia].
  destruct (i <? Z.of_nat len) eqn:H1; [reflexivity | lia].
Qed.

Lemma py_getitem_in_range {A} (l : list A) (i : Z) :
  0 <= i < Z.of_nat (length l) ->
  exists a, l !! Z.to_nat i = Some a /\ py_getitem l i = Ok a.
Proof.
  intros Hi. unfold py_getitem. rewrite norm_index_in_range by exact Hi.
  destruct (lookup_lt_is_Some_2 l (Z.to_nat i)) as [a Ha]; [lia |].
  exists a. rewrite Ha. auto.
Qed.

Lemma py_getitem_elem {A} (l : list A) (i : Z) (a : A) :
  py_getitem l i = Ok a -> a ∈ l.
Proof.
  unfold py_getitem. destruct (norm_index (length l) i) as [n |]; [| discriminate].
  destruct (l !! n) as [a' |] eqn:Hn; [| discriminate].
  intros [= <-]. eapply list_elem_of_lookup_2; eauto.
Qed.

Lemma py_setitem_in_range {A} (l : list A) (i : Z) (a : A) :
  0 <= i < Z.of_nat (length l) ->
  py_setitem l i a = Ok (<[Z.to_nat i := a]> l).
Proof.
  intros Hi. unfold py_setitem. rewrite norm_index_in_range by exact Hi. reflexivity.
Qed.

Lemma py_setitem_length {A} (l l' : list A) (i : Z) (a : A) :
  py_setitem l i a = Ok l' -> length l' = length l.
Proof.
  unfold py_setitem. destruct (norm_index (length l) i); [| discriminate].
  intros [= <-]. apply length_insert.
Qed.

(** ** Matrix shapes *)

Lemma has_shape_spec (h w : nat) (m : matrix) :
  has_shape h w m = true <-> length m = h /\ Forall (fun row => length row = w) m.
Proof.
  unfold has_shape. rewrite andb_true_iff, bool_decide_eq_true, forallb_forall.
  rewrite Forall_forall. split; intros [Hl Hr]; split; auto; intros row Hin.
  - apply list_elem_of_In in Hin. apply Hr in Hin.
    apply bool_decide_eq_true in Hin. exact Hin.
  - apply bool_decide_eq_true. apply Hr. apply list_elem_of_In. exact Hin.
Qed.

Lemma np_full_shape (h w : nat) (v : Z) : has_shape h w (np_full h w v) = true.
Proof.
  apply has_shape_spec. unfold np_full. split.
  - apply length_replicate.
  - apply Forall_replicate. apply length_replicate.
Qed.

Lemma np_get_in_range (h w : nat) (m : matrix) (y x : Z) :
  has_shape h w m = true ->
  0 <= y < Z.of_nat h -> 0 <= x < Z.of_nat w ->
  exists v, np_get m y x = Ok v.
Proof.
  intros Hs Hy Hx. apply has_shape_spec in Hs as [Hl Hr].
  unfold np_get.
  destruct (py_getitem_in_range m y) as (row & Hrow & ->); [lia |].
  simpl. rewrite Forall_forall in Hr.
  assert (length row = w) as Hw by (apply Hr; eapply list_elem_of_lookup_2; eauto).
  destruct (py_getitem_in_range row x) as (v & _ & ->); [lia |].
  eauto.
Qed.

Lemma np_set_shape (h w : nat) (m m' : matrix) (y x v : Z) :
  has_shape h w m = true -> np_set m y x v = Ok m' -> has_shape h w m' = true.
Proof.
  intros Hs Hset. apply has_shape_spec in Hs as [Hl Hr]. apply has_shape_spec.
  unfold np_set in Hset.
  destruct (py_getitem m y) as [row |] eqn:Hrow; [| discriminate]. simpl in Hset.
  destruct (py_setitem row x v) as [row' |] eqn:Hrow'; [| discriminate]. simpl in Hset.
  pose proof (py_setitem_length _ _ _ _ Hrow') as Hlen.
  pose proof (py_setitem_length _ _ _ _ Hset) as Hlen'.
  split; [lia |].
  unfold py_setitem in Hset.
  destruct (norm_index (length m) y) as [n |]; [| discriminate].
  injection Hset as <-.
  apply Forall_insert; [exact Hr |].
  rewrite Hlen. rewrite Forall_forall in Hr. apply Hr.
  eapply py_getitem_elem; eauto.
Qed.

Lemma np_set_in_range (h w : nat) (m : matrix) (y x v : Z) :
  has_shape h w m = true ->
  0 <= y < Z.of_nat h -> 0 <= x < Z.of_nat w ->
  exists m', np_set m y x v = Ok m'.
Proof.
  intros Hs Hy Hx. apply has_shape_spec in Hs as [Hl Hr].
  unfold np_set.
  destruct (py_getitem_in_range m y) as (row & Hrow & ->); [lia |].
  simpl. rewrite Forall_forall in Hr.
  assert (length row = w) as Hw by (apply Hr; eapply list_elem_of_lookup_2; eauto).
  rewrite py_setitem_in_range by lia. simpl.
  rewrite py_setitem_in_range by lia. eauto.
Qed.

(** ** [MapEnv]: elementary facts *)

#[local] Arguments in_bounds : simpl never.
#[local] Arguments np_get : simpl never.
#[local] Arguments np_set : simpl never.
#[local] Arguments distance_to_nearest : simpl never.

Lemma in_bounds_spec (self : MapEnv) (x y : Z) :
  in_bounds self (x, y) = true <->
  0 <= y < map_height self /\ 0 <= x < map_width self.
Proof. unfold in_bounds. rewrite !andb_true_iff. lia. Qed.

Lemma wf_env_spec (self : MapEnv) :
  wf_env self = true <->
  0 <= map_height self /\ 0 <= map_width self /\
  has_shape (Z.to_nat (map_height self)) (Z.to_nat (map_width self)) (wall_matrix self) = true /\
  has_shape (Z.to_nat (map_height self)) (Z.to_nat (map_width self)) (goal_matrix self) = true.
Proof. unfold wf_env. rewrite !andb_true_iff, !Z.leb_le. tauto. Qed.

(** Building the observation never raises: the write into the player
    channel is guarded by the bounds test. *)
Lemma _get_observation_returns (self : MapEnv) :
  exists obs, _get_observation self = Ok obs.
Proof.
  unfold _get_observation. destruct (player_pos self) as [px py].
  destruct (in_bounds self (px, py)) eqn:Hb.
  - apply in_bounds_spec in Hb as [Hy Hx].
    destruct (np_set_in_range (Z.to_nat (map_height self)) (Z.to_nat (map_width self))
                (np_zeros (Z.to_nat (map_height self)) (Z.to_nat (map_width self)))
                py px 255) as [m' ->]; [apply np_full_shape | lia | lia |].
    simpl. eauto.
  - simpl. eauto.
Qed.

Lemma wall_lookup_returns (self : MapEnv) (x y : Z) :
  wf_env self = true -> in_bounds self (x, y) = true ->
  exists v, np_get (wall_matrix self) y x = Ok v.
Proof.
  intros Hwf Hb. apply wf_env_spec in Hwf as (Hh & Hw & Hwall & _).
  apply in_bounds_spec in Hb as [Hy Hx].
  eapply np_get_in_range; eauto; lia.
Qed.

Lemma goal_lookup_returns (self : MapEnv) (x y : Z) :
  wf_env self = true -> in_bounds self (x, y) = true ->
  exists v, np_get (goal_matrix self) y x = Ok v.
Proof.
  intros Hwf Hb. apply wf_env_spec in Hwf as (Hh & Hw & _ & Hgoal).
  apply in_bounds_spec in Hb as [Hy Hx].
  eapply np_get_in_range; eauto; lia.
Qed.

(** ** [MapEnv.step]: how a move is resolved *)

Lemma step_object (self : MapEnv) (action : Z) :
  fst (step self action) = fst (resolve_move self action).
Proof.
  unfold step. destruct (resolve_move self action) as [self' [reward | e]]; reflexivity.
Qed.

(** A candidate out of bounds or on a wall: nothing is written to the
    object and the reward of the move is the penalty. *)
Lemma resolve_move_blocked (self : MapEnv) (action : Z) :
  in_bounds self (candidate action (player_pos self)) = false \/
  is_wall self (candidate action (player_pos self)) = true ->
  resolve_move self action = (self, Ok (-5)%Q).
Proof.
  unfold resolve_move, is_wall.
  destruct (candidate action (player_pos self)) as [x y]. simpl.
  intros [Hb | Hw].
  - rewrite Hb. reflexivity.
  - destruct (in_bounds self (x, y)); [simpl | reflexivity].
    destruct (np_get (wall_matrix self) y x) as [w |]; [| discriminate].
    rewrite Hw. reflexivity.
Qed.

(** A candidate in bounds and not on a wall: the agent moves there and the
    cache takes the new distance, provided the distance can be computed. *)
Lemma resolve_move_moved (self : MapEnv) (action : Z) (new_distance : float) :
  wf_env self = true ->
  in_bounds self (candidate action (player_pos self)) = true ->
  is_wall self (candidate action (player_pos self)) = false ->
  distance_to_nearest (candidate action (player_pos self)) (enemy_locations self)
    = Ok new_distance ->
  resolve_move self action =
    (set_last_distance
       (set_player_pos self (candidate action (player_pos self))) new_distance,
     Ok (if float_lt new_distance (last_distance self) then 1%Q else (- (1 # 2))%Q)).
Proof.
  unfold resolve_move, is_wall, _get_distance_to_nearest_enemy.
  destruct (candidate action (player_pos self)) as [x y]. simpl.
  intros Hwf Hb Hw Hd. rewrite Hb. simpl.
  destruct (wall_lookup_returns self x y Hwf Hb) as [w Hget].
  rewrite Hget in Hw |- *. rewrite Hw, Hd. reflexivity.
Qed.

(** The position after [resolve_move], whether or not the distance could
    be computed. *)
Lemma resolve_move_position (self : MapEnv) (action : Z) :
  wf_env self = true ->
  player_pos (fst (resolve_move self action)) =
    if in_bounds self (candidate action (player_pos self)) &&
       negb (is_wall self (candidate action (player_pos self)))
    then candidate action (player_pos self)
    else player_pos self.
Proof.
  intros Hwf.
  destruct (in_bounds self (candidate action (player_pos self))) eqn:Hb; simpl.
  - destruct (is_wall self (candidate action (player_pos self))) eqn:Hw; simpl.
    + rewrite resolve_move_blocked by auto. reflexivity.
    + revert Hb Hw. unfold resolve_move, is_wall, _get_distance_to_nearest_enemy.
      destruct (candidate action (player_pos self)) as [x y]. simpl.
      intros Hb Hw. rewrite Hb. simpl.
      destruct (wall_lookup_returns self x y Hwf Hb) as [w Hget].
      rewrite Hget in Hw |- *. rewrite Hw. simpl.
      destruct (distance_to_nearest (x, y) (enemy_locations self)); reflexivity.
  - rewrite resolve_move_blocked by auto. reflexivity.
Qed.

Lemma candidate_invalid (action : Z) (pos : Z * Z) :
  ~ (0 <= action <= 3) -> candidate action pos = pos.
Proof.
  intros Ha. unfold candidate. destruct pos as [x y].
  destruct (action =? 0) eqn:H0; [lia |].
  destruct (action =? 1) eqn:H1; [lia |].
  destruct (action =? 2) eqn:H2; [lia |].
  destruct (action =? 3) eqn:H3; [lia |].
  reflexivity.
Qed.

(** C2. For a well-formed environment and an action in {0,1,2,3}, the
    candidate is one tile away along one axis (0: y-1, 1: y+1, 2: x-1,
    3: x+1); after [step] the agent is on the candidate when the candidate
    is in bounds and not a wall tile, and where it was otherwise. *)
Theorem step_moves_to_candidate (self : MapEnv) (action : Z) :
  wf_env self = true ->
  0 <= action <= 3 ->
  let '(x, y) := player_pos self in
  let c := candidate action (x, y) in
  (action = 0 -> c = (x, y - 1)) /\
  (action = 1 -> c = (x, y + 1)) /\
  (action = 2 -> c = (x - 1, y)) /\
  (action = 3 -> c = (x + 1, y)) /\
  player_pos (fst (step self action)) =
    if in_bounds self c && negb (is_wall self c) then c else (x, y).
Proof.
  intros Hwf Ha.
  pose proof (resolve_move_position self action Hwf) as Hpos.
  rewrite <- step_object in Hpos.
  destruct (player_pos self) as [x y] eqn:Hp.
  repeat split; try (intros ->; reflexivity).
  exact Hpos.
Qed.

(** On the sample environment: the move right from [(0, 0)] succeeds, the
    move up is out of bounds. *)
Lemma step_moves_to_candidate_witness :
  player_pos (fst (step sample_env 3)) = (1, 0) /\
  player_pos (fst (step sample_env 0)) = (0, 0).
Proof.
  pose proof (step_moves_to_candidate sample_env 3 eq_refl ltac:(lia)) as H3.
  pose proof (step_moves_to_candidate sample_env 0 eq_refl ltac:(lia)) as H0.
  simpl in H3, H0.
  destruct H3 as (_ & _ & _ & _ & H3). destruct H0 as (_ & _ & _ & _ & H0).
  split; [exact H3 | exact H0].
Defined.

(** ** [MapEnv.step]: reward and termination *)

Lemma float_lt_irrefl (d : float) : float_lt d d = false.
Proof.
  unfold float_lt, SFltb.
  destruct d as [s | s | | s m e]; try (destruct s; reflexivity); try reflexivity.
  simpl. rewrite Z.compare_refl, Pos.compare_cont_refl.
  destruct s; reflexivity.
Qed.

(** The goal check and the return of [step] (lines 93-97), once the move
    is resolved without an exception and the agent is in bounds. *)
Lemma step_after_resolve (self self' : MapEnv) (action : Z) (reward : Q) :
  resolve_move self action = (self', Ok reward) ->
  wf_env self' = true ->
  in_bounds self' (player_pos self') = true ->
  exists obs,
    step self action =
      (self',
       Ok (obs,
           if is_goal self' (player_pos self') then 100%Q else reward,
           is_goal self' (player_pos self'), false)).
Proof.
  intros Hres Hwf Hb. unfold step. rewrite Hres.
  destruct (player_pos self') as [px py] eqn:Hp. cbn [fst snd].
  destruct (goal_lookup_returns self' px py Hwf Hb) as [g Hg].
  destruct (_get_observation_returns self') as [obs Hobs].
  exists obs. unfold is_goal. cbn [fst snd]. rewrite Hg. simpl.
  destruct (g =? 255); rewrite Hobs; reflexivity.
Qed.



(** A blocked move leaves the whole object as it was. *)
Lemma step_blocked_object (self : MapEnv) (action : Z) :
  in_bounds self (candidate action (player_pos self)) = false \/
  is_wall self (candidate action (player_pos self)) = true ->
  fst (step self action) = self.
Proof.
  intros Hblocked. rewrite step_object, resolve_move_blocked by exact Hblocked.
  reflexivity.
Qed.

(** C4, as the code has it.  When the candidate is out of bounds or a wall
    tile, [step] leaves the agent position and the cached distance
    unchanged; on a well-formed environment with the agent in bounds it
    raises nothing, and it returns the penalty -5 with [terminated = false]
    unless the agent already stands on a goal tile, in which case the goal
    check of the unchanged position returns 100 with [terminated = true]. *)
Theorem blocked_move (self : MapEnv) (action : Z) :
  in_bounds self (candidate action (player_pos self)) = false \/
  is_wall self (candidate action (player_pos self)) = true ->
  player_pos (fst (step self action)) = player_pos self /\
  last_distance (fst (step self action)) = last_distance self /\
  (wf_env self = true -> in_bounds self (player_pos self) = true ->
   exists obs,
     snd (step self action) =
       Ok (obs,
           if is_goal self (player_pos self) then 100%Q else (-5)%Q,
           is_goal self (player_pos self), false)).
Proof.
  intros Hblocked.
  rewrite (step_blocked_object self action Hblocked).
  repeat split.
  intros Hwf Hb.
  destruct (step_after_resolve self self action (-5)%Q
              (resolve_move_blocked self action Hblocked) Hwf Hb) as [obs Hstep].
  exists obs. rewrite Hstep. reflexivity.
Qed.

(** On the sample environment: the move up from [(0, 0)] is blocked. *)
Lemma blocked_move_witness :
  player_pos (fst (step sample_env 0)) = (0, 0) /\
  exists obs, snd (step sample_env 0) = Ok (obs, (-5)%Q, false, false).
Proof.
  destruct (blocked_move sample_env 0 (or_introl eq_refl)) as (Hp & _ & Hr).
  split; [exact Hp |].
  exact (Hr eq_refl eq_refl).
Defined.

(** C4 as stated fails: with the agent on the goal tile [(2, 2)], the move
    down is out of bounds, and [step] returns 100 and [terminated = true]. *)
Lemma blocked_move_on_goal :
  sample_env_at (2, 1) = Ok (sample_env_value (2, 1) (S754_finite false 4503599627370496 (-52))) /\
  player_pos sample_env_on_goal = (2, 2) /\
  in_bounds sample_env_on_goal (candidate 1 (player_pos sample_env_on_goal)) = false /\
  exists obs, snd (step sample_env_on_goal 1) = Ok (obs, 100%Q, true, false).
Proof.
  split; [vm_compute; reflexivity |].
  split; [vm_compute; reflexivity |].
  split; [vm_compute; reflexivity |].
  eexists. vm_compute. reflexivity.
Qed.

(** C1, as the code has it.  An action outside {0,1,2,3} is not rejected:
    no branch of the action test fires, so the candidate is the agent's own
    tile and the position is unchanged.  On a well-formed environment with
    the agent in bounds and the cache holding the distance at its position,
    the call returns normally: 100 and [terminated] on a goal tile, the
    penalty -5 on a wall tile, and -0.5 otherwise. *)
Theorem step_invalid_action (self : MapEnv) (action : Z) :
  ~ (0 <= action <= 3) ->
  candidate action (player_pos self) = player_pos self /\
  player_pos (fst (step self action)) = player_pos self /\
  (wf_env self = true -> in_bounds self (player_pos self) = true ->
   _get_distance_to_nearest_enemy self = Ok (last_distance self) ->
   exists obs,
     snd (step self action) =
       Ok (obs,
           if is_goal self (player_pos self) then 100%Q
           else if is_wall self (player_pos self) then (-5)%Q
           else (- (1 # 2))%Q,
           is_goal self (player_pos self), false)).
Proof.
  intros Ha. pose proof (candidate_invalid action (player_pos self) Ha) as Hc.
  split; [exact Hc |]. split.
  - rewrite step_object. unfold resolve_move, _get_distance_to_nearest_enemy.
    rewrite Hc. destruct (player_pos self) as [x y] eqn:Hp.
    destruct (negb (in_bounds self (x, y))); [exact Hp |].
    destruct (np_get (wall_matrix self) y x) as [w |]; [| exact Hp].
    destruct (w =? 1); [exact Hp |].
    destruct (distance_to_nearest _ _); reflexivity.
  - intros Hwf Hb Hcache.
    destruct (is_wall self (player_pos self)) eqn:Hw.
    + destruct (step_after_resolve self self action (-5)%Q) as [obs Hstep];
        [apply resolve_move_blocked; rewrite Hc; auto | exact Hwf | exact Hb |].
      exists obs. rewrite Hstep. reflexivity.
    + unfold _get_distance_to_nearest_enemy in Hcache.
      pose proof (resolve_move_moved self action (last_distance self) Hwf) as Hres.
      rewrite Hc in Hres. specialize (Hres Hb Hw Hcache).
      rewrite float_lt_irrefl in Hres.
      destruct (step_after_resolve _ _ _ _ Hres) as [obs Hstep]; [exact Hwf | exact Hb |].
      exists obs. rewrite Hstep.
      cbn [snd set_last_distance set_player_pos player_pos].
      reflexivity.
Qed.

(** On the sample environment: action 7. *)
Lemma step_invalid_action_witness :
  player_pos (fst (step sample_env 7)) = (0, 0) /\
  exists obs, snd (step sample_env 7) = Ok (obs, (- (1 # 2))%Q, false, false).
Proof.
  destruct (step_invalid_action sample_env 7 ltac:(lia)) as (_ & Hp & Hr).
  split; [exact Hp |].
  exact (Hr eq_refl eq_refl eq_refl).
Defined.

(** C1 as stated fails: action 7 on the sample environment raises nothing
    and is answered like a move, with the stagnation penalty. *)
Lemma step_accepts_invalid_action :
  ~ (0 <= 7 <= 3) /\
  sample_env_at (0, 0) = Ok sample_env /\
  (exists obs, snd (step sample_env 7) = Ok (obs, (- (1 # 2))%Q, false, false)) /\
  ~ (exists e, snd (step sample_env 7) = Raise e).
Proof.
  split; [lia |].
  split; [vm_compute; reflexivity |].
  split.
  - eexists. vm_compute. reflexivity.
  - intros [e He]. vm_compute in He. discriminate He.
Qed.

(** ** [MapEnv.reset] *)

(** C9. [reset] is idempotent: a second [reset] right after a first one
    returns the same observation and leaves the same object, in particular
    the same cached distance. *)
Theorem reset_idempotent (self : MapEnv) :
  snd (reset (fst (reset self))) = snd (reset self) /\
  last_distance (fst (reset (fst (reset self)))) = last_distance (fst (reset self)) /\
  fst (reset (fst (reset self))) = fst (reset self).
Proof.
  assert (reset (fst (reset self)) = reset self) as Heq.
  { unfold reset, _get_distance_to_nearest_enemy. destruct self as [w h sp pp el wm gm ld].
    cbn [set_player_pos start_pos player_pos enemy_locations map_width map_height
         wall_matrix goal_matrix last_distance].
    destruct (distance_to_nearest sp el) as [d | e] eqn:Hd;
      cbn [fst set_player_pos set_last_distance start_pos player_pos enemy_locations
           map_width map_height wall_matrix goal_matrix last_distance];
      rewrite Hd; reflexivity. }
  rewrite Heq. auto.
Qed.

(** ** A walk across an open map *)

(** On the open 8x8 map, from [(0, 0)]: seven moves right and seven moves
    down each bring the agent closer; the victory reward and termination
    come with the last move and not before. *)
Example walk_to_the_goal :
  exists self,
    __init__ open_map (0, 0) {[48]} {[8]} = Ok self /\
    rollout self (replicate 7 3 ++ replicate 7 1) =
      replicate 13 (Ok (1%Q, false)) ++ [Ok (100%Q, true)].
Proof.
  eexists. split; [vm_compute; reflexivity |]. vm_compute. reflexivity.
Qed.

(** ** Loops *)

Lemma for_each_invariant {A S} (P : S -> Prop) (body : S -> A -> result S) (xs : list A) :
  (forall acc x acc', P acc -> x ∈ xs -> body acc x = Ok acc' -> P acc') ->
  forall acc r, P acc -> for_each xs body acc = Ok r -> P r.
Proof.
  induction xs as [| x xs IH]; intros Hbody acc r HP Hrun; simpl in Hrun.
  - injection Hrun as <-. exact HP.
  - destruct (body acc x) as [acc' |] eqn:Hx; [| discriminate]. simpl in Hrun.
    apply (IH (fun acc0 x0 acc0' HP0 Hin => Hbody acc0 x0 acc0' HP0 (list_elem_of_further _ _ _ Hin))
              acc' r); [| exact Hrun].
    eapply Hbody; eauto. apply list_elem_of_here.
Qed.

Lemma elem_of_py_range (lo hi k : Z) : k ∈ py_range lo hi <-> lo <= k < hi.
Proof.
  unfold py_range. rewrite list_elem_of_fmap. split.
  - intros (n & -> & Hn). apply elem_of_seq in Hn. lia.
  - intros Hk. exists (Z.to_nat (k - lo)). split; [lia |].
    apply elem_of_seq. lia.
Qed.

(** ** [MapEnv.__init__] *)

Lemma classify_tile_shape (h w : nat) (walkable_gids enemy_gids : gset Z)
    (wall goal wall' goal' : matrix) (enemies enemies' : list (Z * Z)) (t : Z * Z * Z) :
  has_shape h w wall = true -> has_shape h w goal = true ->
  classify_tile walkable_gids enemy_gids (wall, goal, enemies) t = Ok (wall', goal', enemies') ->
  has_shape h w wall' = true /\ has_shape h w goal' = true.
Proof.
  intros Hwall Hgoal. unfold classify_tile. destruct t as [[x y] gid].
  destruct (bool_decide (gid ∈ walkable_gids)).
  - destruct (np_set wall y x 0) as [m |] eqn:Hset; [| discriminate].
    simpl. intros [= <- <- <-]. eauto using np_set_shape.
  - destruct (bool_decide (gid ∈ enemy_gids)).
    + destruct (np_set wall y x 0) as [m |] eqn:Hset; [| discriminate]. simpl.
      destruct (np_set goal y x 255) as [m2 |] eqn:Hset2; [| discriminate].
      simpl. intros [= <- <- <-]. eauto using np_set_shape.
    + destruct (np_set wall y x 1) as [m |] eqn:Hset; [| discriminate].
      simpl. intros [= <- <- <-]. eauto using np_set_shape.
Qed.

Lemma derive_matrices_shape (tiled_map : TiledMap) (walkable_gids enemy_gids : gset Z)
    (wall goal : matrix) (enemies : list (Z * Z)) :
  derive_matrices tiled_map walkable_gids enemy_gids = Ok (wall, goal, enemies) ->
  has_shape (height tiled_map) (width tiled_map) wall = true /\
  has_shape (height tiled_map) (width tiled_map) goal = true.
Proof.
  unfold derive_matrices. intros Hrun.
  set (P := fun acc : matrix * matrix * list (Z * Z) =>
              has_shape (height tiled_map) (width tiled_map) acc.1.1 = true /\
              has_shape (height tiled_map) (width tiled_map) acc.1.2 = true).
  apply (for_each_invariant P _ _) in Hrun; [exact Hrun | | split; apply np_full_shape].
  intros acc [tiles |] acc' HP _ Hbody.
  - apply (for_each_invariant P _ _) in Hbody; [exact Hbody | | exact HP].
    intros [[wl gl] en] t [[wl' gl'] en'] [H1 H2] _ Hc. unfold P. cbn [fst snd] in *.
    eapply classify_tile_shape; [exact H1 | exact H2 | exact Hc].
  - injection Hbody as <-. exact HP.
Qed.

(** What a successful construction establishes. *)
Lemma __init___establishes (tiled_map : TiledMap) (start : Z * Z)
    (enemy_gids walkable_gids : gset Z) (self : MapEnv) :
  __init__ tiled_map start enemy_gids walkable_gids = Ok self ->
  wf_env self = true /\
  map_width self = Z.of_nat (width tiled_map) /\
  map_height self = Z.of_nat (height tiled_map) /\
  start_pos self = start /\ player_pos self = start /\
  _get_distance_to_nearest_enemy self = Ok (last_distance self).
Proof.
  unfold __init__.
  destruct (derive_matrices tiled_map walkable_gids enemy_gids) as [[[wall goal] enemies] |] eqn:Hd;
    [| discriminate].
  simpl. destruct (distance_to_nearest start enemies) as [d |] eqn:Hdist; [| discriminate].
  simpl. intros [= <-].
  apply derive_matrices_shape in Hd as [Hwall Hgoal].
  repeat split; try reflexivity; [| exact Hdist].
  apply wf_env_spec. cbn [map_width map_height wall_matrix goal_matrix].
  rewrite !Nat2Z.id. repeat split; try lia; assumption.
Qed.

(** ** Matrix derivation from one layer *)

Lemma np_get_cell (h w : nat) (m : matrix) (y x : Z) :
  has_shape h w m = true ->
  0 <= y < Z.of_nat h -> 0 <= x < Z.of_nat w ->
  exists v, cell m (Z.to_nat y) (Z.to_nat x) = Some v /\ np_get m y x = Ok v.
Proof.
  intros Hs Hy Hx. apply has_shape_spec in Hs as [Hl Hr].
  unfold np_get, cell.
  destruct (py_getitem_in_range m y) as (row & Hrow & ->); [lia |].
  rewrite Hrow. cbn [mbind option_bind result_bind]. rewrite Forall_forall in Hr.
  assert (length row = w) as Hw by (apply Hr; eapply list_elem_of_lookup_2; eauto).
  destruct (py_getitem_in_range row x) as (v & Hv & ->); [lia |].
  eauto.
Qed.

Lemma np_set_cell (h w : nat) (m : matrix) (y x v : Z) :
  has_shape h w m = true ->
  0 <= y < Z.of_nat h -> 0 <= x < Z.of_nat w ->
  exists m',
    np_set m y x v = Ok m' /\ has_shape h w m' = true /\
    cell m' (Z.to_nat y) (Z.to_nat x) = Some v /\
    forall y' x', (y', x') <> (Z.to_nat y, Z.to_nat x) -> cell m' y' x' = cell m y' x'.
Proof.
  intros Hs Hy Hx.
  destruct (np_set_in_range h w m y x v Hs Hy Hx) as [m' Hset].
  exists m'. split; [exact Hset |]. split; [eapply np_set_shape; eauto |].
  apply has_shape_spec in Hs as [Hl Hr]. revert Hset. unfold np_set, cell.
  destruct (py_getitem_in_range m y) as (row & Hrow & ->); [lia |].
  cbn [mbind result_bind]. rewrite Forall_forall in Hr.
  assert (length row = w) as Hw by (apply Hr; eapply list_elem_of_lookup_2; eauto).
  rewrite py_setitem_in_range by lia. cbn [mbind result_bind].
  rewrite py_setitem_in_range by lia. intros [= <-]. split.
  - rewrite list_lookup_insert_eq by lia. cbn [mbind option_bind].
    apply list_lookup_insert_eq. lia.
  - intros y' x' Hne. destruct (decide (y' = Z.to_nat y)) as [-> | Hney].
    + rewrite list_lookup_insert_eq by lia. rewrite Hrow. cbn [mbind option_bind].
      apply list_lookup_insert_ne. congruence.
    + rewrite list_lookup_insert_ne by auto. reflexivity.
Qed.

(** The tile loop over a layer that lists each cell once keeps the
    invariant, as long as the cells still to come are not yet goals. *)
Lemma classify_layer_goals_enterable (h w : nat) (walkable_gids enemy_gids : gset Z)
    (tiles : list (Z * Z * Z)) :
  NoDup (map fst tiles) ->
  Forall (fun '(x, y, _) => 0 <= x < Z.of_nat w /\ 0 <= y < Z.of_nat h) tiles ->
  forall wall goal enemies wall' goal' enemies',
    has_shape h w wall = true -> has_shape h w goal = true ->
    goals_enterable wall goal ->
    (forall x y gid, (x, y, gid) ∈ tiles ->
       cell goal (Z.to_nat y) (Z.to_nat x) = Some 0) ->
    for_each tiles (classify_tile walkable_gids enemy_gids) (wall, goal, enemies)
      = Ok (wall', goal', enemies') ->
    goals_enterable wall' goal'.
Proof.
  induction tiles as [| [[x y] gid] tiles IH];
    intros Hnd Hrange wall goal enemies wall' goal' enemies' Hsw Hsg Hinv Hfresh Hrun.
  - injection Hrun as <- <- <-. exact Hinv.
  - apply NoDup_cons in Hnd as [Hnotin Hnd].
    apply Forall_cons in Hrange as [[Hx Hy] Hrange].
    assert (forall x' y' gid', (x', y', gid') ∈ tiles ->
              (Z.to_nat y', Z.to_nat x') <> (Z.to_nat y, Z.to_nat x)) as Hother.
    { intros x' y' gid' Hin Heq.
      rewrite Forall_forall in Hrange. pose proof (Hrange _ Hin) as [Hx' Hy'].
      cbn [fst snd] in *. apply Hnotin. apply list_elem_of_fmap.
      exists (x', y', gid'). split; [| exact Hin].
      cbn [fst]. injection Heq as Hyy Hxx. f_equal; lia. }
    assert (forall x' y' gid', (x', y', gid') ∈ tiles -> (x', y', gid') ∈ (x, y, gid) :: tiles)
      as Hfurther by (intros; apply list_elem_of_further; assumption).
    cbn [for_each] in Hrun.
    destruct (classify_tile walkable_gids enemy_gids (wall, goal, enemies) (x, y, gid))
      as [[[wall1 goal1] enemies1] |] eqn:Hcl; [| discriminate].
    cbn [mbind result_bind] in Hrun.
    destruct (classify_tile_shape h w _ _ _ _ _ _ _ _ _ Hsw Hsg Hcl) as [Hsw1 Hsg1].
    apply (IH Hnd Hrange _ _ _ _ _ _ Hsw1 Hsg1) in Hrun; [exact Hrun | |];
      revert Hcl; unfold classify_tile;
      destruct (np_set_cell h w wall y x 0 Hsw Hy Hx) as (wall0 & -> & _ & Hat0 & Hrest0);
      destruct (np_set_cell h w wall y x 1 Hsw Hy Hx) as (wall_1 & -> & _ & Hat1 & Hrest1);
      destruct (np_set_cell h w goal y x 255 Hsg Hy Hx) as (goal_255 & -> & _ & Hatg & Hrestg);
      cbn [mbind result_bind];
      destruct (bool_decide (gid ∈ walkable_gids));
      [| destruct (bool_decide (gid ∈ enemy_gids)) | | destruct (bool_decide (gid ∈ enemy_gids))];
      intros [= <- <- <-].
    + intros y' x' Hg.
      destruct (decide ((y', x') = (Z.to_nat y, Z.to_nat x))) as [[= -> ->] | Hne];
        [exact Hat0 |].
      rewrite Hrest0 by exact Hne. apply Hinv. exact Hg.
    + intros y' x' Hg.
      destruct (decide ((y', x') = (Z.to_nat y, Z.to_nat x))) as [[= -> ->] | Hne];
        [exact Hat0 |].
      rewrite Hrest0 by exact Hne. apply Hinv. rewrite <- Hrestg by exact Hne. exact Hg.
    + intros y' x' Hg.
      destruct (decide ((y', x') = (Z.to_nat y, Z.to_nat x))) as [[= -> ->] | Hne].
      * rewrite (Hfresh x y gid (list_elem_of_here _ _)) in Hg. discriminate Hg.
      * rewrite Hrest1 by exact Hne. apply Hinv. exact Hg.
    + intros x' y' gid' Hin. eapply Hfresh, Hfurther, Hin.
    + intros x' y' gid' Hin. rewrite Hrestg by (eapply Hother, Hin).
      eapply Hfresh, Hfurther, Hin.
    + intros x' y' gid' Hin. eapply Hfresh, Hfurther, Hin.
Qed.

Lemma cell_np_full (h w : nat) (v : Z) (y x : nat) (c : Z) :
  cell (np_full h w v) y x = Some c -> c = v.
Proof.
  unfold cell, np_full. intros Hc.
  destruct (replicate h (replicate w v) !! y) as [row |] eqn:Hrow; [| discriminate].
  apply lookup_replicate in Hrow as [-> _]. cbn [mbind option_bind] in Hc.
  apply lookup_replicate in Hc as [-> _]. reflexivity.
Qed.

(** On a map with a single tile layer that lists each cell once, the
    constructor does give the invariant of C5: every goal cell is enterable. *)
Lemma single_layer_goals_enterable (tiled_map : TiledMap) (tiles : list (Z * Z * Z))
    (start : Z * Z) (enemy_gids walkable_gids : gset Z) (self : MapEnv) :
  visible_layers tiled_map = [TiledTileLayer tiles] ->
  layer_covers_once tiled_map tiles ->
  __init__ tiled_map start enemy_gids walkable_gids = Ok self ->
  goals_enterable (wall_matrix self) (goal_matrix self).
Proof.
  intros Hlayers [Hnd Hrange]. unfold __init__, derive_matrices. rewrite Hlayers.
  cbn [for_each].
  destruct (for_each tiles _ _) as [[[wall goal] enemies] |] eqn:Hrun; [| discriminate].
  cbn [mbind result_bind].
  destruct (distance_to_nearest start enemies) as [d |]; [| discriminate].
  cbn [mbind result_bind]. intros [= <-]. cbn [wall_matrix goal_matrix].
  eapply (classify_layer_goals_enterable (height tiled_map) (width tiled_map));
    [exact Hnd | | apply np_full_shape | apply np_full_shape | | | exact Hrun].
  - eapply Forall_impl; [exact Hrange |]. intros [[x y] gid]. lia.
  - intros y x Hg. apply cell_np_full in Hg. discriminate Hg.
  - intros x y gid Hin. rewrite Forall_forall in Hrange.
    pose proof (Hrange _ Hin) as [Hx Hy].
    destruct (np_get_cell (height tiled_map) (width tiled_map)
                (np_zeros (height tiled_map) (width tiled_map)) y x)
      as (v & Hv & _); [apply np_full_shape | lia | lia |].
    unfold np_zeros in Hv |- *. rewrite Hv. f_equal. eapply cell_np_full. exact Hv.
Qed.

(** ** Matrix derivation over several layers *)

(** C5, evaluated where it fails.  [layered_map] has an enemy tile (gid 48)
    at [(1, 0)] in its first layer and an empty cell (gid 0) above it in
    its second layer.  The constructor succeeds, the cell is a goal
    ([goal_matrix[0, 1] == 255], and it is in [enemy_locations]), and it is
    a wall ([wall_matrix[0, 1] == 1]): the goal cannot be entered. *)
Theorem goal_under_second_layer_is_wall :
  exists self,
    __init__ layered_map (0, 0) {[48]} {[8]} = Ok self /\
    np_get (goal_matrix self) 0 1 = Ok 255 /\
    np_get (wall_matrix self) 0 1 = Ok 1 /\
    enemy_locations self = [(1, 0)] /\
    is_goal self (1, 0) = true /\ is_wall self (1, 0) = true.
Proof.
  eexists. split; [vm_compute; reflexivity |].
  repeat split; vm_compute; reflexivity.
Qed.

(** ** The agent stays on the map *)

Lemma same_map_refl (a : MapEnv) : same_map a a.
Proof. repeat split. Qed.

Lemma same_map_trans (a b c : MapEnv) : same_map a b -> same_map b c -> same_map a c.
Proof. unfold same_map. intuition congruence. Qed.

Lemma same_map_wf (a b : MapEnv) : same_map a b -> wf_env a = true -> wf_env b = true.
Proof.
  intros (Hw & Hh & _ & _ & Hwm & Hgm). unfold wf_env.
  rewrite Hw, Hh, Hwm, Hgm. auto.
Qed.

Lemma same_map_in_bounds (a b : MapEnv) (p : Z * Z) :
  same_map a b -> in_bounds a p = in_bounds b p.
Proof. intros (Hw & Hh & _). unfold in_bounds. rewrite Hw, Hh. reflexivity. Qed.

Lemma reset_same_map (self : MapEnv) :
  same_map self (fst (reset self)) /\
  player_pos (fst (reset self)) = start_pos self.
Proof.
  unfold reset. destruct (_get_distance_to_nearest_enemy _); split; repeat split.
Qed.

Lemma resolve_move_same_map (self : MapEnv) (action : Z) :
  same_map self (fst (resolve_move self action)).
Proof.
  unfold resolve_move. destruct (candidate action (player_pos self)) as [x y].
  destruct (negb (in_bounds self (x, y))); [apply same_map_refl |].
  destruct (np_get (wall_matrix self) y x) as [w |]; [| apply same_map_refl].
  destruct (w =? 1); [apply same_map_refl |].
  destruct (_get_distance_to_nearest_enemy _); repeat split.
Qed.

Lemma resolve_move_in_bounds (self : MapEnv) (action : Z) :
  wf_env self = true -> in_bounds self (player_pos self) = true ->
  in_bounds self (player_pos (fst (resolve_move self action))) = true.
Proof.
  intros Hwf Hb. rewrite resolve_move_position by exact Hwf.
  destruct (in_bounds self (candidate action (player_pos self))) eqn:Hc; simpl;
    [| exact Hb].
  destruct (is_wall self (candidate action (player_pos self))); simpl; assumption.
Qed.

Lemma do_call_on_map (self : MapEnv) (c : call) :
  on_map self -> on_map (do_call self c) /\ same_map self (do_call self c).
Proof.
  intros (Hwf & Hs & Hp). destruct c as [| action]; simpl.
  - destruct (reset_same_map self) as [Hsame Hpos].
    split; [| exact Hsame]. repeat split.
    + eapply same_map_wf; eauto.
    + rewrite <- (same_map_in_bounds _ _ _ Hsame).
      destruct Hsame as (_ & _ & <- & _). exact Hs.
    + rewrite <- (same_map_in_bounds _ _ _ Hsame), Hpos. exact Hs.
  - rewrite step_object.
    pose proof (resolve_move_same_map self action) as Hsame.
    split; [| exact Hsame]. repeat split.
    + eapply same_map_wf; eauto.
    + rewrite <- (same_map_in_bounds _ _ _ Hsame).
      destruct Hsame as (_ & _ & <- & _). exact Hs.
    + rewrite <- (same_map_in_bounds _ _ _ Hsame).
      apply resolve_move_in_bounds; assumption.
Qed.

Lemma run_on_map (calls : list call) (self : MapEnv) :
  on_map self -> on_map (run self calls) /\ same_map self (run self calls).
Proof.
  revert self. induction calls as [| c calls IH]; intros self Hinv; simpl.
  - split; [exact Hinv | apply same_map_refl].
  - destruct (do_call_on_map self c Hinv) as [Hinv' Hsame].
    destruct (IH _ Hinv') as [Hinv'' Hsame'].
    split; [exact Hinv'' | eapply same_map_trans; eauto].
Qed.

(** ** What the distance computation can raise *)

Lemma for_each_raises {A S} (body : S -> A -> result S) (xs : list A) (acc : S) (e : exn) :
  for_each xs body acc = Raise e ->
  exists acc' x, x ∈ xs /\ body acc' x = Raise e.
Proof.
  revert acc. induction xs as [| x xs IH]; intros acc Hrun; simpl in Hrun; [discriminate |].
  destruct (body acc x) as [acc' |] eqn:Hx; simpl in Hrun.
  - destruct (IH _ Hrun) as (acc0 & x0 & Hin & Hraise).
    exists acc0, x0. split; [apply list_elem_of_further; exact Hin | exact Hraise].
  - injection Hrun as <-. exists acc, x. split; [apply list_elem_of_here | exact Hx].
Qed.

Lemma math_sqrt_raises (n : Z) (e : exn) :
  0 <= n -> math_sqrt n = Raise e -> e = OverflowError.
Proof.
  intros Hn. unfold math_sqrt, float_of_int.
  destruct (n <? 0) eqn:Hneg; [lia |].
  destruct (binary_normalize prec emax n 0 false); simpl; congruence.
Qed.

Lemma distance_to_nearest_raises (p : Z * Z) (enemies : list (Z * Z)) (e : exn) :
  distance_to_nearest p enemies = Raise e -> e = OverflowError.
Proof.
  unfold distance_to_nearest. destruct p as [px py].
  destruct enemies as [| en enemies]; [discriminate |].
  set (body := fun (acc : list float) '(ex, ey) =>
                 d ← math_sqrt ((px - ex) ^ 2 + (py - ey) ^ 2); Ok (acc ++ [d])).
  destruct (for_each (en :: enemies) body []) as [distances |] eqn:Hrun; simpl.
  - assert (forall xs acc r, for_each xs body acc = Ok r ->
             length r = (length acc + length xs)%nat) as Hlen.
    { induction xs as [| [ex ey] xs IH]; intros acc r Hr; simpl in Hr.
      - injection Hr as <-. simpl. lia.
      - destruct (math_sqrt ((px - ex) ^ 2 + (py - ey) ^ 2)) as [d |]; [| discriminate].
        simpl in Hr. apply IH in Hr. rewrite Hr, length_app. simpl. lia. }
    apply Hlen in Hrun. destruct distances; [simpl in Hrun; lia | discriminate].
  - intros [= <-]. apply for_each_raises in Hrun as (acc & [ex ey] & _ & Hbody).
    unfold body in Hbody.
    destruct (math_sqrt ((px - ex) ^ 2 + (py - ey) ^ 2)) as [d |] eqn:Hs; [discriminate |].
    injection Hbody as <-.
    eapply math_sqrt_raises; [| exact Hs]. nia.
Qed.

(** On the map, [step] raises nothing but the overflow of a distance. *)
Lemma step_on_map_raises (self : MapEnv) (action : Z) (e : exn) :
  on_map self -> snd (step self action) = Raise e -> e = OverflowError.
Proof.
  intros (Hwf & _ & Hb) Hraise.
  destruct (resolve_move self action) as [self' [reward | e']] eqn:Hres.
  - pose proof (resolve_move_same_map self action) as Hsame.
    pose proof (resolve_move_in_bounds self action Hwf Hb) as Hb'.
    rewrite Hres in Hsame, Hb'. cbn [fst] in Hsame, Hb'.
    destruct (step_after_resolve _ _ _ _ Hres) as [obs Hstep].
    + eapply same_map_wf; eauto.
    + rewrite <- (same_map_in_bounds _ _ _ Hsame). exact Hb'.
    + rewrite Hstep in Hraise. discriminate.
  - unfold step in Hraise. rewrite Hres in Hraise. injection Hraise as ->.
    revert Hres. unfold resolve_move, _get_distance_to_nearest_enemy.
    destruct (candidate action (player_pos self)) as [x y].
    destruct (in_bounds self (x, y)) eqn:Hc; simpl; [| discriminate].
    destruct (wall_lookup_returns self x y Hwf Hc) as [w ->].
    destruct (w =? 1); [discriminate |].
    destruct (distance_to_nearest _ _) as [d |] eqn:Hd; [discriminate |].
    intros [= _ <-]. eapply distance_to_nearest_raises; eauto.
Qed.

Lemma do_call_same_map (self : MapEnv) (c : call) : same_map self (do_call self c).
Proof.
  destruct c as [| action]; simpl.
  - apply reset_same_map.
  - rewrite step_object. apply resolve_move_same_map.
Qed.

Lemma run_same_map (calls : list call) (self : MapEnv) : same_map self (run self calls).
Proof.
  revert self. induction calls as [| c calls IH]; intros self; simpl.
  - apply same_map_refl.
  - eapply same_map_trans; [apply do_call_same_map | apply IH].
Qed.

(** Every environment the constructor returned is well formed, and stays
    so under any calls. *)
Lemma constructed_wf (tiled_map : TiledMap) (start : Z * Z)
    (enemy_gids walkable_gids : gset Z) (self : MapEnv) (calls : list call) :
  __init__ tiled_map start enemy_gids walkable_gids = Ok self ->
  wf_env (run self calls) = true.
Proof.
  intros Hinit. apply __init___establishes in Hinit as (Hwf & _).
  eapply same_map_wf; [apply run_same_map | exact Hwf].
Qed.

(** On an environment that was constructed, [reset] returns an observation
    whatever calls came before: the distance from the start tile was
    computed once by the constructor. *)
Lemma reset_returns (tiled_map : TiledMap) (start : Z * Z)
    (enemy_gids walkable_gids : gset Z) (self : MapEnv) (calls : list call) :
  __init__ tiled_map start enemy_gids walkable_gids = Ok self ->
  exists obs, snd (reset (run self calls)) = Ok obs.
Proof.
  intros Hinit.
  apply __init___establishes in Hinit as (_ & _ & _ & Hstart & Hpos & Hdist).
  destruct (run_same_map calls self) as (_ & _ & Hs & He & _).
  unfold reset, _get_distance_to_nearest_enemy in *.
  cbn [set_player_pos player_pos enemy_locations].
  rewrite <- Hs, <- He, Hstart. rewrite Hpos in Hdist. rewrite Hdist.
  cbn [snd]. apply _get_observation_returns.
Qed.

(** C10. When the start tile given to the constructor is on the map, the
    agent is on the map after any sequence of [reset] and [step] calls;
    both matrices keep the shape of the map, every look-up of a further
    [step] has its row in [[0, map_height)] and its column in
    [[0, map_width)], and that [step] raises no [IndexError]. *)
Theorem position_stays_in_bounds (tiled_map : TiledMap) (start : Z * Z)
    (enemy_gids walkable_gids : gset Z) (self : MapEnv)
    (calls : list call) (action : Z) :
  __init__ tiled_map start enemy_gids walkable_gids = Ok self ->
  0 <= fst start < Z.of_nat (width tiled_map) ->
  0 <= snd start < Z.of_nat (height tiled_map) ->
  let s := run self calls in
  map_width s = Z.of_nat (width tiled_map) /\
  map_height s = Z.of_nat (height tiled_map) /\
  0 <= fst (player_pos s) < map_width s /\
  0 <= snd (player_pos s) < map_height s /\
  wf_env s = true /\
  Forall (fun '(row, col) => 0 <= row < map_height s /\ 0 <= col < map_width s)
    (step_lookups s action) /\
  snd (step s action) <> Raise IndexError.
Proof.
  intros Hinit Hx Hy s.
  apply __init___establishes in Hinit as (Hwf & Hw & Hh & Hstart & Hpos & _).
  assert (on_map self) as Hinv.
  { destruct start as [sx sy]. cbn [fst snd] in Hx, Hy.
    repeat split; [exact Hwf | |]; rewrite ?Hstart, ?Hpos;
      apply in_bounds_spec; lia. }
  destruct (run_on_map calls self Hinv) as [Hinv' Hsame]. fold s in Hinv', Hsame.
  pose proof Hinv' as (Hwf' & _ & Hb').
  destruct Hsame as (Hw' & Hh' & _).
  destruct (player_pos s) as [px py] eqn:Hp.
  pose proof (proj1 (in_bounds_spec s px py) Hb') as [Hpy Hpx].
  cbn [fst snd].
  repeat split; try lia; try exact Hwf'.
  - unfold step_lookups. rewrite Hp.
    destruct (candidate action (px, py)) as [cx cy] eqn:Hc.
    apply Forall_app. split.
    + destruct (in_bounds s (cx, cy)) eqn:Hcb; [| constructor].
      apply in_bounds_spec in Hcb. repeat constructor; lia.
    + pose proof (resolve_move_in_bounds s action Hwf') as Hin.
      rewrite Hp in Hin. specialize (Hin Hb').
      pose proof (resolve_move_same_map s action) as Hsame.
      destruct (resolve_move s action) as [s' [reward | e]]; [| constructor].
      cbn [fst] in Hin, Hsame. destruct (player_pos s') as [qx qy].
      apply in_bounds_spec in Hin. cbn [fst snd]. repeat constructor; lia.
  - intros Hraise. apply step_on_map_raises in Hraise; [discriminate | exact Hinv'].
Qed.

(** On the sample environment: right, up (blocked), reset, down, down. *)
Lemma position_stays_in_bounds_witness :
  let s := run sample_env [CallStep 3; CallStep 0; CallReset; CallStep 1; CallStep 1] in
  player_pos s = (0, 2) /\
  0 <= fst (player_pos s) < 3 /\ 0 <= snd (player_pos s) < 3 /\
  snd (step s 2) <> Raise IndexError.
Proof.
  assert (sample_env_at (0, 0) = Ok sample_env) as Hinit by (vm_compute; reflexivity).
  pose proof (position_stays_in_bounds sample_map (0, 0) {[48]} {[8]} sample_env
                [CallStep 3; CallStep 0; CallReset; CallStep 1; CallStep 1] 2
                Hinit ltac:(simpl; lia) ltac:(simpl; lia))
    as (Hw & Hh & Hx & Hy & _ & _ & Hraise).
  cbv zeta. split; [vm_compute; reflexivity |].
  rewrite Hw in Hx. rewrite Hh in Hy.
  split; [exact Hx |]. split; [exact Hy | exact Hraise].
Defined.

(** ** Generated grids: cells, growth and reachability *)

Lemma grows_refl (g : TileGrid) : grows g g.
Proof. intros p Hp. exact Hp. Qed.

Lemma grows_trans (g1 g2 g3 : TileGrid) : grows g1 g2 -> grows g2 g3 -> grows g1 g3.
Proof. intros H12 H23 p Hp. auto. Qed.

Lemma grid_set_in_range (h w : Z) (grid : TileGrid) (y x : Z) (t : tile) :
  grid_shape h w grid -> 0 <= y < h -> 0 <= x < w ->
  exists grid',
    grid_set grid y x t = Ok grid' /\ grid_shape h w grid' /\
    tile_at grid' (x, y) = Some t /\
    forall p, p <> (x, y) -> tile_at grid' p = tile_at grid p.
Proof.
  intros [Hl Hr] Hy Hx. unfold grid_set.
  destruct (py_getitem_in_range grid y) as (row & Hrow & ->); [lia |]. simpl.
  assert (length row = Z.to_nat w) as Hw.
  { rewrite Forall_forall in Hr. apply Hr. eapply list_elem_of_lookup_2; eauto. }
  rewrite py_setitem_in_range by lia. simpl.
  rewrite py_setitem_in_range by lia.
  eexists. split; [reflexivity |]. split; [| split].
  - split; [rewrite length_insert; exact Hl |].
    apply Forall_insert; [exact Hr |]. rewrite length_insert. exact Hw.
  - unfold tile_at. destruct (0 <=? x) eqn:H0; [| lia]. destruct (0 <=? y) eqn:H1; [| lia].
    cbn [andb]. rewrite list_lookup_insert_eq by lia. cbn [mbind option_bind].
    apply list_lookup_insert_eq. lia.
  - intros [px py] Hne. unfold tile_at.
    destruct ((0 <=? px) && (0 <=? py)) eqn:Hpos; [| reflexivity].
    apply andb_true_iff in Hpos as [Hpx Hpy].
    destruct (decide (Z.to_nat py = Z.to_nat y)) as [Heq | Hney].
    + rewrite Heq, list_lookup_insert_eq by lia. rewrite Hrow. cbn [mbind option_bind].
      apply list_lookup_insert_ne. intros Hxx.
      apply Hne. f_equal; lia.
    + rewrite list_lookup_insert_ne by auto. reflexivity.
Qed.

(** Writing a tile that does not block keeps every non-wall cell and adds
    the written one. *)
Lemma grid_set_grows (h w : Z) (grid : TileGrid) (y x : Z) (t : tile) :
  grid_shape h w grid -> 0 <= y < h -> 0 <= x < w ->
  blocks_movement t = false ->
  exists grid',
    grid_set grid y x t = Ok grid' /\ grid_shape h w grid' /\
    grows grid grid' /\ non_wall grid' (x, y) = true.
Proof.
  intros Hs Hy Hx Ht.
  destruct (grid_set_in_range h w grid y x t Hs Hy Hx) as (grid' & Hset & Hs' & Hat & Hother).
  exists grid'. repeat split; try assumption; try apply Hs'.
  - intros p Hp. unfold non_wall in *.
    destruct (decide (p = (x, y))) as [-> | Hne].
    + rewrite Hat, Ht. reflexivity.
    + rewrite Hother by exact Hne. exact Hp.
  - unfold non_wall. rewrite Hat, Ht. reflexivity.
Qed.

(** A loop whose body always returns, keeps [P], moves the state up a
    preorder [R] and establishes for its element a property that [R]
    preserves: the loop returns, and the property holds of every element
    at the end. *)
Lemma for_each_grows {A S} (P : S -> Prop) (R : S -> S -> Prop) (Q : A -> S -> Prop)
    (body : S -> A -> result S) (xs : list A) :
  (forall s, R s s) ->
  (forall s1 s2 s3, R s1 s2 -> R s2 s3 -> R s1 s3) ->
  (forall x s s', Q x s -> R s s' -> Q x s') ->
  (forall s x, P s -> x ∈ xs ->
     exists s', body s x = Ok s' /\ P s' /\ R s s' /\ Q x s') ->
  forall s, P s ->
  exists r, for_each xs body s = Ok r /\ P r /\ R s r /\ forall x, x ∈ xs -> Q x r.
Proof.
  intros Hrefl Htrans Hmono.
  induction xs as [| x xs IH]; intros Hbody s HP; simpl.
  - exists s. repeat split; auto. intros x Hin. inversion Hin.
  - destruct (Hbody s x HP (list_elem_of_here _ _)) as (s' & -> & HP' & HR & HQ). simpl.
    destruct (IH (fun s0 x0 HP0 Hin => Hbody s0 x0 HP0 (list_elem_of_further _ _ _ Hin)) s' HP')
      as (r & Hrun & HPr & HRr & HQr).
    exists r. repeat split; eauto.
    intros x0 Hin. apply elem_of_cons in Hin as [-> | Hin]; eauto.
Qed.

(** *** Reachability *)

Lemma adjacent_sym (p q : Z * Z) : adjacent p q -> adjacent q p.
Proof. unfold adjacent. lia. Qed.

Lemma reachable_ends (g : TileGrid) (p q : Z * Z) :
  reachable g p q -> non_wall g p = true /\ non_wall g q = true.
Proof. induction 1; intuition. Qed.

Lemma reachable_trans (g : TileGrid) (p q r : Z * Z) :
  reachable g p q -> reachable g q r -> reachable g p r.
Proof.
  intros Hpq Hqr. induction Hqr as [q Hq | q m r Hqm IH Hadj Hr]; [exact Hpq |].
  apply reach_step with m; [apply IH; exact Hpq | exact Hadj | exact Hr].
Qed.

Lemma reachable_sym (g : TileGrid) (p q : Z * Z) :
  reachable g p q -> reachable g q p.
Proof.
  induction 1 as [p Hp | p q r Hpq IH Hadj Hr]; [apply reach_here; exact Hp |].
  apply reachable_trans with q; [| exact IH].
  apply reach_step with r; [apply reach_here; exact Hr | apply adjacent_sym; exact Hadj |].
  apply (reachable_ends _ _ _ Hpq).
Qed.

Lemma reachable_grows (g g' : TileGrid) (p q : Z * Z) :
  grows g g' -> reachable g p q -> reachable g' p q.
Proof.
  intros Hg. induction 1 as [p Hp | p q r Hpq IH Hadj Hr].
  - apply reach_here. auto.
  - eapply reach_step; eauto.
Qed.

(** A row segment of non-wall cells joins its two ends. *)
Lemma reachable_along_row (g : TileGrid) (y : Z) (n : nat) (x : Z) :
  (forall k, x <= k <= x + Z.of_nat n -> non_wall g (k, y) = true) ->
  reachable g (x, y) (x + Z.of_nat n, y).
Proof.
  induction n as [| n IH]; intros Hseg.
  - replace (x + Z.of_nat 0) with x by lia. apply reach_here. apply Hseg. lia.
  - apply reach_step with (x + Z.of_nat n, y).
    + apply IH. intros k Hk. apply Hseg. lia.
    + unfold adjacent. simpl. lia.
    + apply Hseg. lia.
Qed.

Lemma reachable_along_column (g : TileGrid) (x : Z) (n : nat) (y : Z) :
  (forall k, y <= k <= y + Z.of_nat n -> non_wall g (x, k) = true) ->
  reachable g (x, y) (x, y + Z.of_nat n).
Proof.
  induction n as [| n IH]; intros Hseg.
  - replace (y + Z.of_nat 0) with y by lia. apply reach_here. apply Hseg. lia.
  - apply reach_step with (x, y + Z.of_nat n).
    + apply IH. intros k Hk. apply Hseg. lia.
    + unfold adjacent. simpl. lia.
    + apply Hseg. lia.
Qed.

Lemma reachable_row (g : TileGrid) (y x1 x2 : Z) :
  (forall k, Z.min x1 x2 <= k <= Z.max x1 x2 -> non_wall g (k, y) = true) ->
  reachable g (x1, y) (x2, y).
Proof.
  intros Hseg. destruct (Z.le_ge_cases x1 x2) as [Hle | Hge].
  - replace x2 with (x1 + Z.of_nat (Z.to_nat (x2 - x1))) by lia.
    apply reachable_along_row. intros k Hk. apply Hseg. lia.
  - apply reachable_sym.
    replace x1 with (x2 + Z.of_nat (Z.to_nat (x1 - x2))) by lia.
    apply reachable_along_row. intros k Hk. apply Hseg. lia.
Qed.

Lemma reachable_column (g : TileGrid) (x y1 y2 : Z) :
  (forall k, Z.min y1 y2 <= k <= Z.max y1 y2 -> non_wall g (x, k) = true) ->
  reachable g (x, y1) (x, y2).
Proof.
  intros Hseg. destruct (Z.le_ge_cases y1 y2) as [Hle | Hge].
  - replace y2 with (y1 + Z.of_nat (Z.to_nat (y2 - y1))) by lia.
    apply reachable_along_column. intros k Hk. apply Hseg. lia.
  - apply reachable_sym.
    replace y1 with (y2 + Z.of_nat (Z.to_nat (y1 - y2))) by lia.
    apply reachable_along_column. intros k Hk. apply Hseg. lia.
Qed.

(** ** Room placement *)

#[local] Arguments randint : simpl never.
#[local] Arguments choice : simpl never.
#[local] Arguments grid_set : simpl never.
#[local] Arguments carve_room : simpl never.
#[local] Arguments carve_h_corridor : simpl never.
#[local] Arguments carve_v_corridor : simpl never.
#[local] Arguments connect_rooms : simpl never.
#[local] Arguments place_castle : simpl never.
#[local] Arguments add_decorations : simpl never.
#[local] Arguments create_rooms_and_corridors : simpl never.
#[local] Arguments sorted_by_area : simpl never.
#[local] Arguments rects_overlap : simpl never.
#[local] Arguments center : simpl never.

Lemma rects_overlap_sym (a b : rect) (padding : Z) :
  rects_overlap a b padding = rects_overlap b a padding.
Proof.
  destruct a as [[[ax ay] aw] ah], b as [[[bx by'] bw] bh]. unfold rects_overlap.
  destruct (ax + aw - 1 + padding <? bx), (bx + bw - 1 + padding <? ax),
    (ay + ah - 1 + padding <? by'), (by' + bh - 1 + padding <? ay); reflexivity.
Qed.

(** The padded test, read on tiles: the first rectangle extended by the
    padding shares no tile with the second. *)
Lemma rects_apart_disjoint (a b : rect) (padding : Z) (p : Z * Z) :
  rects_overlap a b padding = false ->
  in_rect (padded a padding) p -> ~ in_rect b p.
Proof.
  destruct a as [[[ax ay] aw] ah], b as [[[bx by'] bw] bh], p as [px py].
  unfold rects_overlap, in_rect, padded. cbn [fst snd].
  intros Hov. apply negb_false_iff in Hov. rewrite !orb_true_iff, !Z.ltb_lt in Hov.
  lia.
Qed.

(** The padding is a buffer between two rooms: rooms that one free column
    separates pass the test. *)
Example rooms_one_column_apart :
  rects_overlap (1, 1, 5, 4) (7, 1, 5, 4) 1 = false /\
  rects_overlap (1, 1, 5, 4) (6, 1, 5, 4) 1 = true.
Proof. split; reflexivity. Qed.

Section GeneratorFacts.
Context `{RandomSource}.

Lemma place_rooms_apart (cfg : config) (budget : nat) (floor_tile : tile)
    (grid : TileGrid) (rooms : list rect) (g : rng)
    (grid' : TileGrid) (rooms' : list rect) (g' : rng) :
  pairwise_apart rooms ->
  place_rooms cfg budget floor_tile grid rooms g = Ok (grid', rooms', g') ->
  pairwise_apart rooms'.
Proof.
  revert grid rooms g. induction budget as [| budget IH]; intros grid rooms g Hap; simpl.
  - intros [= <- <- <-]. exact Hap.
  - destruct (Z.of_nat (length rooms) <? N_ROOMS cfg); [| intros [= <- <- <-]; exact Hap].
    destruct (randint (ROOM_MIN_W cfg) (ROOM_MAX_W cfg) g) as [[w g1] |]; [| discriminate].
    simpl. destruct (randint (ROOM_MIN_H cfg) (ROOM_MAX_H cfg) g1) as [[h g2] |]; [| discriminate].
    simpl. destruct (randint 1 (MAP_W cfg - w - 2) g2) as [[x g3] |]; [| discriminate].
    simpl. destruct (randint 1 (MAP_H cfg - h - 2) g3) as [[y g4] |]; [| discriminate].
    simpl. destruct (existsb _ rooms) eqn:Hany.
    + apply IH. exact Hap.
    + destruct (carve_room grid (x, y, w, h) floor_tile) as [grid1 |]; [| discriminate].
      simpl. apply IH.
      assert (forall r, r ∈ rooms -> rects_overlap (x, y, w, h) r 1 = false) as Hnew.
      { intros r Hr. destruct (rects_overlap (x, y, w, h) r 1) eqn:Hov; [| reflexivity].
        assert (existsb (fun r => rects_overlap (x, y, w, h) r 1) rooms = true) as Hex.
        { apply existsb_exists. exists r. split; [apply list_elem_of_In; exact Hr | exact Hov]. }
        congruence. }
      intros i j a b Hij Ha Hb.
      apply lookup_app_Some in Ha as [Ha | [Hi Ha]];
        apply lookup_app_Some in Hb as [Hb | [Hj Hb]].
      * eapply Hap; eauto.
      * apply list_lookup_singleton_Some in Hb as [_ <-].
        rewrite rects_overlap_sym. apply Hnew. eapply list_elem_of_lookup_2; eauto.
      * apply list_lookup_singleton_Some in Ha as [_ <-].
        apply Hnew. eapply list_elem_of_lookup_2; eauto.
      * apply list_lookup_singleton_Some in Ha as [Hi0 _].
        apply list_lookup_singleton_Some in Hb as [Hj0 _]. lia.
Qed.

(** C6, as the code has it.  Whatever the generator state (hence whatever
    the seed) and the requested room count, any two rooms that generation
    accepted pass the padded overlap test, in either order: either of them,
    extended by the one-tile padding on every side, shares no tile with
    the other room itself.  The padding is on one room of the pair; the two
    extended rooms may share tiles. *)
Theorem rooms_do_not_overlap (cfg : config) (grid : TileGrid)
    (floor_tile path_tile : tile) (g : rng)
    (grid' : TileGrid) (rooms : list rect) (g' : rng) :
  create_rooms_and_corridors cfg grid floor_tile path_tile g = Ok (grid', rooms, g') ->
  forall (i j : nat) (a b : rect),
    i <> j -> rooms !! i = Some a -> rooms !! j = Some b ->
    rects_overlap a b 1 = false /\
    forall p, in_rect (padded a 1) p -> ~ in_rect b p.
Proof.
  unfold create_rooms_and_corridors.
  destruct (place_rooms cfg _ floor_tile grid [] g) as [[[grid1 rooms1] g1] |] eqn:Hplace;
    [| discriminate].
  simpl. destruct (connect_rooms rooms1 path_tile grid1 g1) as [[grid2 g2] |]; [| discriminate].
  simpl. intros [= <- <- <-] i j a b Hij Ha Hb.
  assert (rects_overlap a b 1 = false) as Hov.
  { eapply place_rooms_apart; [| exact Hplace | exact Hij | exact Ha | exact Hb].
    intros i0 j0 a0 b0 _ Ha0. rewrite lookup_nil in Ha0. discriminate. }
  split; [exact Hov |].
  intros p. apply rects_apart_disjoint. exact Hov.
Qed.

End GeneratorFacts.

(** ** Generation completes and keeps the rooms connected *)

Lemma center_in_room (cfg : config) (r : rect) :
  room_ok cfg r -> in_rect r (center r).
Proof.
  destruct r as [[[x y] w] h]. unfold room_ok, in_rect, center. cbn [fst snd].
  intros (Hx & Hw & Hxw & Hy & Hh & Hyh).
  pose proof (Z.div_pos w 2). pose proof (Z.div_lt w 2).
  pose proof (Z.div_pos h 2). pose proof (Z.div_lt h 2). lia.
Qed.

Lemma center_on_map (cfg : config) (r : rect) :
  room_ok cfg r ->
  0 <= fst (center r) < MAP_W cfg /\ 0 <= snd (center r) < MAP_H cfg.
Proof.
  intros Hr. pose proof (center_in_room cfg r Hr) as Hin.
  destruct r as [[[x y] w] h]. unfold room_ok in Hr. unfold in_rect in Hin. lia.
Qed.

Section Connectivity.
Context `{RandomSource}.
Hypothesis randbelow_ok : randbelow_in_range.

Lemma randint_returns (a b : Z) (g : rng) :
  a <= b -> exists v g', randint a b g = Ok (v, g') /\ a <= v <= b.
Proof.
  intros Hab. unfold randint. destruct (0 <? b + 1 - a) eqn:Hw; [| lia].
  pose proof (randbelow_ok g (b + 1 - a) ltac:(lia)) as Hk.
  destruct (randbelow g (b + 1 - a)) as [k g']. cbn [fst] in Hk.
  exists (a + k), g'. split; [reflexivity | lia].
Qed.

Lemma choice_bool_returns (g : rng) :
  exists v g', choice [true; false] g = Ok (v, g').
Proof.
  unfold choice. cbn [length].
  pose proof (randbelow_ok g (Z.of_nat 2) ltac:(lia)) as Hk.
  destruct (randbelow g (Z.of_nat 2)) as [k g']. cbn [fst] in Hk.
  destruct (py_getitem_in_range [true; false] k) as (v & _ & ->); [simpl; lia |].
  simpl. eauto.
Qed.

Lemma carve_h_corridor_ok (h w : Z) (grid : TileGrid) (x1 x2 y : Z) (t : tile) :
  grid_shape h w grid -> 0 <= x1 < w -> 0 <= x2 < w -> 0 <= y < h ->
  blocks_movement t = false ->
  exists grid',
    carve_h_corridor grid x1 x2 y t = Ok grid' /\ grid_shape h w grid' /\
    grows grid grid' /\ reachable grid' (x1, y) (x2, y).
Proof.
  intros Hs Hx1 Hx2 Hy Ht. unfold carve_h_corridor.
  destruct (for_each_grows (grid_shape h w) grows (fun x g => non_wall g (x, y) = true)
              (fun grid x => grid_set grid y x t)
              (py_range (Z.min x1 x2) (Z.max x1 x2 + 1))
              grows_refl grows_trans (fun x s s' Hq Hg => Hg _ Hq))
    with (s := grid) as (grid' & Hrun & Hs' & Hg & Hcells).
  - intros s x Hshape Hx. apply elem_of_py_range in Hx.
    apply grid_set_grows; auto; lia.
  - exact Hs.
  - exists grid'. repeat split; try assumption; try apply Hs'.
    apply reachable_row. intros k Hk. apply Hcells. apply elem_of_py_range. lia.
Qed.

Lemma carve_v_corridor_ok (h w : Z) (grid : TileGrid) (y1 y2 x : Z) (t : tile) :
  grid_shape h w grid -> 0 <= y1 < h -> 0 <= y2 < h -> 0 <= x < w ->
  blocks_movement t = false ->
  exists grid',
    carve_v_corridor grid y1 y2 x t = Ok grid' /\ grid_shape h w grid' /\
    grows grid grid' /\ reachable grid' (x, y1) (x, y2).
Proof.
  intros Hs Hy1 Hy2 Hx Ht. unfold carve_v_corridor.
  destruct (for_each_grows (grid_shape h w) grows (fun y g => non_wall g (x, y) = true)
              (fun grid y => grid_set grid y x t)
              (py_range (Z.min y1 y2) (Z.max y1 y2 + 1))
              grows_refl grows_trans (fun y s s' Hq Hg => Hg _ Hq))
    with (s := grid) as (grid' & Hrun & Hs' & Hg & Hcells).
  - intros s y Hshape Hy. apply elem_of_py_range in Hy.
    apply grid_set_grows; auto; lia.
  - exact Hs.
  - exists grid'. repeat split; try assumption; try apply Hs'.
    apply reachable_column. intros k Hk. apply Hcells. apply elem_of_py_range. lia.
Qed.

Lemma carve_room_ok (cfg : config) (grid : TileGrid) (r : rect) (t : tile) :
  grid_shape (MAP_H cfg) (MAP_W cfg) grid -> room_ok cfg r ->
  blocks_movement t = false ->
  exists grid',
    carve_room grid r t = Ok grid' /\ grid_shape (MAP_H cfg) (MAP_W cfg) grid' /\
    grows grid grid' /\ forall p, in_rect r p -> non_wall grid' p = true.
Proof.
  intros Hs Hr Ht. destruct r as [[[x y] w] h]. unfold carve_room.
  destruct Hr as (Hx & Hw & Hxw & Hy & Hh & Hyh).
  destruct (for_each_grows (grid_shape (MAP_H cfg) (MAP_W cfg)) grows
              (fun ry g => forall rx, x <= rx < x + w -> non_wall g (rx, ry) = true)
              (fun grid ry =>
                 for_each (py_range x (x + w))
                   (fun grid rx => grid_set grid ry rx t) grid)
              (py_range y (y + h))
              grows_refl grows_trans (fun ry s s' Hq Hg rx Hrx => Hg _ (Hq rx Hrx)))
    with (s := grid) as (grid' & Hrun & Hs' & Hg & Hcells).
  - intros s ry Hshape Hry. apply elem_of_py_range in Hry.
    destruct (for_each_grows (grid_shape (MAP_H cfg) (MAP_W cfg)) grows
                (fun rx g => non_wall g (rx, ry) = true)
                (fun grid rx => grid_set grid ry rx t)
                (py_range x (x + w))
                grows_refl grows_trans (fun rx s s' Hq Hg => Hg _ Hq))
      with (s := s) as (s' & Hrun' & Hs'' & Hg' & Hcells').
    + intros s0 rx Hshape0 Hrx. apply elem_of_py_range in Hrx.
      apply grid_set_grows; auto; lia.
    + exact Hshape.
    + exists s'. repeat split; try assumption; try apply Hs''.
      intros rx Hrx. apply Hcells'. apply elem_of_py_range. lia.
  - exact Hs.
  - exists grid'. repeat split; try assumption; try apply Hs'.
    intros [px py] [Hpx Hpy]. cbn [fst snd] in Hpx, Hpy.
    apply (Hcells py); [apply elem_of_py_range; lia | lia].
Qed.

Lemma place_rooms_ok (cfg : config) (budget : nat) (floor_tile : tile)
    (grid : TileGrid) (rooms : list rect) (g : rng) :
  config_ok cfg -> blocks_movement floor_tile = false ->
  rooms_inv cfg grid rooms ->
  exists grid' rooms' g',
    place_rooms cfg budget floor_tile grid rooms g = Ok (grid', rooms', g') /\
    rooms_inv cfg grid' rooms'.
Proof.
  intros (HW & HH & HmW & HmH) Ht.
  revert grid rooms g. induction budget as [| budget IH]; intros grid rooms g Hinv; simpl.
  - eauto.
  - destruct (Z.of_nat (length rooms) <? N_ROOMS cfg); [| eauto].
    destruct (randint_returns (ROOM_MIN_W cfg) (ROOM_MAX_W cfg) g) as (w & g1 & -> & Hw);
      [lia |]. simpl.
    destruct (randint_returns (ROOM_MIN_H cfg) (ROOM_MAX_H cfg) g1) as (h & g2 & -> & Hh);
      [lia |]. simpl.
    destruct (randint_returns 1 (MAP_W cfg - w - 2) g2) as (x & g3 & -> & Hx); [lia |]. simpl.
    destruct (randint_returns 1 (MAP_H cfg - h - 2) g3) as (y & g4 & -> & Hy); [lia |]. simpl.
    destruct (existsb _ rooms); [apply IH; exact Hinv |].
    destruct Hinv as (Hs & Hrooms & Hcenters).
    assert (room_ok cfg (x, y, w, h)) as Hroom by (unfold room_ok; lia).
    destruct (carve_room_ok cfg grid (x, y, w, h) floor_tile Hs Hroom Ht)
      as (grid1 & -> & Hs1 & Hg1 & Hcells).
    simpl. apply IH. repeat split; try apply Hs1.
    + apply Forall_app. split; [exact Hrooms | constructor; [exact Hroom | constructor]].
    + intros r Hr. apply elem_of_app in Hr as [Hr | Hr].
      * apply Hg1. auto.
      * apply list_elem_of_singleton in Hr as ->. apply Hcells.
        eapply center_in_room; eauto.
Qed.

Lemma connect_pair_ok (cfg : config) (rooms : list rect) (path_tile : tile)
    (grid : TileGrid) (g : rng) (i : Z) :
  Forall (room_ok cfg) rooms -> blocks_movement path_tile = false ->
  grid_shape (MAP_H cfg) (MAP_W cfg) grid ->
  1 <= i < Z.of_nat (length rooms) ->
  exists grid' g',
    connect_pair rooms path_tile (grid, g) i = Ok (grid', g') /\
    grid_shape (MAP_H cfg) (MAP_W cfg) grid' /\ grows grid grid' /\
    forall r1 r2,
      rooms !! Z.to_nat (i - 1) = Some r1 -> rooms !! Z.to_nat i = Some r2 ->
      reachable grid' (center r1) (center r2).
Proof.
  intros Hrooms Ht Hs Hi. unfold connect_pair.
  destruct (py_getitem_in_range rooms (i - 1)) as (r1 & Hr1 & ->); [lia |].
  destruct (py_getitem_in_range rooms i) as (r2 & Hr2 & ->); [lia |].
  simpl.
  rewrite Forall_forall in Hrooms.
  pose proof (center_on_map cfg r1 (Hrooms r1 (list_elem_of_lookup_2 _ _ _ Hr1))) as [Hc1x Hc1y].
  pose proof (center_on_map cfg r2 (Hrooms r2 (list_elem_of_lookup_2 _ _ _ Hr2))) as [Hc2x Hc2y].
  destruct (center r1) as [c1x c1y] eqn:Hc1, (center r2) as [c2x c2y] eqn:Hc2.
  cbn [fst snd] in *.
  destruct (choice_bool_returns g) as ([|] & g' & ->); simpl.
  - destruct (carve_h_corridor_ok _ _ grid c1x c2x c1y path_tile Hs)
      as (grid1 & -> & Hs1 & Hg1 & Hreach1); auto.
    simpl.
    destruct (carve_v_corridor_ok _ _ grid1 c1y c2y c2x path_tile Hs1)
      as (grid2 & -> & Hs2 & Hg2 & Hreach2); auto.
    simpl. exists grid2, g'. repeat split; try apply Hs2.
    + eapply grows_trans; eauto.
    + intros r1' r2' Hr1' Hr2'.
      rewrite Hr1 in Hr1'. rewrite Hr2 in Hr2'.
      injection Hr1' as <-. injection Hr2' as <-. rewrite Hc1, Hc2.
      apply reachable_trans with (c2x, c1y); [| exact Hreach2].
      eapply reachable_grows; eauto.
  - destruct (carve_v_corridor_ok _ _ grid c1y c2y c1x path_tile Hs)
      as (grid1 & -> & Hs1 & Hg1 & Hreach1); auto.
    simpl.
    destruct (carve_h_corridor_ok _ _ grid1 c1x c2x c2y path_tile Hs1)
      as (grid2 & -> & Hs2 & Hg2 & Hreach2); auto.
    simpl. exists grid2, g'. repeat split; try apply Hs2.
    + eapply grows_trans; eauto.
    + intros r1' r2' Hr1' Hr2'.
      rewrite Hr1 in Hr1'. rewrite Hr2 in Hr2'.
      injection Hr1' as <-. injection Hr2' as <-. rewrite Hc1, Hc2.
      apply reachable_trans with (c1x, c2y); [| exact Hreach2].
      eapply reachable_grows; eauto.
Qed.

Lemma connect_rooms_ok (cfg : config) (rooms : list rect) (path_tile : tile)
    (grid : TileGrid) (g : rng) :
  Forall (room_ok cfg) rooms -> blocks_movement path_tile = false ->
  grid_shape (MAP_H cfg) (MAP_W cfg) grid ->
  exists grid' g',
    connect_rooms rooms path_tile grid g = Ok (grid', g') /\
    grid_shape (MAP_H cfg) (MAP_W cfg) grid' /\ grows grid grid' /\
    forall (n : nat) r1 r2,
      rooms !! n = Some r1 -> rooms !! S n = Some r2 ->
      reachable grid' (center r1) (center r2).
Proof.
  intros Hrooms Ht Hs. unfold connect_rooms.
  destruct (for_each_grows
              (fun acc : TileGrid * rng => grid_shape (MAP_H cfg) (MAP_W cfg) (fst acc))
              (fun acc acc' : TileGrid * rng => grows (fst acc) (fst acc'))
              (fun i (acc : TileGrid * rng) =>
                 forall r1 r2,
                   rooms !! Z.to_nat (i - 1) = Some r1 -> rooms !! Z.to_nat i = Some r2 ->
                   reachable (fst acc) (center r1) (center r2))
              (connect_pair rooms path_tile)
              (py_range 1 (Z.of_nat (length rooms)))
              (fun acc => grows_refl (fst acc))
              (fun a b c => grows_trans (fst a) (fst b) (fst c))
              (fun i a b Hq Hg r1 r2 H1 H2 => reachable_grows _ _ _ _ Hg (Hq r1 r2 H1 H2)))
    with (s := (grid, g)) as ([grid' g'] & Hrun & Hs' & Hg & Hpairs).
  - intros [grid0 g0] i Hshape Hi. apply elem_of_py_range in Hi.
    destruct (connect_pair_ok cfg rooms path_tile grid0 g0 i Hrooms Ht Hshape Hi)
      as (grid1 & g1 & Hrun & Hs1 & Hg1 & Hreach).
    exists (grid1, g1). auto.
  - exact Hs.
  - exists grid', g'. repeat split; try assumption; try apply Hs'.
    intros n r1 r2 Hr1 Hr2.
    apply (Hpairs (Z.of_nat (S n))).
    + apply elem_of_py_range. apply lookup_lt_Some in Hr2. lia.
    + replace (Z.to_nat (Z.of_nat (S n) - 1)) with n by lia. exact Hr1.
    + rewrite Nat2Z.id. exact Hr2.
Qed.

(** Rooms joined one to the next are joined all to all. *)
Lemma chain_reachable (grid : TileGrid) (rooms : list rect) :
  (forall r, r ∈ rooms -> non_wall grid (center r) = true) ->
  (forall (n : nat) r1 r2,
     rooms !! n = Some r1 -> rooms !! S n = Some r2 ->
     reachable grid (center r1) (center r2)) ->
  forall a b, a ∈ rooms -> b ∈ rooms -> reachable grid (center a) (center b).
Proof.
  intros Hcenters Hnext.
  assert (forall (n : nat) r0 r, rooms !! 0%nat = Some r0 -> rooms !! n = Some r ->
            reachable grid (center r0) (center r)) as Hfirst.
  { induction n as [| n IH]; intros r0 r Hr0 Hr.
    - rewrite Hr0 in Hr. injection Hr as <-. apply reach_here. apply Hcenters.
      eapply list_elem_of_lookup_2; eauto.
    - destruct (lookup_lt_is_Some_2 rooms n) as [r' Hr'];
        [apply lookup_lt_Some in Hr; lia |].
      apply reachable_trans with (center r'); eauto. }
  intros a b Ha Hb.
  apply list_elem_of_lookup_1 in Ha as [i Hi]. apply list_elem_of_lookup_1 in Hb as [j Hj].
  destruct (lookup_lt_is_Some_2 rooms 0) as [r0 Hr0];
    [apply lookup_lt_Some in Hi; lia |].
  apply reachable_trans with (center r0); [apply reachable_sym |]; eauto.
Qed.

Lemma place_castle_ok (cfg : config) (grid : TileGrid) (origin : Z * Z) (t : tile) :
  grid_shape (MAP_H cfg) (MAP_W cfg) grid -> blocks_movement t = false ->
  exists grid',
    place_castle cfg grid origin t = Ok grid' /\
    grid_shape (MAP_H cfg) (MAP_W cfg) grid' /\ grows grid grid'.
Proof.
  intros Hs Ht. destruct origin as [ox oy]. unfold place_castle.
  destruct (for_each_grows (grid_shape (MAP_H cfg) (MAP_W cfg)) grows
              (fun (_ : Z) (_ : TileGrid) => True)
              (fun grid j =>
                 for_each (py_range 0 4)
                   (fun grid i =>
                      if (0 <=? ox + i) && (ox + i <? MAP_W cfg) &&
                         (0 <=? oy + j) && (oy + j <? MAP_H cfg)
                      then grid_set grid (oy + j) (ox + i) t
                      else Ok grid)
                   grid)
              (py_range 0 4)
              grows_refl grows_trans (fun _ _ _ _ _ => I))
    with (s := grid) as (grid' & Hrun & Hs' & Hg & _).
  - intros s j Hshape _.
    destruct (for_each_grows (grid_shape (MAP_H cfg) (MAP_W cfg)) grows
                (fun (_ : Z) (_ : TileGrid) => True)
                (fun grid i =>
                   if (0 <=? ox + i) && (ox + i <? MAP_W cfg) &&
                      (0 <=? oy + j) && (oy + j <? MAP_H cfg)
                   then grid_set grid (oy + j) (ox + i) t
                   else Ok grid)
                (py_range 0 4)
                grows_refl grows_trans (fun _ _ _ _ _ => I))
      with (s := s) as (s' & Hrun' & Hs'' & Hg' & _).
    + intros s0 i Hshape0 _.
      destruct ((0 <=? ox + i) && (ox + i <? MAP_W cfg) &&
                (0 <=? oy + j) && (oy + j <? MAP_H cfg)) eqn:Hin.
      * rewrite !andb_true_iff in Hin.
        destruct (grid_set_grows _ _ s0 (oy + j) (ox + i) t Hshape0)
          as (s1 & Hset & Hs1 & Hg1 & _); auto; try lia.
        exists s1. auto.
      * exists s0. auto using grows_refl.
    + exact Hshape.
    + exists s'. auto.
  - exact Hs.
  - exists grid'. auto.
Qed.

Lemma add_decorations_ok (cfg : config) (grid : TileGrid) (tree_tile : option tile)
    (density : Q) (g : rng) :
  grid_shape (MAP_H cfg) (MAP_W cfg) grid ->
  (forall t, tree_tile = Some t -> blocks_movement t = false) ->
  exists grid' g',
    add_decorations cfg grid tree_tile density g = Ok (grid', g') /\
    grid_shape (MAP_H cfg) (MAP_W cfg) grid' /\ grows grid grid'.
Proof.
  intros Hs Ht. unfold add_decorations.
  set (P := fun acc : TileGrid * rng => grid_shape (MAP_H cfg) (MAP_W cfg) (fst acc)).
  set (R := fun acc acc' : TileGrid * rng => grows (fst acc) (fst acc')).
  assert (forall s : TileGrid * rng, R s s) as Hrefl by (intros s; apply grows_refl).
  assert (forall a b c : TileGrid * rng, R a b -> R b c -> R a c) as Htrans
    by (intros a b c; apply grows_trans).
  destruct (for_each_grows P R (fun (_ : Z) (_ : TileGrid * rng) => True)
              (fun acc y =>
                 for_each (py_range 0 (MAP_W cfg))
                   (fun '(grid, g) x =>
                      let '(r, g) := random g in
                      match Qlt_le_dec r density, tree_tile with
                      | left _, Some t => grid ← grid_set grid y x t; Ok (grid, g)
                      | _, _ => Ok (grid, g)
                      end)
                   acc)
              (py_range 0 (MAP_H cfg))
              Hrefl Htrans (fun _ _ _ _ _ => I))
    with (s := (grid, g)) as ([grid' g'] & Hrun & Hs' & Hg & _).
  - intros s y Hshape Hy. apply elem_of_py_range in Hy.
    destruct (for_each_grows P R (fun (_ : Z) (_ : TileGrid * rng) => True)
                (fun '(grid, g) x =>
                   let '(r, g) := random g in
                   match Qlt_le_dec r density, tree_tile with
                   | left _, Some t => grid ← grid_set grid y x t; Ok (grid, g)
                   | _, _ => Ok (grid, g)
                   end)
                (py_range 0 (MAP_W cfg))
                Hrefl Htrans (fun _ _ _ _ _ => I))
      with (s := s) as (s' & Hrun' & Hs'' & Hg' & _).
    + intros [grid0 g0] x Hshape0 Hx. apply elem_of_py_range in Hx.
      destruct (random g0) as [r g1].
      destruct (Qlt_le_dec r density), tree_tile as [t |];
        try (exists (grid0, g1); split; [reflexivity | split; [exact Hshape0 | split; [apply grows_refl | exact I]]]).
      destruct (grid_set_grows _ _ grid0 y x t Hshape0) as (grid1 & -> & Hs1 & Hg1 & _);
        auto; try lia.
      exists (grid1, g1). simpl. repeat split; try apply Hs1. exact Hg1.
    + exact Hshape.
    + exists s'. auto.
  - exact Hs.
  - exists grid', g'. auto.
Qed.

Lemma insert_by_area_length (r : rect) (sorted : list rect) :
  length (insert_by_area r sorted) = S (length sorted).
Proof.
  induction sorted as [| r' rest IH]; simpl; [reflexivity |].
  destruct (area r' <=? area r); simpl; congruence.
Qed.

Lemma sorted_by_area_length (rooms : list rect) :
  length (sorted_by_area rooms) = length rooms.
Proof.
  unfold sorted_by_area. induction rooms as [| r rooms IH]; simpl; [reflexivity |].
  rewrite insert_by_area_length. congruence.
Qed.

Lemma create_rooms_and_corridors_ok (cfg : config) (grid : TileGrid)
    (floor_tile path_tile : tile) (g : rng) :
  config_ok cfg ->
  blocks_movement floor_tile = false -> blocks_movement path_tile = false ->
  grid_shape (MAP_H cfg) (MAP_W cfg) grid ->
  exists grid' rooms g',
    create_rooms_and_corridors cfg grid floor_tile path_tile g = Ok (grid', rooms, g') /\
    grid_shape (MAP_H cfg) (MAP_W cfg) grid' /\
    forall a b, a ∈ rooms -> b ∈ rooms -> reachable grid' (center a) (center b).
Proof.
  intros Hcfg Hfloor Hpath Hs. unfold create_rooms_and_corridors.
  destruct (place_rooms_ok cfg (Z.to_nat (N_ROOMS cfg * 12)) floor_tile grid [] g Hcfg Hfloor)
    as (grid1 & rooms & g1 & -> & Hs1 & Hrooms & Hcenters).
  { repeat split; try apply Hs; [constructor |]. intros r Hr. inversion Hr. }
  simpl.
  destruct (connect_rooms_ok cfg rooms path_tile grid1 g1 Hrooms Hpath Hs1)
    as (grid2 & g2 & -> & Hs2 & Hg2 & Hnext).
  simpl. exists grid2, rooms, g2. split; [reflexivity |]. split; [exact Hs2 |].
  apply chain_reachable; [| exact Hnext].
  intros r Hr. apply Hg2. auto.
Qed.

(** C7. With a generator that keeps the promise of [_randbelow] and a
    configuration in which the rooms fit the map, [main] completes, and in
    the grid it has built (rooms, corridors, castles, decorations) the
    centre of every accepted room can be reached from the centre of every
    other one through non-wall tiles. *)
Theorem rooms_stay_connected (cfg : config) (SEED : option Z) (g : rng) :
  config_ok cfg ->
  exists out,
    main cfg SEED g = Ok out /\
    forall a b, a ∈ gen_rooms out -> b ∈ gen_rooms out ->
      reachable (gen_grid out) (center a) (center b).
Proof.
  intros Hcfg. unfold main.
  set (g0 := match SEED with Some n => seed n | None => g end).
  assert (grid_shape (MAP_H cfg) (MAP_W cfg)
            (replicate (Z.to_nat (MAP_H cfg)) (replicate (Z.to_nat (MAP_W cfg)) Background)))
    as Hblank.
  { split; [apply length_replicate |]. apply Forall_replicate. apply length_replicate. }
  destruct (create_rooms_and_corridors_ok cfg _ Floor Path g0 Hcfg eq_refl eq_refl Hblank)
    as (grid1 & rooms & g1 & -> & Hs1 & Hreach).
  simpl.
  assert (exists grid2,
            (if 2 <=? Z.of_nat (length rooms)
             then
               r1 ← py_getitem (sorted_by_area rooms) 0;
               r2 ← py_getitem (sorted_by_area rooms) 1;
               grid ← place_castle cfg grid1
                        (fst (center r1) - 1, snd (center r1) - 1) Castle;
               place_castle cfg grid
                 (fst (center r2) - 1, snd (center r2) - 1) Castle
             else Ok grid1) = Ok grid2 /\
            grid_shape (MAP_H cfg) (MAP_W cfg) grid2 /\ grows grid1 grid2)
    as (grid2 & -> & Hs2 & Hg2).
  { destruct (2 <=? Z.of_nat (length rooms)) eqn:Hlen.
    - apply Z.leb_le in Hlen.
      destruct (py_getitem_in_range (sorted_by_area rooms) 0) as (r1 & _ & ->);
        [rewrite sorted_by_area_length; lia |].
      destruct (py_getitem_in_range (sorted_by_area rooms) 1) as (r2 & _ & ->);
        [rewrite sorted_by_area_length; lia |].
      simpl.
      destruct (place_castle_ok cfg grid1 (fst (center r1) - 1, snd (center r1) - 1)
                  Castle Hs1 eq_refl) as (grid1' & -> & Hs1' & Hg1').
      simpl.
      destruct (place_castle_ok cfg grid1' (fst (center r2) - 1, snd (center r2) - 1)
                  Castle Hs1' eq_refl) as (grid2 & -> & Hs2 & Hg2).
      exists grid2. repeat split; try apply Hs2. eapply grows_trans; eauto.
    - exists grid1. repeat split; try apply Hs1. apply grows_refl. }
  simpl.
  destruct (add_decorations_ok cfg grid2 (Some Tree) (2 # 100) g1 Hs2)
    as (grid3 & g3 & -> & Hs3 & Hg3).
  { intros t [= <-]. reflexivity. }
  simpl. eexists. split; [reflexivity |].
  cbn [gen_rooms gen_grid]. intros a b Ha Hb.
  apply (reachable_grows grid2); [exact Hg3 |].
  apply (reachable_grows grid1); [exact Hg2 |].
  apply Hreach; assumption.
Qed.

End Connectivity.

(** ** Determinism *)

(** C8. When [main] seeds the generator, what it builds does not depend on
    the state the generator was in: two runs with the same seed and the
    same configuration give the same grid, the same rooms and the same
    spawn points (and the same error, if generation fails). *)
Theorem generation_deterministic `{RandomSource} (cfg : config) (n : Z) (g1 g2 : rng) :
  main cfg (Some n) g1 = main cfg (Some n) g2 /\
  forall out1 out2,
    main cfg (Some n) g1 = Ok out1 -> main cfg (Some n) g2 = Ok out2 ->
    gen_grid out1 = gen_grid out2 /\
    gen_rooms out1 = gen_rooms out2 /\
    gen_spawns out1 = gen_spawns out2.
Proof.
  assert (main cfg (Some n) g1 = main cfg (Some n) g2) as Heq by reflexivity.
  split; [exact Heq |].
  intros out1 out2 H1 H2. rewrite Heq, H2 in H1. injection H1 as <-. auto.
Qed.

(** ** Running the generator *)

Lemma lcg_in_range : @randbelow_in_range lcg.
Proof. intros g n Hn. simpl. apply Z.mod_pos_bound. exact Hn. Qed.

Lemma file_config_ok : config_ok file_config.
Proof. unfold config_ok. simpl. lia. Qed.

(** The generator of the file's configuration, run on the stand-in
    generator in state 42. *)
Lemma rooms_do_not_overlap_witness :
  match @create_rooms_and_corridors lcg file_config blank_grid Floor Path 42 with
  | Ok (_, rooms, _) =>
      (2 <= length rooms)%nat /\
      forall (i j : nat) (a b : rect),
        i <> j -> rooms !! i = Some a -> rooms !! j = Some b ->
        rects_overlap a b 1 = false
  | Raise _ => False
  end.
Proof.
  destruct (@create_rooms_and_corridors lcg file_config blank_grid Floor Path 42)
    as [[[grid' rooms] g'] | e] eqn:Hrun.
  - pose proof (@rooms_do_not_overlap lcg file_config blank_grid Floor Path 42
                  grid' rooms g' Hrun) as Hapart.
    split.
    + vm_compute in Hrun. injection Hrun as _ <- _. simpl. lia.
    + intros i j a b Hij Ha Hb. apply (Hapart i j a b Hij Ha Hb).
  - vm_compute in Hrun. discriminate Hrun.
Defined.

(** C6 as stated fails: the padding is applied to one of the two rooms,
    not to each.  In the same run the rooms of index 4 and 9 pass the test
    in both orders, and each of them, extended by one tile on every side,
    contains the tile [(11, 13)] of the one free column between them. *)
Lemma padded_rooms_share_a_tile :
  exists grid' rooms g',
    @create_rooms_and_corridors lcg file_config blank_grid Floor Path 42
      = Ok (grid', rooms, g') /\
    rooms !! 4%nat = Some (6, 12, 5, 4) /\
    rooms !! 9%nat = Some (12, 13, 6, 5) /\
    rects_overlap (6, 12, 5, 4) (12, 13, 6, 5) 1 = false /\
    rects_overlap (12, 13, 6, 5) (6, 12, 5, 4) 1 = false /\
    in_rect (padded (6, 12, 5, 4) 1) (11, 13) /\
    in_rect (padded (12, 13, 6, 5) 1) (11, 13) /\
    ~ in_rect (6, 12, 5, 4) (11, 13) /\ ~ in_rect (12, 13, 6, 5) (11, 13).
Proof.
  destruct (@create_rooms_and_corridors lcg file_config blank_grid Floor Path 42)
    as [[[grid' rooms] g'] | e] eqn:Hrun; [| vm_compute in Hrun; discriminate Hrun].
  exists grid', rooms, g'. split; [reflexivity |].
  vm_compute in Hrun. injection Hrun as _ <- _.
  split; [reflexivity |]. split; [reflexivity |].
  split; [reflexivity |]. split; [reflexivity |].
  unfold in_rect, padded. cbn [fst snd]. lia.
Qed.

(** [main] with the file's configuration and seed, on the stand-in
    generator. *)
Lemma rooms_stay_connected_witness :
  exists out,
    @main lcg file_config SEED 0 = Ok out /\
    (2 <= length (gen_rooms out))%nat /\
    forall a b, a ∈ gen_rooms out -> b ∈ gen_rooms out ->
      reachable (gen_grid out) (center a) (center b).
Proof.
  destruct (@rooms_stay_connected lcg lcg_in_range file_config SEED 0 file_config_ok)
    as (out & Hmain & Hreach).
  exists out. split; [exact Hmain |]. split; [| exact Hreach].
  vm_compute in Hmain. injection Hmain as <-. simpl. lia.
Defined.

(** Two runs seeded with 42, started in the generator states 0 and 2024. *)
Lemma generation_deterministic_witness :
  exists out,
    @main lcg file_config (Some 42) 0 = Ok out /\ @main lcg file_config (Some 42) 2024 = Ok out.
Proof.
  destruct (@generation_deterministic lcg file_config 42 0 2024) as [Heq _].
  destruct (@main lcg file_config (Some 42) 0) as [out | e] eqn:Hmain.
  - exists out. split; [reflexivity | symmetry; exact Heq].
  - vm_compute in Hmain. discriminate Hmain.
Defined.

(** Without a seed ([SEED = None]) the rooms depend on the state the
    generator happens to be in. *)
Lemma unseeded_runs_differ :
  rooms_of (@main lcg file_config None 1) <> rooms_of (@main lcg file_config None 2).
Proof. vm_compute. discriminate. Qed.

(* ===================================================================== *)
(** * Part III: further properties of the code                             *)
(* ===================================================================== *)

(** ** [MapEnv._get_observation] *)

Lemma cell_np_full_in (h w : nat) (v : Z) (y x : nat) :
  (y < h)%nat -> (x < w)%nat -> cell (np_full h w v) y x = Some v.
Proof.
  intros Hy Hx. unfold cell, np_full.
  rewrite lookup_replicate_2 by exact Hy. cbn [mbind option_bind].
  apply lookup_replicate_2. exact Hx.
Qed.

Lemma np_scale_shape (h w : nat) (m : matrix) (k : Z) :
  has_shape h w m = true -> has_shape h w (np_scale m k) = true.
Proof.
  intros Hs. apply has_shape_spec in Hs as [Hl Hr]. apply has_shape_spec.
  unfold np_scale. split; [rewrite length_map; exact Hl |].
  apply Forall_fmap. eapply Forall_impl; [exact Hr |].
  intros row Hrow. cbn. rewrite length_map. exact Hrow.
Qed.

(** X1. On a well-formed environment the observation is the stack of the
    wall channel, the player channel and the goal channel, each of the
    map's shape, and the player channel holds 255 on the agent's tile and
    0 on every other tile (0 everywhere when the agent is off the map). *)
Theorem observation_marks_agent (self : MapEnv) :
  wf_env self = true ->
  exists player,
    _get_observation self =
      Ok [np_scale (wall_matrix self) 255; player; goal_matrix self] /\
    has_shape (Z.to_nat (map_height self)) (Z.to_nat (map_width self))
      (np_scale (wall_matrix self) 255) = true /\
    has_shape (Z.to_nat (map_height self)) (Z.to_nat (map_width self)) player = true /\
    forall (y x : nat),
      (y < Z.to_nat (map_height self))%nat -> (x < Z.to_nat (map_width self))%nat ->
      cell player y x =
        Some (if bool_decide (player_pos self = (Z.of_nat x, Z.of_nat y)) then 255 else 0).
Proof.
  intros Hwf. apply wf_env_spec in Hwf as (Hh & Hw & Hwall & Hgoal).
  unfold _get_observation. destruct (player_pos self) as [px py].
  destruct (in_bounds self (px, py)) eqn:Hb.
  - apply in_bounds_spec in Hb as [Hy Hx].
    destruct (np_set_cell (Z.to_nat (map_height self)) (Z.to_nat (map_width self))
                (np_zeros (Z.to_nat (map_height self)) (Z.to_nat (map_width self)))
                py px 255) as (player & -> & Hs & Hat & Hrest);
      [apply np_full_shape | lia | lia |].
    exists player. cbn [mbind result_bind].
    split; [reflexivity |]. split; [apply np_scale_shape; exact Hwall |].
    split; [exact Hs |].
    intros y x Hylt Hxlt.
    destruct (decide ((y, x) = (Z.to_nat py, Z.to_nat px))) as [[= -> ->] | Hne].
    + rewrite Hat. rewrite bool_decide_eq_true_2; [reflexivity |]. f_equal; lia.
    + rewrite Hrest by exact Hne. unfold np_zeros.
      rewrite cell_np_full_in by assumption.
      rewrite bool_decide_eq_false_2; [reflexivity |].
      intros [= -> ->]. apply Hne. f_equal; lia.
  - exists (np_zeros (Z.to_nat (map_height self)) (Z.to_nat (map_width self))).
    cbn [mbind result_bind].
    split; [reflexivity |]. split; [apply np_scale_shape; exact Hwall |].
    split; [apply np_full_shape |].
    intros y x Hylt Hxlt. unfold np_zeros. rewrite cell_np_full_in by assumption.
    rewrite bool_decide_eq_false_2; [reflexivity |].
    intros [= -> ->].
    assert (in_bounds self (Z.of_nat x, Z.of_nat y) = true) as Hin
      by (apply in_bounds_spec; lia).
    congruence.
Qed.

(** On the sample environment the player channel marks [(0, 0)] only. *)
Lemma observation_marks_agent_witness :
  exists player,
    _get_observation sample_env =
      Ok [np_scale (wall_matrix sample_env) 255; player; goal_matrix sample_env] /\
    cell player 0 0 = Some 255 /\ cell player 1 2 = Some 0.
Proof.
  destruct (observation_marks_agent sample_env eq_refl) as (player & Hobs & _ & _ & Hcells).
  exists player. split; [exact Hobs |].
  split; [apply (Hcells 0%nat 0%nat) | apply (Hcells 1%nat 2%nat)]; simpl; lia.
Defined.

(** ** The values of the matrices *)

Lemma np_set_Forall (P : Z -> Prop) (m m' : matrix) (y x v : Z) :
  Forall (Forall P) m -> P v -> np_set m y x v = Ok m' -> Forall (Forall P) m'.
Proof.
  intros Hm Hv. unfold np_set.
  destruct (py_getitem m y) as [row |] eqn:Hrow; [| discriminate]. cbn [mbind result_bind].
  assert (Forall P row) as HPr.
  { rewrite Forall_forall in Hm. apply Hm. eapply py_getitem_elem; eauto. }
  unfold py_setitem.
  destruct (norm_index (length row) x) as [nx |]; [| discriminate]. cbn [mbind result_bind].
  destruct (norm_index (length m) y) as [ny |]; [| discriminate].
  intros [= <-]. apply Forall_insert; [exact Hm |]. apply Forall_insert; assumption.
Qed.

(** The constructor writes 0 or 1 into the wall matrix and 0 or 255 into
    the goal matrix. *)
Lemma derive_matrices_values (tiled_map : TiledMap) (walkable_gids enemy_gids : gset Z)
    (wall goal : matrix) (enemies : list (Z * Z)) :
  derive_matrices tiled_map walkable_gids enemy_gids = Ok (wall, goal, enemies) ->
  Forall (Forall (fun v => v = 0 \/ v = 1)) wall /\
  Forall (Forall (fun v => v = 0 \/ v = 255)) goal.
Proof.
  unfold derive_matrices. intros Hrun.
  set (P := fun acc : matrix * matrix * list (Z * Z) =>
              Forall (Forall (fun v => v = 0 \/ v = 1)) acc.1.1 /\
              Forall (Forall (fun v => v = 0 \/ v = 255)) acc.1.2).
  apply (for_each_invariant P _ _) in Hrun; [exact Hrun | |].
  - intros acc [tiles |] acc' HP _ Hbody; [| injection Hbody as <-; exact HP].
    apply (for_each_invariant P _ _) in Hbody; [exact Hbody | | exact HP].
    intros [[wl gl] en] [[x y] gid] [[wl' gl'] en'] [H1 H2] _. unfold P, classify_tile.
    cbn [fst snd] in *.
    destruct (bool_decide (gid ∈ walkable_gids)).
    + destruct (np_set wl y x 0) as [m |] eqn:Hset; [| discriminate].
      cbn [mbind result_bind]. intros [= <- <- <-].
      split; [apply (np_set_Forall _ wl _ y x 0); auto | exact H2].
    + destruct (bool_decide (gid ∈ enemy_gids)).
      * destruct (np_set wl y x 0) as [m |] eqn:Hset; [| discriminate].
        cbn [mbind result_bind].
        destruct (np_set gl y x 255) as [m2 |] eqn:Hset2; [| discriminate].
        cbn [mbind result_bind]. intros [= <- <- <-].
        split; [apply (np_set_Forall _ wl _ y x 0) | apply (np_set_Forall _ gl _ y x 255)];
          auto.
      * destruct (np_set wl y x 1) as [m |] eqn:Hset; [| discriminate].
        cbn [mbind result_bind]. intros [= <- <- <-].
        split; [apply (np_set_Forall _ wl _ y x 1); auto | exact H2].
  - split; apply Forall_replicate, Forall_replicate; auto.
Qed.

(** X2. On an environment the constructor returned, after any calls, the
    observation is returned, has three channels, and every value of every
    channel is 0 or 255. *)
Theorem observation_is_binary (tiled_map : TiledMap) (start : Z * Z)
    (enemy_gids walkable_gids : gset Z) (self : MapEnv) (calls : list call) :
  __init__ tiled_map start enemy_gids walkable_gids = Ok self ->
  exists obs,
    _get_observation (run self calls) = Ok obs /\
    length obs = 3%nat /\
    Forall (Forall (Forall (fun v => v = 0 \/ v = 255))) obs.
Proof.
  intros Hinit.
  assert (Forall (Forall (fun v => v = 0 \/ v = 1)) (wall_matrix self) /\
          Forall (Forall (fun v => v = 0 \/ v = 255)) (goal_matrix self)) as [Hwall Hgoal].
  { revert Hinit. unfold __init__.
    destruct (derive_matrices tiled_map walkable_gids enemy_gids)
      as [[[wall goal] enemies] |] eqn:Hd; [| discriminate].
    cbn [mbind result_bind].
    destruct (distance_to_nearest start enemies); [| discriminate].
    cbn [mbind result_bind]. intros [= <-]. cbn [wall_matrix goal_matrix].
    eapply derive_matrices_values; eauto. }
  destruct (run_same_map calls self) as (_ & _ & _ & _ & Hw & Hg).
  rewrite Hw in Hwall. rewrite Hg in Hgoal.
  set (s := run self calls) in *.
  unfold _get_observation. destruct (player_pos s) as [px py].
  assert (exists player,
            (if in_bounds s (px, py)
             then np_set (np_zeros (Z.to_nat (map_height s)) (Z.to_nat (map_width s))) py px 255
             else Ok (np_zeros (Z.to_nat (map_height s)) (Z.to_nat (map_width s))))
              = Ok player /\
            Forall (Forall (fun v => v = 0 \/ v = 255)) player) as (player & -> & Hplayer).
  { assert (Forall (Forall (fun v => v = 0 \/ v = 255))
              (np_zeros (Z.to_nat (map_height s)) (Z.to_nat (map_width s)))) as Hz
      by (apply Forall_replicate, Forall_replicate; auto).
    destruct (in_bounds s (px, py)) eqn:Hb; [| eauto].
    apply in_bounds_spec in Hb as [Hy Hx].
    destruct (np_set_in_range (Z.to_nat (map_height s)) (Z.to_nat (map_width s))
                (np_zeros (Z.to_nat (map_height s)) (Z.to_nat (map_width s))) py px 255)
      as [player Hset]; [apply np_full_shape | lia | lia |].
    exists player. split; [exact Hset |].
    eapply (np_set_Forall _ _ _ py px 255); [exact Hz | auto | exact Hset]. }
  cbn [mbind result_bind]. eexists. split; [reflexivity |]. split; [reflexivity |].
  repeat constructor; try assumption.
  unfold np_scale. apply Forall_fmap. eapply Forall_impl; [exact Hwall |].
  intros row Hrow. cbn. apply Forall_fmap. eapply Forall_impl; [exact Hrow |].
  intros v [-> | ->]; cbn; auto.
Qed.

(** On the sample environment, after a move right and a blocked move up. *)
Lemma observation_is_binary_witness :
  exists obs,
    _get_observation (run sample_env [CallStep 3; CallStep 0]) = Ok obs /\
    length obs = 3%nat /\
    Forall (Forall (Forall (fun v => v = 0 \/ v = 255))) obs.
Proof.
  apply (observation_is_binary sample_map (0, 0) {[48]} {[8]}).
  vm_compute. reflexivity.
Defined.

(** ** [MapEnv.__init__]: what the matrices record *)

(** One tile of a layer, on the map: only its own cell is rewritten; an
    enemy tile marks the cell as goal and appends it to the list, any other
    tile leaves the goal matrix and the list alone. *)
Lemma classify_tile_cells (h w : nat) (walkable_gids enemy_gids : gset Z)
    (wall goal wall' goal' : matrix) (enemies enemies' : list (Z * Z)) (x y gid : Z) :
  has_shape h w wall = true -> has_shape h w goal = true ->
  0 <= x < Z.of_nat w -> 0 <= y < Z.of_nat h ->
  classify_tile walkable_gids enemy_gids (wall, goal, enemies) (x, y, gid)
    = Ok (wall', goal', enemies') ->
  (forall y' x', (y', x') <> (Z.to_nat y, Z.to_nat x) ->
     cell wall' y' x' = cell wall y' x' /\ cell goal' y' x' = cell goal y' x') /\
  ((cell goal' (Z.to_nat y) (Z.to_nat x) = Some 255 /\ enemies' = enemies ++ [(x, y)]) \/
   (goal' = goal /\ enemies' = enemies)).
Proof.
  intros Hsw Hsg Hx Hy. unfold classify_tile.
  destruct (np_set_cell h w wall y x 0 Hsw Hy Hx) as (wall0 & -> & _ & _ & Hrest0).
  destruct (np_set_cell h w wall y x 1 Hsw Hy Hx) as (wall_1 & -> & _ & _ & Hrest1).
  destruct (np_set_cell h w goal y x 255 Hsg Hy Hx) as (goal_255 & -> & _ & Hatg & Hrestg).
  cbn [mbind result_bind].
  destruct (bool_decide (gid ∈ walkable_gids));
    [| destruct (bool_decide (gid ∈ enemy_gids))];
    intros [= <- <- <-]; (split; [intros y' x' Hne; auto |]); auto.
Qed.

(** X3. When the tiles of the layers are on the map, the list of enemy
    locations and the goal matrix record the same cells, however many
    layers the map has: [(x, y)] is in [enemy_locations] exactly when
    [goal_matrix[y, x]] is 255. *)
Theorem enemy_locations_match_goal_matrix (tiled_map : TiledMap) (start : Z * Z)
    (enemy_gids walkable_gids : gset Z) (self : MapEnv) :
  tiles_on_map tiled_map ->
  __init__ tiled_map start enemy_gids walkable_gids = Ok self ->
  forall x y,
    0 <= x < map_width self -> 0 <= y < map_height self ->
    ((x, y) ∈ enemy_locations self <->
     cell (goal_matrix self) (Z.to_nat y) (Z.to_nat x) = Some 255).
Proof.
  intros Htiles. unfold __init__.
  destruct (derive_matrices tiled_map walkable_gids enemy_gids)
    as [[[wall goal] enemies] |] eqn:Hd; [| discriminate].
  cbn [mbind result_bind].
  destruct (distance_to_nearest start enemies); [| discriminate].
  cbn [mbind result_bind]. intros [= <-].
  cbn [map_width map_height enemy_locations goal_matrix].
  set (P := fun acc : matrix * matrix * list (Z * Z) =>
              has_shape (height tiled_map) (width tiled_map) acc.1.1 = true /\
              has_shape (height tiled_map) (width tiled_map) acc.1.2 = true /\
              forall x y,
                0 <= x < Z.of_nat (width tiled_map) -> 0 <= y < Z.of_nat (height tiled_map) ->
                ((x, y) ∈ acc.2 <-> cell acc.1.2 (Z.to_nat y) (Z.to_nat x) = Some 255)).
  unfold derive_matrices in Hd.
  apply (for_each_invariant P _ _) in Hd; [apply Hd | |].
  - intros acc [tiles |] acc' HP Hlayer Hbody; [| injection Hbody as <-; exact HP].
    apply (for_each_invariant P _ _) in Hbody; [exact Hbody | | exact HP].
    intros [[wl gl] en] [[tx ty] gid] [[wl' gl'] en'] (Hsw & Hsg & Hiff) Hin Hc.
    unfold P in *. cbn [fst snd] in *.
    destruct (Htiles tiles tx ty gid Hlayer Hin) as [Htx Hty].
    destruct (classify_tile_shape _ _ _ _ _ _ _ _ _ _ _ Hsw Hsg Hc) as [Hsw' Hsg'].
    destruct (classify_tile_cells _ _ _ _ _ _ _ _ _ _ _ _ _ Hsw Hsg Htx Hty Hc)
      as [Hframe Hcase].
    split; [exact Hsw' |]. split; [exact Hsg' |].
    intros x y Hx Hy.
    destruct Hcase as [[Hat ->] | [-> ->]]; [| apply Hiff; assumption].
    rewrite elem_of_app, list_elem_of_singleton.
    destruct (decide ((Z.to_nat y, Z.to_nat x) = (Z.to_nat ty, Z.to_nat tx))) as [Heq | Hne].
    + injection Heq as Hyy Hxx.
      assert (x = tx) as -> by lia. assert (y = ty) as -> by lia. tauto.
    + destruct (Hframe _ _ Hne) as [_ ->]. rewrite (Hiff x y Hx Hy).
      split; [intros [Hg | [= -> ->]]; [exact Hg | congruence] | auto].
  - unfold P. cbn [fst snd].
    split; [apply np_full_shape |]. split; [apply np_full_shape |].
    intros x y Hx Hy. unfold np_zeros. rewrite cell_np_full_in by lia.
    split; [intros Hin; inversion Hin | discriminate].
Qed.

(** On [layered_map], the map of two layers: the enemy cell [(1, 0)]. *)
Lemma enemy_locations_match_goal_matrix_witness :
  exists self,
    __init__ layered_map (0, 0) {[48]} {[8]} = Ok self /\
    ((1, 0) ∈ enemy_locations self <->
     cell (goal_matrix self) (Z.to_nat 0) (Z.to_nat 1) = Some 255).
Proof.
  assert (tiles_on_map layered_map) as Htiles.
  { intros tiles x y gid Hl Hin. simpl in Hl.
    repeat (apply elem_of_cons in Hl as [Hl | Hl];
            [injection Hl as ->;
             repeat (apply elem_of_cons in Hin as [Hin | Hin];
                     [injection Hin as -> -> ->; simpl; lia |]);
             inversion Hin |]).
    inversion Hl. }
  destruct (__init__ layered_map (0, 0) {[48]} {[8]}) as [self |] eqn:Hinit.
  - exists self. split; [reflexivity |].
    assert (map_width self = 2 /\ map_height self = 1) as [Hw Hh]
      by (vm_compute in Hinit; injection Hinit as <-; split; reflexivity).
    apply (enemy_locations_match_goal_matrix layered_map (0, 0) {[48]} {[8]} self Htiles Hinit);
      lia.
  - vm_compute in Hinit. discriminate Hinit.
Defined.



(** ** What [reset] and [step] leave alone, and what they keep *)

(** X5. No sequence of [reset] and [step] calls changes the map: the
    dimensions, the start tile, the enemy locations, the wall matrix and the
    goal matrix are those of the object the calls started from. *)
Theorem calls_leave_the_map_alone (self : MapEnv) (calls : list call) :
  map_width (run self calls) = map_width self /\
  map_height (run self calls) = map_height self /\
  start_pos (run self calls) = start_pos self /\
  enemy_locations (run self calls) = enemy_locations self /\
  wall_matrix (run self calls) = wall_matrix self /\
  goal_matrix (run self calls) = goal_matrix self.
Proof.
  destruct (run_same_map calls self) as (H1 & H2 & H3 & H4 & H5 & H6).
  repeat split; congruence.
Qed.

Lemma resolve_move_coherent (self self' : MapEnv) (action : Z) (reward : Q) :
  _get_distance_to_nearest_enemy self = Ok (last_distance self) ->
  resolve_move self action = (self', Ok reward) ->
  _get_distance_to_nearest_enemy self' = Ok (last_distance self').
Proof.
  intros Hco. unfold resolve_move.
  destruct (candidate action (player_pos self)) as [x y].
  destruct (negb (in_bounds self (x, y))); [intros [= <- _]; exact Hco |].
  destruct (np_get (wall_matrix self) y x) as [w |]; [| discriminate].
  destruct (w =? 1); [intros [= <- _]; exact Hco |].
  destruct (_get_distance_to_nearest_enemy (set_player_pos self (x, y))) as [d |] eqn:Hd;
    [| discriminate].
  intros [= <- _]. exact Hd.
Qed.

Lemma do_call_coherent (self : MapEnv) (c : call) :
  _get_distance_to_nearest_enemy self = Ok (last_distance self) ->
  all_return self [c] = true ->
  _get_distance_to_nearest_enemy (do_call self c) = Ok (last_distance (do_call self c)).
Proof.
  intros Hco. destruct c as [| action]; cbn [all_return do_call]; rewrite andb_true_r.
  - unfold reset.
    destruct (_get_distance_to_nearest_enemy (set_player_pos self (start_pos self)))
      as [d |] eqn:Hd; [| discriminate].
    intros _. exact Hd.
  - unfold step. destruct (resolve_move self action) as [self' [reward | e]] eqn:Hres;
      [| discriminate].
    intros _. eapply resolve_move_coherent; eauto.
Qed.

(** X6. The cached distance is the distance at the agent's position: it is
    so when the constructor returns, and it stays so through any calls of
    [reset] and [step] that return normally. *)
Theorem cached_distance_is_current (tiled_map : TiledMap) (start : Z * Z)
    (enemy_gids walkable_gids : gset Z) (self : MapEnv) (calls : list call) :
  __init__ tiled_map start enemy_gids walkable_gids = Ok self ->
  all_return self calls = true ->
  _get_distance_to_nearest_enemy (run self calls) = Ok (last_distance (run self calls)).
Proof.
  intros Hinit. apply __init___establishes in Hinit as (_ & _ & _ & _ & _ & Hco).
  revert self Hco. induction calls as [| c calls IH]; intros self Hco Hret; [exact Hco |].
  cbn [all_return] in Hret. apply andb_true_iff in Hret as [Hc Hrest].
  cbn [run fold_left]. apply IH; [| exact Hrest].
  apply do_call_coherent; [exact Hco |]. cbn [all_return]. rewrite Hc. reflexivity.
Qed.

(** On the sample environment: right, up (blocked), reset, down. *)
Lemma cached_distance_is_current_witness :
  let s := run sample_env [CallStep 3; CallStep 0; CallReset; CallStep 1] in
  player_pos s = (0, 1) /\
  _get_distance_to_nearest_enemy s = Ok (last_distance s).
Proof.
  split; [vm_compute; reflexivity |].
  apply (cached_distance_is_current sample_map (0, 0) {[48]} {[8]}).
  - vm_compute. reflexivity.
  - vm_compute. reflexivity.
Defined.

(** X7. Whenever [step] returns: [truncated] is false; [terminated] tells
    whether the agent now stands on a goal tile; the reward is one of -5,
    -0.5, 1.0 and 100, and it is 100 exactly when [terminated]; and the
    observation is the one of the object as the call leaves it. *)
Theorem step_outcome (self : MapEnv) (action : Z)
    (obs : observation) (reward : Q) (done truncated : bool) :
  snd (step self action) = Ok (obs, reward, done, truncated) ->
  truncated = false /\
  done = is_goal (fst (step self action)) (player_pos (fst (step self action))) /\
  (reward = 100%Q <-> done = true) /\
  (reward = (-5)%Q \/ reward = (- (1 # 2))%Q \/ reward = 1%Q \/ reward = 100%Q) /\
  _get_observation (fst (step self action)) = Ok obs.
Proof.
  unfold step.
  destruct (resolve_move self action) as [self' [r | e]] eqn:Hres; [| discriminate].
  cbn [fst snd]. unfold is_goal.
  destruct (np_get (goal_matrix self') (snd (player_pos self')) (fst (player_pos self')))
    as [g |]; [| discriminate].
  cbn [mbind result_bind].
  assert (r = (-5)%Q \/ r = (- (1 # 2))%Q \/ r = 1%Q) as Hr.
  { revert Hres. unfold resolve_move.
    destruct (candidate action (player_pos self)) as [x y].
    destruct (negb (in_bounds self (x, y))); [intros [= _ <-]; auto |].
    destruct (np_get (wall_matrix self) y x) as [w |]; [| discriminate].
    destruct (w =? 1); [intros [= _ <-]; auto |].
    destruct (_get_distance_to_nearest_enemy _) as [d |]; [| discriminate].
    destruct (float_lt d (last_distance self)); intros [= _ <-]; auto. }
  destruct (g =? 255); destruct (_get_observation self') as [o |]; try discriminate;
    cbn [mbind result_bind]; intros [= <- <- <- <-].
  - repeat split; auto.
  - repeat split; auto; try discriminate.
    + destruct Hr as [-> | [-> | ->]]; discriminate.
    + tauto.
Qed.

(** On the sample environment: the move right. *)
Lemma step_outcome_witness :
  exists obs,
    snd (step sample_env 3) = Ok (obs, 1%Q, false, false) /\
    is_goal (fst (step sample_env 3)) (player_pos (fst (step sample_env 3))) = false.
Proof.
  destruct (snd (step sample_env 3)) as [[[[obs reward] done] truncated] |] eqn:Hstep.
  - destruct (step_outcome sample_env 3 obs reward done truncated Hstep)
      as (-> & Hdone & _ & _ & _).
    exists obs. vm_compute in Hstep. injection Hstep as _ <- <-.
    split; [reflexivity | symmetry; exact Hdone].
  - vm_compute in Hstep. discriminate Hstep.
Defined.

(** X8. [reset] brings a constructed environment back to the object the
    constructor returned, whatever calls came in between, and returns the
    observation of that object. *)
Theorem reset_restores_constructed (tiled_map : TiledMap) (start : Z * Z)
    (enemy_gids walkable_gids : gset Z) (self : MapEnv) (calls : list call) :
  __init__ tiled_map start enemy_gids walkable_gids = Ok self ->
  fst (reset (run self calls)) = self /\
  snd (reset (run self calls)) = _get_observation self.
Proof.
  intros Hinit.
  apply __init___establishes in Hinit as (_ & _ & _ & Hstart & Hpos & Hdist).
  destruct (run_same_map calls self) as (Hw & Hh & Hs & He & Hwm & Hgm).
  assert (reset (run self calls) = (self, _get_observation self)) as Heq.
  { unfold reset, _get_distance_to_nearest_enemy in *.
    cbn [set_player_pos player_pos enemy_locations].
    rewrite <- Hs, <- He, Hstart. rewrite Hpos in Hdist. rewrite Hdist.
    assert (set_last_distance (set_player_pos (run self calls) start) (last_distance self)
            = self) as ->; [| reflexivity].
    unfold set_last_distance, set_player_pos.
    cbn [map_width map_height start_pos player_pos enemy_locations wall_matrix goal_matrix].
    rewrite <- Hw, <- Hh, <- Hs, <- He, <- Hwm, <- Hgm, <- Hpos.
    destruct self. reflexivity. }
  rewrite Heq. split; reflexivity.
Qed.

(** On the sample environment, after two moves. *)
Lemma reset_restores_constructed_witness :
  fst (reset (run sample_env [CallStep 3; CallStep 1])) = sample_env.
Proof.
  apply (reset_restores_constructed sample_map (0, 0) {[48]} {[8]}).
  vm_compute. reflexivity.
Defined.

(** ** [MapEnv.save_vision_map] *)

Lemma has_shape_row_lengths (h w : nat) (m : matrix) :
  has_shape h w m = true -> map length m = replicate h w.
Proof.
  intros Hs. apply has_shape_spec in Hs as [<- Hr].
  induction Hr as [| row m Hrow Hr IH]; [reflexivity |].
  cbn. rewrite Hrow, IH. reflexivity.
Qed.

Lemma np_mask_assign_row_lengths (img img' : list (list (Z * Z * Z))) (m : matrix)
    (v : Z) (colour : Z * Z * Z) :
  np_mask_assign img m v colour = Ok img' -> map length img' = map length img.
Proof.
  unfold np_mask_assign.
  destruct (bool_decide (map length img = map length m)) eqn:Hs; [| discriminate].
  apply bool_decide_eq_true in Hs. intros [= <-].
  revert m Hs. induction img as [| row img IH]; intros [| mrow m] Hs; try discriminate;
    [reflexivity |].
  cbn in Hs. injection Hs as Hrow Hrest. cbn.
  rewrite length_zip_with_l_eq by exact Hrow. f_equal. apply IH. exact Hrest.
Qed.

Lemma np_mask_assign_cell (img img' : list (list (Z * Z * Z))) (m : matrix)
    (v : Z) (colour px : Z * Z * Z) (e : Z) (y x : nat) :
  np_mask_assign img m v colour = Ok img' ->
  cell img y x = Some px -> cell m y x = Some e ->
  cell img' y x = Some (if e =? v then colour else px).
Proof.
  unfold np_mask_assign. destruct (bool_decide _); [| discriminate].
  intros [= <-]. unfold cell. rewrite lookup_zip_with.
  destruct (img !! y) as [row |]; [| discriminate].
  destruct (m !! y) as [mrow |]; [| discriminate].
  cbn [mbind option_bind]. rewrite lookup_zip_with.
  intros -> ->. reflexivity.
Qed.

Lemma lookup_column (img : list (list (Z * Z * Z))) (x y : nat) :
  Forall (fun row => (x < length row)%nat) img ->
  omap (fun row => row !! x) img !! y = (row ← img !! y; row !! x).
Proof.
  intros Hrows. revert y. induction Hrows as [| row img Hrow Hrows IH]; intros y;
    [reflexivity |].
  cbn [omap list_omap]. destruct (lookup_lt_is_Some_2 row x Hrow) as [px Hpx].
  rewrite Hpx. destruct y as [| y]; cbn; [rewrite Hpx; reflexivity | apply IH].
Qed.

(** X9. On a well-formed environment [save_vision_map] builds its image
    without raising (the file write that follows is not modelled) and
    paints every tile in one of three colours: red where the goal matrix
    holds 255, else black where the wall matrix holds 1, else white.  The
    image is transposed: its entry [[x][y]] is the tile of column [x],
    row [y]. *)
Theorem vision_map_colours (self : MapEnv) :
  wf_env self = true ->
  exists img,
    save_vision_map self = Ok img /\
    length img = Z.to_nat (map_width self) /\
    forall (y x : nat) (wv gv : Z),
      cell (wall_matrix self) y x = Some wv ->
      cell (goal_matrix self) y x = Some gv ->
      cell img x y =
        Some (if gv =? 255 then (255, 0, 0)
              else if wv =? 1 then (0, 0, 0)
              else (255, 255, 255)).
Proof.
  intros Hwf. apply wf_env_spec in Hwf as (_ & _ & Hwall & Hgoal).
  set (H := Z.to_nat (map_height self)) in *. set (W := Z.to_nat (map_width self)) in *.
  unfold save_vision_map, vision_map. fold H W.
  set (white := replicate H (replicate W (255, 255, 255))).
  assert (map length white = replicate H W) as Hwhite.
  { unfold white. clear. induction H as [| H IH]; [reflexivity |].
    cbn. rewrite length_replicate, IH. reflexivity. }
  destruct (np_mask_assign white (wall_matrix self) 1 (0, 0, 0)) as [v1 |] eqn:Hv1.
  2:{ unfold np_mask_assign in Hv1.
      rewrite bool_decide_eq_true_2 in Hv1; [discriminate |].
      rewrite Hwhite. symmetry. apply has_shape_row_lengths. exact Hwall. }
  cbn [mbind result_bind].
  pose proof (np_mask_assign_row_lengths _ _ _ _ _ Hv1) as Hl1.
  destruct (np_mask_assign v1 (goal_matrix self) 255 (255, 0, 0)) as [v2 |] eqn:Hv2.
  2:{ unfold np_mask_assign in Hv2.
      rewrite bool_decide_eq_true_2 in Hv2; [discriminate |].
      rewrite Hl1, Hwhite. symmetry. apply has_shape_row_lengths. exact Hgoal. }
  cbn [mbind result_bind].
  pose proof (np_mask_assign_row_lengths _ _ _ _ _ Hv2) as Hl2.
  eexists. split; [reflexivity |].
  split; [unfold np_transpose; rewrite length_map, length_seq; reflexivity |].
  intros y x wv gv Hwv Hgv.
  assert ((y < H)%nat /\ (x < W)%nat) as [Hy Hx].
  { apply has_shape_spec in Hwall as [Hlen Hrows]. unfold cell in Hwv.
    destruct (wall_matrix self !! y) as [row |] eqn:Hrow; [| discriminate].
    cbn [mbind option_bind] in Hwv.
    apply lookup_lt_Some in Hwv. rewrite Forall_forall in Hrows.
    rewrite (Hrows row (list_elem_of_lookup_2 _ _ _ Hrow)) in Hwv.
    apply lookup_lt_Some in Hrow. lia. }
  assert (cell white y x = Some (255, 255, 255)) as Hpx.
  { unfold cell, white. rewrite lookup_replicate_2 by exact Hy.
    cbn [mbind option_bind]. apply lookup_replicate_2. exact Hx. }
  pose proof (np_mask_assign_cell _ _ _ _ _ _ _ _ _ Hv1 Hpx Hwv) as Hc1.
  pose proof (np_mask_assign_cell _ _ _ _ _ _ _ _ _ Hv2 Hc1 Hgv) as Hc2.
  unfold cell, np_transpose. rewrite list_lookup_fmap, lookup_seq_lt by exact Hx.
  cbn [fmap option_fmap option_map mbind option_bind Nat.add].
  rewrite lookup_column; [exact Hc2 |].
  assert (map length v2 = replicate H W) as Hrows by congruence.
  apply Forall_forall. intros row Hrow.
  assert (length row ∈ map length v2) as Hin
    by (apply list_elem_of_fmap; exists row; auto).
  rewrite Hrows in Hin. apply elem_of_replicate in Hin as [-> _]. exact Hx.
Qed.

(** On the sample environment: the goal [(2, 2)] is red, the wall [(1, 1)]
    black, the floor [(0, 0)] white. *)
Lemma vision_map_colours_witness :
  exists img,
    save_vision_map sample_env = Ok img /\
    cell img 2 2 = Some (255, 0, 0) /\
    cell img 1 1 = Some (0, 0, 0) /\
    cell img 0 0 = Some (255, 255, 255).
Proof.
  destruct (vision_map_colours sample_env eq_refl) as (img & Hsave & _ & Hcells).
  exists img. split; [exact Hsave |].
  split; [| split].
  - apply (Hcells 2%nat 2%nat 0 255); reflexivity.
  - apply (Hcells 1%nat 1%nat 1 0); reflexivity.
  - apply (Hcells 0%nat 0%nat 0 0); reflexivity.
Defined.

(** ** Writes into a grid, in range or not *)

Lemma norm_index_Some (len : nat) (i : Z) (n : nat) :
  norm_index len i = Some n -> (n < len)%nat /\ (0 <= i -> n = Z.to_nat i).
Proof.
  unfold norm_index.
  destruct ((0 <=? i) && (i <? Z.of_nat len)) eqn:H1.
  - apply andb_true_iff in H1 as [H0 H1]. intros [= <-]. lia.
  - destruct ((- Z.of_nat len <=? i) && (i <? 0)) eqn:H2; [| discriminate].
    apply andb_true_iff in H2 as [H2 H3]. intros [= <-]. lia.
Qed.

(** Any write that succeeds keeps the length of every row, changes at most
    one cell, to the tile written; with indices that are not negative, the
    cell changed is the cell addressed. *)
Lemma grid_set_success (g g' : TileGrid) (y x : Z) (t : tile) :
  grid_set g y x t = Ok g' ->
  map length g' = map length g /\
  (forall p, tile_at g' p = tile_at g p \/ tile_at g' p = Some t) /\
  (0 <= y -> 0 <= x -> tile_at g' (x, y) = Some t).
Proof.
  unfold grid_set, py_getitem, py_setitem.
  destruct (norm_index (length g) y) as [ny |] eqn:Hny; [| discriminate].
  destruct (g !! ny) as [row |] eqn:Hrow; [| discriminate]. cbn [mbind result_bind].
  destruct (norm_index (length row) x) as [nx |] eqn:Hnx; [| discriminate].
  cbn [mbind result_bind]. intros [= <-].
  apply norm_index_Some in Hny as [Hnylt Hnyeq].
  apply norm_index_Some in Hnx as [Hnxlt Hnxeq].
  split; [| split].
  - rewrite list_fmap_insert, length_insert. apply list_insert_id.
    rewrite list_lookup_fmap, Hrow. reflexivity.
  - intros [px py]. unfold tile_at.
    destruct ((0 <=? px) && (0 <=? py)); [| auto].
    destruct (decide (Z.to_nat py = ny)) as [-> | Hne].
    + rewrite list_lookup_insert_eq by exact Hnylt. rewrite Hrow. cbn [mbind option_bind].
      destruct (decide (Z.to_nat px = nx)) as [-> | Hnex].
      * right. apply list_lookup_insert_eq. exact Hnxlt.
      * left. apply list_lookup_insert_ne. auto.
    + left. rewrite list_lookup_insert_ne by auto. reflexivity.
  - intros Hy Hx. unfold tile_at.
    destruct (0 <=? x) eqn:H0; [| lia]. destruct (0 <=? y) eqn:H1; [| lia].
    cbn [andb]. rewrite <- (Hnyeq Hy), <- (Hnxeq Hx).
    rewrite list_lookup_insert_eq by exact Hnylt. cbn [mbind option_bind].
    apply list_lookup_insert_eq. exact Hnxlt.
Qed.

(** A property of grids that every successful write of an admitted tile
    keeps is kept by every function of the generator. *)
Section GridInvariant.
Context `{RandomSource}.
Variable Inv : TileGrid -> Prop.
Variable admitted : tile -> Prop.
Hypothesis Inv_grid_set :
  forall g g' y x t, admitted t -> Inv g -> grid_set g y x t = Ok g' -> Inv g'.

Lemma carve_h_corridor_keeps (g g' : TileGrid) (x1 x2 y : Z) (t : tile) :
  admitted t -> Inv g -> carve_h_corridor g x1 x2 y t = Ok g' -> Inv g'.
Proof.
  intros Ht Hg. unfold carve_h_corridor. apply for_each_invariant; [| exact Hg].
  intros s x s' Hs _. apply Inv_grid_set; assumption.
Qed.

Lemma carve_v_corridor_keeps (g g' : TileGrid) (y1 y2 x : Z) (t : tile) :
  admitted t -> Inv g -> carve_v_corridor g y1 y2 x t = Ok g' -> Inv g'.
Proof.
  intros Ht Hg. unfold carve_v_corridor. apply for_each_invariant; [| exact Hg].
  intros s y s' Hs _. apply Inv_grid_set; assumption.
Qed.

Lemma carve_room_keeps (g g' : TileGrid) (r : rect) (t : tile) :
  admitted t -> Inv g -> carve_room g r t = Ok g' -> Inv g'.
Proof.
  intros Ht Hg. destruct r as [[[x y] w] h]. unfold carve_room.
  apply for_each_invariant; [| exact Hg].
  intros s ry s' Hs _. apply for_each_invariant; [| exact Hs].
  intros s0 rx s0' Hs0 _. apply Inv_grid_set; assumption.
Qed.

Lemma place_castle_keeps (cfg : config) (g g' : TileGrid) (origin : Z * Z) (t : tile) :
  admitted t -> Inv g -> place_castle cfg g origin t = Ok g' -> Inv g'.
Proof.
  intros Ht Hg. destruct origin as [ox oy]. unfold place_castle.
  apply for_each_invariant; [| exact Hg].
  intros s j s' Hs _. apply for_each_invariant; [| exact Hs].
  intros s0 i s0' Hs0 _.
  destruct ((0 <=? ox + i) && (ox + i <? MAP_W cfg) &&
            (0 <=? oy + j) && (oy + j <? MAP_H cfg)).
  - apply Inv_grid_set; assumption.
  - intros [= <-]. exact Hs0.
Qed.

Lemma add_decorations_keeps (cfg : config) (g g' : TileGrid) (tree_tile : option tile)
    (density : Q) (r r' : rng) :
  (forall t, tree_tile = Some t -> admitted t) -> Inv g ->
  add_decorations cfg g tree_tile density r = Ok (g', r') -> Inv g'.
Proof.
  intros Ht Hg. unfold add_decorations. intros Hrun.
  apply (for_each_invariant (fun acc : TileGrid * rng => Inv (fst acc))) in Hrun;
    [exact Hrun | | exact Hg].
  intros acc y acc' Hacc _ Hrow.
  apply (for_each_invariant (fun acc : TileGrid * rng => Inv (fst acc))) in Hrow;
    [exact Hrow | | exact Hacc].
  intros [s r0] x [s' r0'] Hs _. cbn [fst] in *.
  destruct (random r0) as [v r1].
  destruct (Qlt_le_dec v density), tree_tile as [t |]; try (intros [= <- <-]; exact Hs).
  destruct (grid_set s y x t) as [s1 |] eqn:Hset; [| discriminate].
  cbn [mbind result_bind]. intros [= <- <-].
  eapply Inv_grid_set; [apply Ht; reflexivity | exact Hs | exact Hset].
Qed.

Lemma connect_rooms_keeps (rooms : list rect) (t : tile) (g g' : TileGrid) (r r' : rng) :
  admitted t -> Inv g -> connect_rooms rooms t g r = Ok (g', r') -> Inv g'.
Proof.
  intros Ht Hg. unfold connect_rooms. intros Hrun.
  apply (for_each_invariant (fun acc : TileGrid * rng => Inv (fst acc))) in Hrun;
    [exact Hrun | | exact Hg].
  intros [s r0] i [s' r0'] Hs _. cbn [fst] in *. unfold connect_pair.
  destruct (py_getitem rooms (i - 1)) as [r1 |]; [| discriminate].
  destruct (py_getitem rooms i) as [r2 |]; [| discriminate]. cbn [mbind result_bind].
  destruct (choice [true; false] r0) as [[[|] r1'] |]; [| | discriminate];
    cbn [mbind result_bind].
  - destruct (carve_h_corridor s _ _ _ t) as [s1 |] eqn:H1; [| discriminate].
    cbn [mbind result_bind].
    destruct (carve_v_corridor s1 _ _ _ t) as [s2 |] eqn:H2; [| discriminate].
    cbn [mbind result_bind]. intros [= <- <-].
    eapply carve_v_corridor_keeps; [exact Ht | | exact H2].
    eapply carve_h_corridor_keeps; eauto.
  - destruct (carve_v_corridor s _ _ _ t) as [s1 |] eqn:H1; [| discriminate].
    cbn [mbind result_bind].
    destruct (carve_h_corridor s1 _ _ _ t) as [s2 |] eqn:H2; [| discriminate].
    cbn [mbind result_bind]. intros [= <- <-].
    eapply carve_h_corridor_keeps; [exact Ht | | exact H2].
    eapply carve_v_corridor_keeps; eauto.
Qed.

Lemma place_rooms_keeps (cfg : config) (budget : nat) (t : tile)
    (g : TileGrid) (rooms : list rect) (r : rng)
    (g' : TileGrid) (rooms' : list rect) (r' : rng) :
  admitted t -> Inv g ->
  place_rooms cfg budget t g rooms r = Ok (g', rooms', r') -> Inv g'.
Proof.
  intros Ht. revert g rooms r.
  induction budget as [| budget IH]; intros g rooms r Hg; simpl.
  - intros [= <- <- <-]. exact Hg.
  - destruct (Z.of_nat (length rooms) <? N_ROOMS cfg); [| intros [= <- <- <-]; exact Hg].
    destruct (randint (ROOM_MIN_W cfg) (ROOM_MAX_W cfg) r) as [[w r1] |]; [| discriminate].
    simpl. destruct (randint (ROOM_MIN_H cfg) (ROOM_MAX_H cfg) r1) as [[h r2] |];
      [| discriminate].
    simpl. destruct (randint 1 (MAP_W cfg - w - 2) r2) as [[x r3] |]; [| discriminate].
    simpl. destruct (randint 1 (MAP_H cfg - h - 2) r3) as [[y r4] |]; [| discriminate].
    simpl. destruct (existsb _ rooms); [apply IH; exact Hg |].
    destruct (carve_room g (x, y, w, h) t) as [g1 |] eqn:Hcarve; [| discriminate].
    simpl. apply IH. eapply carve_room_keeps; eauto.
Qed.

Lemma create_rooms_and_corridors_keeps (cfg : config) (g : TileGrid)
    (floor_tile path_tile : tile) (r : rng)
    (g' : TileGrid) (rooms : list rect) (r' : rng) :
  admitted floor_tile -> admitted path_tile -> Inv g ->
  create_rooms_and_corridors cfg g floor_tile path_tile r = Ok (g', rooms, r') -> Inv g'.
Proof.
  intros Hf Hp Hg. unfold create_rooms_and_corridors.
  destruct (place_rooms cfg _ floor_tile g [] r) as [[[g1 rooms1] r1] |] eqn:Hplace;
    [| discriminate].
  cbn [mbind result_bind].
  destruct (connect_rooms rooms1 path_tile g1 r1) as [[g2 r2] |] eqn:Hconn; [| discriminate].
  cbn [mbind result_bind]. intros [= <- <- <-].
  eapply connect_rooms_keeps; [exact Hp | | exact Hconn].
  eapply place_rooms_keeps; [exact Hf | exact Hg | exact Hplace].
Qed.

End GridInvariant.

(** The stages of [main]: the rooms and corridors on the blank grid, then
    castles and decorations, which keep whatever every write of a tile
    other than the background keeps. *)
Lemma main_stages `{RandomSource} (cfg : config) (SEED : option Z) (g : rng)
    (out : generated) :
  main cfg SEED g = Ok out ->
  exists g0 grid1 g1,
    create_rooms_and_corridors cfg
      (replicate (Z.to_nat (MAP_H cfg)) (replicate (Z.to_nat (MAP_W cfg)) Background))
      Floor Path g0 = Ok (grid1, gen_rooms out, g1) /\
    gen_spawns out = map center (take 6 (gen_rooms out)) /\
    gen_hero_pos out =
      match gen_spawns out with
      | p :: _ => p
      | [] => (MAP_W cfg / 2, MAP_H cfg / 2)
      end /\
    forall Inv : TileGrid -> Prop,
      (forall s s' y x t,
         t <> Background -> Inv s -> grid_set s y x t = Ok s' -> Inv s') ->
      Inv grid1 -> Inv (gen_grid out).
Proof.
  unfold main.
  set (g0 := match SEED with Some n => seed n | None => g end).
  destruct (create_rooms_and_corridors cfg _ Floor Path g0) as [[[grid1 rooms] g1] |] eqn:Hc;
    [| discriminate].
  cbn [mbind result_bind].
  match goal with
  | |- context [(if ?c then ?a else ?b) ≫= _] => destruct (if c then a else b) as [grid2 |] eqn:Hcastle
  end; [| discriminate].
  cbn [mbind result_bind].
  destruct (add_decorations cfg grid2 (Some Tree) (2 # 100) g1) as [[grid3 g3] |] eqn:Hdec;
    [| discriminate].
  cbn [mbind result_bind]. intros [= <-]. cbn [gen_rooms gen_spawns gen_hero_pos gen_grid].
  exists g0, grid1, g1.
  split; [exact Hc |]. split; [reflexivity |]. split; [reflexivity |].
  intros Inv Hset Hgrid1.
  eapply (add_decorations_keeps Inv (fun t => t <> Background) Hset);
    [| | exact Hdec].
  { intros t [= <-]. congruence. }
  destruct (2 <=? Z.of_nat (length rooms)); [| injection Hcastle as <-; exact Hgrid1].
  destruct (py_getitem (sorted_by_area rooms) 0) as [r1 |]; [| discriminate].
  destruct (py_getitem (sorted_by_area rooms) 1) as [r2 |]; [| discriminate].
  cbn [mbind result_bind] in Hcastle.
  destruct (place_castle cfg grid1 _ Castle) as [grid1' |] eqn:Hc1; [| discriminate].
  cbn [mbind result_bind] in Hcastle.
  eapply (place_castle_keeps Inv (fun t => t <> Background) Hset);
    [| | exact Hcastle]; [cbv beta; congruence |].
  eapply (place_castle_keeps Inv (fun t => t <> Background) Hset);
    [| exact Hgrid1 | exact Hc1]; cbv beta; congruence.
Qed.

(** X10. Whatever the generator and the configuration, when [main] returns
    its grid still has [MAP_H] rows of [MAP_W] cells: no write of the
    generator, in range or wrapped around, changes the shape of the grid. *)
Theorem generated_grid_shape `{RandomSource} (cfg : config) (SEED : option Z) (g : rng)
    (out : generated) :
  main cfg SEED g = Ok out ->
  length (gen_grid out) = Z.to_nat (MAP_H cfg) /\
  Forall (fun row => length row = Z.to_nat (MAP_W cfg)) (gen_grid out).
Proof.
  intros Hmain. apply main_stages in Hmain as (g0 & grid1 & g1 & Hc & _ & _ & Hkeep).
  set (L := replicate (Z.to_nat (MAP_H cfg)) (Z.to_nat (MAP_W cfg))).
  assert (forall s s' y x t,
            True -> map length s = L -> grid_set s y x t = Ok s' -> map length s' = L)
    as Hset.
  { intros s s' y x t _ Hs Hw. apply grid_set_success in Hw as [-> _]. exact Hs. }
  assert (map length (gen_grid out) = L) as Hshape.
  { apply (Hkeep (fun s => map length s = L)).
    - intros s s' y x t _. apply Hset. exact I.
    - eapply (create_rooms_and_corridors_keeps (fun s => map length s = L) (fun _ => True) Hset);
        [exact I | exact I | | exact Hc].
      unfold L. clear. induction (Z.to_nat (MAP_H cfg)) as [| n IH]; [reflexivity |].
      cbn. rewrite length_replicate. f_equal. exact IH. }
  split.
  - rewrite <- (length_map length), Hshape. apply length_replicate.
  - apply Forall_forall. intros row Hrow.
    assert (length row ∈ map length (gen_grid out)) as Hin
      by (apply list_elem_of_fmap; exists row; auto).
    rewrite Hshape in Hin. apply elem_of_replicate in Hin as [-> _]. reflexivity.
Qed.

(** [main] with the file's configuration and seed, on the stand-in
    generator: 36 rows. *)
Lemma generated_grid_shape_witness :
  exists out, @main lcg file_config SEED 0 = Ok out /\ length (gen_grid out) = 36%nat.
Proof.
  destruct (@main lcg file_config SEED 0) as [out |] eqn:Hmain.
  - exists out. split; [reflexivity |].
    apply (@generated_grid_shape lcg file_config SEED 0 out Hmain).
  - vm_compute in Hmain. discriminate Hmain.
Defined.

(** X11. [add_decorations] only plants trees: when it returns, every cell
    holds the tile it held or the tree tile, and without a tree image
    ([tree_tile] is [None]) the grid is unchanged. *)
Theorem add_decorations_only_plants `{RandomSource} (cfg : config) (grid grid' : TileGrid)
    (tree_tile : option tile) (density : Q) (g g' : rng) :
  add_decorations cfg grid tree_tile density g = Ok (grid', g') ->
  (forall p, tile_at grid' p = tile_at grid p \/
             (tile_at grid' p = tree_tile /\ tree_tile <> None)) /\
  (tree_tile = None -> grid' = grid).
Proof.
  intros Hrun. split.
  - intros p.
    assert (forall s s' y x t,
              tree_tile = Some t ->
              tile_at s p = tile_at grid p \/ (tile_at s p = tree_tile /\ tree_tile <> None) ->
              grid_set s y x t = Ok s' ->
              tile_at s' p = tile_at grid p \/ (tile_at s' p = tree_tile /\ tree_tile <> None))
      as Hset.
    { intros s s' y x t -> Hs Hw.
      destruct (grid_set_success _ _ _ _ _ Hw) as (_ & Hcases & _).
      destruct (Hcases p) as [-> | ->]; [exact Hs |].
      right. split; [reflexivity | discriminate]. }
    apply (add_decorations_keeps _ _ Hset cfg grid grid' tree_tile density g g');
      [auto | auto | exact Hrun].
  - intros ->.
    assert (forall s s' y x (t : tile),
              False -> s = grid -> grid_set s y x t = Ok s' -> s' = grid) as Hset
      by (intros s s' y x t []).
    apply (add_decorations_keeps _ _ Hset cfg grid grid' None density g g');
      [discriminate | reflexivity | exact Hrun].
Qed.

(** The decorations of the stand-in generator on the blank grid: a cell is
    background or tree. *)
Lemma add_decorations_only_plants_witness :
  exists grid' g',
    @add_decorations lcg file_config blank_grid (Some Tree) (2 # 100) 42 = Ok (grid', g') /\
    (tile_at grid' (0, 0) = Some Background \/ tile_at grid' (0, 0) = Some Tree).
Proof.
  destruct (@add_decorations lcg file_config blank_grid (Some Tree) (2 # 100) 42)
    as [[grid' g'] |] eqn:Hrun.
  - exists grid', g'. split; [reflexivity |].
    destruct (@add_decorations_only_plants lcg file_config blank_grid grid' (Some Tree)
                (2 # 100) 42 g' Hrun) as [Hcells _].
    destruct (Hcells (0, 0)) as [-> | [-> _]]; [left; reflexivity | right; reflexivity].
  - vm_compute in Hrun. discriminate Hrun.
Defined.

(** ** The rooms that generation accepts *)

Lemma create_rooms_and_corridors_stages `{RandomSource} (cfg : config) (grid : TileGrid)
    (floor_tile path_tile : tile) (g : rng)
    (grid' : TileGrid) (rooms : list rect) (g' : rng) :
  create_rooms_and_corridors cfg grid floor_tile path_tile g = Ok (grid', rooms, g') ->
  exists grid1 g1,
    place_rooms cfg (Z.to_nat (N_ROOMS cfg * 12)) floor_tile grid [] g
      = Ok (grid1, rooms, g1) /\
    connect_rooms rooms path_tile grid1 g1 = Ok (grid', g').
Proof.
  unfold create_rooms_and_corridors.
  destruct (place_rooms cfg _ floor_tile grid [] g) as [[[grid1 rooms1] g1] |];
    [| discriminate].
  cbn [mbind result_bind].
  destruct (connect_rooms rooms1 path_tile grid1 g1) as [[grid2 g2] |] eqn:Hconn;
    [| discriminate].
  cbn [mbind result_bind]. intros [= <- <- <-]. eauto.
Qed.

Lemma randint_in_range `{RandomSource} (a b v : Z) (g g' : rng) :
  randbelow_in_range -> randint a b g = Ok (v, g') -> a <= v <= b.
Proof.
  intros Hrand. unfold randint. destruct (0 <? b + 1 - a) eqn:Hw; [| discriminate].
  pose proof (Hrand g (b + 1 - a) ltac:(lia)) as Hk.
  destruct (randbelow g (b + 1 - a)) as [k g1]. cbn [fst] in Hk.
  intros [= <- <-]. lia.
Qed.

Lemma non_wall_kept (p : Z * Z) (s s' : TileGrid) (y x : Z) (t : tile) :
  t <> Background -> non_wall s p = true -> grid_set s y x t = Ok s' ->
  non_wall s' p = true.
Proof.
  intros Ht Hp Hset. destruct (grid_set_success _ _ _ _ _ Hset) as (_ & Hcases & _).
  unfold non_wall in *. destruct (Hcases p) as [-> | ->]; [exact Hp |].
  destruct t; try reflexivity. congruence.
Qed.

Lemma for_each_post {A S} (R : S -> S -> Prop) (Q : A -> S -> Prop)
    (body : S -> A -> result S) (xs : list A) :
  (forall s, R s s) ->
  (forall s1 s2 s3, R s1 s2 -> R s2 s3 -> R s1 s3) ->
  (forall x s s', Q x s -> R s s' -> Q x s') ->
  (forall s x s', x ∈ xs -> body s x = Ok s' -> R s s' /\ Q x s') ->
  forall s r, for_each xs body s = Ok r -> R s r /\ forall x, x ∈ xs -> Q x r.
Proof.
  intros Hrefl Htrans Hmono.
  induction xs as [| x xs IH]; intros Hbody s r Hrun; simpl in Hrun.
  - injection Hrun as <-. split; [apply Hrefl |]. intros x Hin. inversion Hin.
  - destruct (body s x) as [s' |] eqn:Hx; [| discriminate]. simpl in Hrun.
    destruct (Hbody s x s' (list_elem_of_here _ _) Hx) as [HR HQ].
    destruct (IH (fun s0 x0 s0' Hin => Hbody s0 x0 s0' (list_elem_of_further _ _ _ Hin))
                s' r Hrun) as [HRr HQr].
    split; [eapply Htrans; eauto |].
    intros x0 Hin. apply elem_of_cons in Hin as [-> | Hin]; eauto.
Qed.

(** A room carved at an origin that is not negative is filled with the
    floor tile. *)
Lemma carve_room_paints (g g' : TileGrid) (x y w h : Z) (t : tile) :
  0 <= x -> 0 <= y ->
  carve_room g (x, y, w, h) t = Ok g' ->
  forall p, in_rect (x, y, w, h) p -> tile_at g' p = Some t.
Proof.
  intros Hx Hy Hrun [px py] [Hpx Hpy]. cbn [fst snd] in Hpx, Hpy.
  unfold carve_room in Hrun.
  set (R := fun s s' : TileGrid => forall p, tile_at s p = Some t -> tile_at s' p = Some t).
  assert (forall s, R s s) as Hrefl by (intros s p Hp; exact Hp).
  assert (forall s1 s2 s3, R s1 s2 -> R s2 s3 -> R s1 s3) as Htrans
    by (intros s1 s2 s3 H12 H23 p Hp; auto).
  assert (forall s s' ry rx, grid_set s ry rx t = Ok s' -> R s s') as Hset.
  { intros s s' ry rx Hw p Hp. destruct (grid_set_success _ _ _ _ _ Hw) as (_ & Hcases & _).
    destruct (Hcases p) as [-> | ->]; auto. }
  apply (for_each_post R
           (fun ry s => forall rx, x <= rx < x + w -> tile_at s (rx, ry) = Some t))
    in Hrun; [| exact Hrefl | exact Htrans | |].
  - destruct Hrun as [_ Hrows]. apply (Hrows py); [apply elem_of_py_range; lia | lia].
  - intros ry s s' Hq HR rx Hrx. apply HR. auto.
  - intros s ry s' Hry Hrow. apply elem_of_py_range in Hry.
    apply (for_each_post R (fun rx s => tile_at s (rx, ry) = Some t)) in Hrow;
      [| exact Hrefl | exact Htrans | |].
    + destruct Hrow as [HR Hcells]. split; [exact HR |].
      intros rx Hrx. apply Hcells. apply elem_of_py_range. lia.
    + intros rx s0 s0' Hq HR. apply HR. exact Hq.
    + intros s0 rx s0' Hrx Hw. apply elem_of_py_range in Hrx.
      split; [eapply Hset; eauto |].
      destruct (grid_set_success _ _ _ _ _ Hw) as (_ & _ & Hat). apply Hat; lia.
Qed.

(** The placement loop never lets the list grow past [N_ROOMS], nor by
    more than the attempts that are left. *)
Lemma place_rooms_count `{RandomSource} (cfg : config) (budget : nat) (t : tile)
    (grid : TileGrid) (rooms : list rect) (g : rng)
    (grid' : TileGrid) (rooms' : list rect) (g' : rng) :
  place_rooms cfg budget t grid rooms g = Ok (grid', rooms', g') ->
  Z.of_nat (length rooms') <= Z.max (Z.of_nat (length rooms)) (N_ROOMS cfg) /\
  (length rooms' <= length rooms + budget)%nat.
Proof.
  revert grid rooms g. induction budget as [| budget IH]; intros grid rooms g; simpl.
  - intros [= _ <- _]. lia.
  - destruct (Z.of_nat (length rooms) <? N_ROOMS cfg) eqn:Hlen; [| intros [= _ <- _]; lia].
    destruct (randint (ROOM_MIN_W cfg) (ROOM_MAX_W cfg) g) as [[w r1] |]; [| discriminate].
    simpl. destruct (randint (ROOM_MIN_H cfg) (ROOM_MAX_H cfg) r1) as [[h r2] |];
      [| discriminate].
    simpl. destruct (randint 1 (MAP_W cfg - w - 2) r2) as [[x r3] |]; [| discriminate].
    simpl. destruct (randint 1 (MAP_H cfg - h - 2) r3) as [[y r4] |]; [| discriminate].
    simpl. destruct (existsb _ rooms).
    + intros Hrun. apply IH in Hrun. lia.
    + destruct (carve_room grid (x, y, w, h) t) as [grid1 |]; [| discriminate].
      simpl. intros Hrun. apply IH in Hrun. rewrite length_app in Hrun. simpl in Hrun. lia.
Qed.

(** With a generator that keeps the promise of [_randbelow], the placement
    loop only adds rooms that are in range, and every cell of every room of
    the list is a non-wall cell when the floor tile does not block. *)
Lemma place_rooms_rooms `{RandomSource} (cfg : config) (budget : nat) (t : tile)
    (grid : TileGrid) (rooms : list rect) (g : rng)
    (grid' : TileGrid) (rooms' : list rect) (g' : rng) :
  randbelow_in_range ->
  Forall (room_in_range cfg) rooms ->
  place_rooms cfg budget t grid rooms g = Ok (grid', rooms', g') ->
  Forall (room_in_range cfg) rooms' /\
  (t <> Background ->
   (forall r p, r ∈ rooms -> in_rect r p -> non_wall grid p = true) ->
   forall r p, r ∈ rooms' -> in_rect r p -> non_wall grid' p = true).
Proof.
  intros Hrand. revert grid rooms g.
  induction budget as [| budget IH]; intros grid rooms g Hrange; simpl.
  - intros [= <- <- <-]. split; [exact Hrange | auto].
  - destruct (Z.of_nat (length rooms) <? N_ROOMS cfg) eqn:Hlen;
      [| intros [= <- <- <-]; split; [exact Hrange | auto]].
    destruct (randint (ROOM_MIN_W cfg) (ROOM_MAX_W cfg) g) as [[w g1] |] eqn:Hw;
      [| discriminate].
    simpl. destruct (randint (ROOM_MIN_H cfg) (ROOM_MAX_H cfg) g1) as [[h g2] |] eqn:Hh;
      [| discriminate].
    simpl. destruct (randint 1 (MAP_W cfg - w - 2) g2) as [[x g3] |] eqn:Hx; [| discriminate].
    simpl. destruct (randint 1 (MAP_H cfg - h - 2) g3) as [[y g4] |] eqn:Hy; [| discriminate].
    simpl.
    apply (randint_in_range _ _ _ _ _ Hrand) in Hw, Hh, Hx, Hy.
    destruct (existsb _ rooms); [apply IH; exact Hrange |].
    destruct (carve_room grid (x, y, w, h) t) as [grid1 |] eqn:Hcarve; [| discriminate].
    simpl. intros Hrun. apply IH in Hrun.
    + destruct Hrun as [Hrange' Hcells']. split; [exact Hrange' |].
      intros Ht Hcells. apply (Hcells' Ht).
      intros r p Hr Hp. apply elem_of_app in Hr as [Hr | Hr].
      * eapply (carve_room_keeps (fun s => non_wall s p = true) (fun t0 => t0 <> Background)
                  (non_wall_kept p)); [exact Ht | | exact Hcarve].
        eapply Hcells; eauto.
      * apply list_elem_of_singleton in Hr as ->. unfold non_wall.
        rewrite (carve_room_paints grid grid1 x y w h t ltac:(lia) ltac:(lia) Hcarve p Hp).
        destruct t; try reflexivity. congruence.
    + apply Forall_app. split; [exact Hrange |].
      constructor; [unfold room_in_range; lia | constructor].
Qed.

Lemma accepted_rooms_in_range `{RandomSource} (cfg : config) (grid : TileGrid)
    (floor_tile path_tile : tile) (g : rng)
    (grid' : TileGrid) (rooms : list rect) (g' : rng) :
  randbelow_in_range ->
  create_rooms_and_corridors cfg grid floor_tile path_tile g = Ok (grid', rooms, g') ->
  Forall (room_in_range cfg) rooms.
Proof.
  intros Hrand Hrun.
  apply create_rooms_and_corridors_stages in Hrun as (grid1 & g1 & Hplace & _).
  apply (place_rooms_rooms _ _ _ _ _ _ _ _ _ Hrand) in Hplace as [Hrange _];
    [exact Hrange | constructor].
Qed.

(** X12. With a generator that keeps the promise of [_randbelow], every
    room that generation accepted has its width and height in the
    configured ranges and its origin in [[1, MAP_W - w - 2]] x
    [[1, MAP_H - h - 2]]: it lies inside the map, away from the border. *)
Theorem rooms_within_ranges `{RandomSource} (cfg : config) (grid : TileGrid)
    (floor_tile path_tile : tile) (g : rng)
    (grid' : TileGrid) (rooms : list rect) (g' : rng) :
  randbelow_in_range ->
  create_rooms_and_corridors cfg grid floor_tile path_tile g = Ok (grid', rooms, g') ->
  forall x y w h, (x, y, w, h) ∈ rooms ->
    ROOM_MIN_W cfg <= w <= ROOM_MAX_W cfg /\
    ROOM_MIN_H cfg <= h <= ROOM_MAX_H cfg /\
    1 <= x /\ x + w <= MAP_W cfg - 2 /\
    1 <= y /\ y + h <= MAP_H cfg - 2.
Proof.
  intros Hrand Hrun x y w h Hin.
  pose proof (accepted_rooms_in_range _ _ _ _ _ _ _ _ Hrand Hrun) as Hrange.
  rewrite Forall_forall in Hrange. specialize (Hrange _ Hin).
  unfold room_in_range in Hrange. lia.
Qed.

(** The first room of the file's configuration on the stand-in generator. *)
Lemma rooms_within_ranges_witness :
  match @create_rooms_and_corridors lcg file_config blank_grid Floor Path 42 with
  | Ok (_, (x, y, w, h) :: _, _) =>
      5 <= w <= 12 /\ 4 <= h <= 9 /\ 1 <= x /\ x + w <= 46 /\ 1 <= y /\ y + h <= 34
  | _ => False
  end.
Proof.
  destruct (@create_rooms_and_corridors lcg file_config blank_grid Floor Path 42)
    as [[[grid' rooms] g'] | e] eqn:Hrun; [| vm_compute in Hrun; discriminate Hrun].
  pose proof (@rooms_within_ranges lcg file_config blank_grid Floor Path 42 grid' rooms g'
                lcg_in_range Hrun) as Hrange.
  destruct rooms as [| [[[x y] w] h] rooms].
  - vm_compute in Hrun. discriminate Hrun.
  - apply (Hrange x y w h). apply list_elem_of_here.
Defined.

(** X13. Generation never accepts more rooms than requested, nor more than
    its [N_ROOMS * 12] attempts. *)
Theorem room_count_bounded `{RandomSource} (cfg : config) (grid : TileGrid)
    (floor_tile path_tile : tile) (g : rng)
    (grid' : TileGrid) (rooms : list rect) (g' : rng) :
  create_rooms_and_corridors cfg grid floor_tile path_tile g = Ok (grid', rooms, g') ->
  Z.of_nat (length rooms) <= Z.max 0 (N_ROOMS cfg) /\
  Z.of_nat (length rooms) <= Z.max 0 (N_ROOMS cfg * 12).
Proof.
  intros Hrun.
  apply create_rooms_and_corridors_stages in Hrun as (grid1 & g1 & Hplace & _).
  apply place_rooms_count in Hplace. simpl in Hplace. lia.
Qed.

(** The file's configuration on the stand-in generator: at most 12 rooms. *)
Lemma room_count_bounded_witness :
  match @create_rooms_and_corridors lcg file_config blank_grid Floor Path 42 with
  | Ok (_, rooms, _) => Z.of_nat (length rooms) <= 12
  | Raise _ => False
  end.
Proof.
  destruct (@create_rooms_and_corridors lcg file_config blank_grid Floor Path 42)
    as [[[grid' rooms] g'] | e] eqn:Hrun; [| vm_compute in Hrun; discriminate Hrun].
  apply (@room_count_bounded lcg file_config blank_grid Floor Path 42 grid' rooms g' Hrun).
Defined.

Lemma accepted_room_cells `{RandomSource} (cfg : config) (SEED : option Z)
    (g : rng) (out : generated) :
  randbelow_in_range ->
  main cfg SEED g = Ok out ->
  forall r p, r ∈ gen_rooms out -> in_rect r p -> non_wall (gen_grid out) p = true.
Proof.
  intros Hrand Hmain r p Hr Hp.
  apply main_stages in Hmain as (g0 & grid1 & g1 & Hc & _ & _ & Hkeep).
  apply (Hkeep (fun s => non_wall s p = true)); [apply non_wall_kept |].
  apply create_rooms_and_corridors_stages in Hc as (grid0 & g0' & Hplace & Hconn).
  eapply (connect_rooms_keeps (fun s => non_wall s p = true) (fun t => t <> Background)
            (non_wall_kept p)); [| | exact Hconn]; [cbv beta; congruence |].
  apply (place_rooms_rooms _ _ _ _ _ _ _ _ _ Hrand) in Hplace as [_ Hcells]; [| constructor].
  apply (Hcells ltac:(congruence)) with r; [| exact Hr | exact Hp].
  intros r0 p0 Hr0. inversion Hr0.
Qed.

(** X14. With a generator that keeps the promise of [_randbelow], when
    [main] returns, every cell of every accepted room is a non-wall cell of
    the final grid: corridors, castles and decorations never wall up a
    room. *)
Theorem room_cells_stay_walkable `{RandomSource} (cfg : config) (SEED : option Z)
    (g : rng) (out : generated) :
  randbelow_in_range ->
  main cfg SEED g = Ok out ->
  forall r p, r ∈ gen_rooms out -> in_rect r p -> non_wall (gen_grid out) p = true.
Proof. apply accepted_room_cells. Qed.

(** [main] with the file's configuration and seed, on the stand-in
    generator: the origin cell of the first room. *)
Lemma room_cells_stay_walkable_witness :
  match @main lcg file_config SEED 0 with
  | Ok out =>
      match gen_rooms out with
      | (x, y, w, h) :: _ => non_wall (gen_grid out) (x, y) = true
      | [] => False
      end
  | Raise _ => False
  end.
Proof.
  destruct (@main lcg file_config SEED 0) as [out |] eqn:Hmain;
    [| vm_compute in Hmain; discriminate Hmain].
  pose proof (@room_cells_stay_walkable lcg file_config SEED 0 out lcg_in_range Hmain)
    as Hcells.
  pose proof (@main_stages lcg file_config SEED 0 out Hmain) as (g0 & grid1 & g1 & Hc & _).
  pose proof (@accepted_rooms_in_range lcg file_config _ Floor Path g0 grid1 (gen_rooms out) g1
                lcg_in_range Hc) as Hrange.
  destruct (gen_rooms out) as [| [[[x y] w] h] rooms] eqn:Hrooms.
  - vm_compute in Hmain. injection Hmain as <-. discriminate Hrooms.
  - apply Forall_cons in Hrange as [Hrange _]. unfold room_in_range in Hrange.
    simpl in Hrange.
    apply (Hcells (x, y, w, h)); [apply list_elem_of_here |].
    unfold in_rect. cbn [fst snd]. lia.
Defined.

Lemma center_in_rect (x y w h : Z) :
  1 <= w -> 1 <= h -> in_rect (x, y, w, h) (center (x, y, w, h)).
Proof.
  intros Hw Hh. unfold in_rect, center. cbn [fst snd].
  pose proof (Z.div_pos w 2). pose proof (Z.div_lt w 2).
  pose proof (Z.div_pos h 2). pose proof (Z.div_lt h 2). lia.
Qed.

(** X15. With a generator that keeps the promise of [_randbelow] and room
    sizes of at least one tile, the spawn points [main] computes are
    pairwise distinct, there are as many as rooms up to six, and each one is
    a non-wall cell of the final grid: hero and villains never share a tile
    and never start in a wall. *)
Theorem spawn_points_distinct `{RandomSource} (cfg : config) (SEED : option Z)
    (g : rng) (out : generated) :
  randbelow_in_range ->
  1 <= ROOM_MIN_W cfg -> 1 <= ROOM_MIN_H cfg ->
  main cfg SEED g = Ok out ->
  NoDup (gen_spawns out) /\
  length (gen_spawns out) = Nat.min 6 (length (gen_rooms out)) /\
  forall p, p ∈ gen_spawns out -> non_wall (gen_grid out) p = true.
Proof.
  intros Hrand Hminw Hminh Hmain.
  pose proof (accepted_room_cells cfg SEED g out Hrand Hmain) as Hcells.
  apply main_stages in Hmain as (g0 & grid1 & g1 & Hc & -> & _ & _).
  pose proof (accepted_rooms_in_range cfg _ Floor Path g0 grid1 (gen_rooms out) g1 Hrand Hc)
    as Hrange.
  assert (forall r, r ∈ gen_rooms out -> in_rect r (center r)) as Hcenter.
  { intros [[[x y] w] h] Hr. rewrite Forall_forall in Hrange.
    specialize (Hrange _ Hr). unfold room_in_range in Hrange.
    apply center_in_rect; lia. }
  assert (pairwise_apart (gen_rooms out)) as Hapart.
  { apply create_rooms_and_corridors_stages in Hc as (grid0 & g0' & Hplace & _).
    eapply place_rooms_apart; [| exact Hplace].
    intros i j a b _ Ha. rewrite lookup_nil in Ha. discriminate. }
  split; [| split].
  - apply NoDup_alt. intros i j c Hi Hj.
    apply list_lookup_fmap_Some in Hi as (a & -> & Ha).
    apply list_lookup_fmap_Some in Hj as (b & Hcb & Hb).
    apply lookup_take_Some in Ha as [Ha _]. apply lookup_take_Some in Hb as [Hb _].
    destruct (decide (i = j)) as [| Hij]; [assumption | exfalso].
    pose proof (Hapart i j a b Hij Ha Hb) as Hov.
    apply (rects_apart_disjoint a b 1 (center a) Hov).
    + pose proof (Hcenter a (list_elem_of_lookup_2 _ _ _ Ha)) as Hin.
      destruct a as [[[x y] w] h]. unfold in_rect, padded in *. lia.
    + rewrite Hcb. apply Hcenter. eapply list_elem_of_lookup_2; eauto.
  - rewrite length_map, length_take. reflexivity.
  - intros p Hp. apply list_elem_of_fmap in Hp as (r & -> & Hr).
    apply elem_of_take in Hr as (i & Hr & _).
    apply list_elem_of_lookup_2 in Hr. apply (Hcells r); auto.
Qed.

(** [main] with the file's configuration and seed, on the stand-in
    generator. *)
Lemma spawn_points_distinct_witness :
  exists out,
    @main lcg file_config SEED 0 = Ok out /\
    NoDup (gen_spawns out) /\ (2 <= length (gen_spawns out))%nat.
Proof.
  destruct (@main lcg file_config SEED 0) as [out |] eqn:Hmain;
    [| vm_compute in Hmain; discriminate Hmain].
  exists out. split; [reflexivity |].
  destruct (@spawn_points_distinct lcg file_config SEED 0 out lcg_in_range
              ltac:(simpl; lia) ltac:(simpl; lia) Hmain) as (Hnd & Hlen & _).
  split; [exact Hnd |].
  vm_compute in Hmain. injection Hmain as <-. simpl. lia.
Defined.

(** ** The window loop of [main] *)

Lemma handle_event_on_map (cfg : config) (st : window) (ev : event) :
  0 <= fst (hero_pos st) <= MAP_W cfg - 1 ->
  0 <= snd (hero_pos st) <= MAP_H cfg - 1 ->
  0 <= fst (hero_pos (handle_event cfg st ev)) <= MAP_W cfg - 1 /\
  0 <= snd (hero_pos (handle_event cfg st ev)) <= MAP_H cfg - 1.
Proof.
  unfold handle_event. destruct (hero_pos st) as [hx hy] eqn:Hp. cbn [fst snd].
  intros Hx Hy. destruct ev as [| [] |]; cbn [hero_pos fst snd]; rewrite ?Hp;
    cbn [fst snd]; lia.
Qed.

(** X16. With a generator that keeps the promise of [_randbelow] and a
    configuration in which the rooms fit the map, the hero starts on the
    map and no sequence of events moves it off the map: the arrow keys are
    clamped at the four borders. *)
Theorem hero_stays_on_map `{RandomSource} (cfg : config) (SEED : option Z)
    (g : rng) (out : generated) (events : list event) :
  randbelow_in_range -> config_ok cfg ->
  main cfg SEED g = Ok out ->
  0 <= fst (hero_pos (handle_events cfg (window_of out) events)) < MAP_W cfg /\
  0 <= snd (hero_pos (handle_events cfg (window_of out) events)) < MAP_H cfg.
Proof.
  intros Hrand (HW & HH & HmW & HmH) Hmain.
  assert (0 <= fst (gen_hero_pos out) <= MAP_W cfg - 1 /\
          0 <= snd (gen_hero_pos out) <= MAP_H cfg - 1) as Hstart.
  { apply main_stages in Hmain as (g0 & grid1 & g1 & Hc & -> & -> & _).
    pose proof (accepted_rooms_in_range cfg _ Floor Path g0 grid1 (gen_rooms out) g1 Hrand Hc)
      as Hrange.
    destruct (gen_rooms out) as [| [[[x y] w] h] rooms]; cbn [take map fst snd].
    - pose proof (Z.div_pos (MAP_W cfg) 2). pose proof (Z.div_lt (MAP_W cfg) 2).
      pose proof (Z.div_pos (MAP_H cfg) 2). pose proof (Z.div_lt (MAP_H cfg) 2). lia.
    - apply Forall_cons in Hrange as [Hrange _]. unfold room_in_range in Hrange.
      pose proof (center_in_rect x y w h ltac:(lia) ltac:(lia)) as Hin.
      unfold in_rect in Hin. lia. }
  assert (forall st,
            0 <= fst (hero_pos st) <= MAP_W cfg - 1 /\
            0 <= snd (hero_pos st) <= MAP_H cfg - 1 ->
            0 <= fst (hero_pos (handle_events cfg st events)) <= MAP_W cfg - 1 /\
            0 <= snd (hero_pos (handle_events cfg st events)) <= MAP_H cfg - 1) as Hloop.
  { unfold handle_events. induction events as [| ev events IH]; intros st Hst; [exact Hst |].
    cbn [fold_left]. apply IH. apply handle_event_on_map; apply Hst. }
  specialize (Hloop (window_of out) Hstart). lia.
Qed.

(** [main] with the file's configuration and seed, on the stand-in
    generator, then sixty moves left and sixty moves up. *)
Lemma hero_stays_on_map_witness :
  exists out,
    @main lcg file_config SEED 0 = Ok out /\
    let events := replicate 60 (KEYDOWN K_LEFT) ++ replicate 60 (KEYDOWN K_UP) in
    0 <= fst (hero_pos (handle_events file_config (window_of out) events))
      < MAP_W file_config /\
    0 <= snd (hero_pos (handle_events file_config (window_of out) events))
      < MAP_H file_config.
Proof.
  destruct (@main lcg file_config SEED 0) as [out |] eqn:Hmain;
    [| vm_compute in Hmain; discriminate Hmain].
  exists out. split; [reflexivity |]. cbv zeta.
  apply (@hero_stays_on_map lcg file_config SEED 0 out
           (replicate 60 (KEYDOWN K_LEFT) ++ replicate 60 (KEYDOWN K_UP))
           lcg_in_range file_config_ok).
  exact Hmain.
Defined.

(** X17. A request to quit is never lost: once the events hold [QUIT] or
    the escape key, [running] is false at the end of the events, whatever
    follows the request. *)
Theorem quit_is_final (cfg : config) (st : window) (events : list event) :
  QUIT ∈ events \/ KEYDOWN K_ESCAPE ∈ events ->
  running (handle_events cfg st events) = false.
Proof.
  assert (forall ev st0, running st0 = false -> running (handle_event cfg st0 ev) = false)
    as Hstay.
  { intros ev st0 Hr. unfold handle_event. destruct (hero_pos st0) as [hx hy].
    destruct ev as [| [] |]; cbn [running]; auto. }
  assert (forall evs st0, running st0 = false -> running (handle_events cfg st0 evs) = false)
    as Hstays.
  { unfold handle_events. induction evs as [| ev evs IH]; intros st0 Hr; [exact Hr |].
    cbn [fold_left]. apply IH. apply Hstay. exact Hr. }
  revert st. unfold handle_events in *.
  induction events as [| ev events IH]; intros st Hq.
  - destruct Hq as [Hq | Hq]; inversion Hq.
  - cbn [fold_left].
    destruct Hq as [Hq | Hq]; apply elem_of_cons in Hq as [<- | Hq];
      try (apply IH; auto; fail);
      apply Hstays; unfold handle_event; destruct (hero_pos st); reflexivity.
Qed.

(** Escape, then a move and a toggle of the grid lines. *)
Lemma quit_is_final_witness :
  running (handle_events file_config
             {| running := true; show_grid := true; hero_pos := (3, 3); snapshots := 0 |}
             [KEYDOWN K_ESCAPE; KEYDOWN K_LEFT; KEYDOWN K_g]) = false.
Proof.
  apply quit_is_final. right. apply list_elem_of_here.
Defined.

(** ** Corridors and castles paint exactly their cells *)

Lemma painted_cell (h w : Z) (g : TileGrid) (y x : Z) (t : tile) :
  grid_shape h w g -> 0 <= y < h -> 0 <= x < w ->
  exists g', grid_set g y x t = Ok g' /\ grid_shape h w g' /\
             painted (fun p => p = (x, y)) t g g'.
Proof.
  intros Hs Hy Hx.
  destruct (grid_set_in_range h w g y x t Hs Hy Hx) as (g' & Hset & Hs' & Hat & Hother).
  exists g'. split; [exact Hset |]. split; [exact Hs' |].
  intros p. destruct (decide (p = (x, y))) as [-> | Hne].
  - split; [right; exact Hat |]. split; [intros _; exact Hat | intros Hn; congruence].
  - rewrite (Hother p Hne).
    split; [left; reflexivity |]. split; [intros Heq; congruence | reflexivity].
Qed.

Lemma painted_ext (region region' : Z * Z -> Prop) (t : tile) (g g' : TileGrid) :
  (forall p, region p <-> region' p) -> painted region t g g' -> painted region' t g g'.
Proof.
  intros Heq Hp p. destruct (Hp p) as (H1 & H2 & H3).
  split; [exact H1 |]. split; [intros Hr; apply H2, Heq, Hr |].
  intros Hr. apply H3. intros Hr'. apply Hr, Heq, Hr'.
Qed.

(** A loop whose iterations paint regions paints their union. *)
Lemma paint_regions {A} (h w : Z) (region : A -> Z * Z -> Prop) (t : tile)
    (body : TileGrid -> A -> result TileGrid) (xs : list A) :
  (forall s a, a ∈ xs -> grid_shape h w s ->
     exists s', body s a = Ok s' /\ grid_shape h w s' /\ painted (region a) t s s') ->
  forall g, grid_shape h w g ->
  exists g', for_each xs body g = Ok g' /\ grid_shape h w g' /\
             painted (fun p => exists a, a ∈ xs /\ region a p) t g g'.
Proof.
  induction xs as [| a xs IH]; intros Hbody g Hs; simpl.
  - exists g. split; [reflexivity |]. split; [exact Hs |].
    intros p. split; [left; reflexivity |].
    split; [intros (a & Ha & _); inversion Ha | reflexivity].
  - destruct (Hbody g a (list_elem_of_here _ _) Hs) as (g1 & -> & Hs1 & Hp1). simpl.
    destruct (IH (fun s a0 Hin => Hbody s a0 (list_elem_of_further _ _ _ Hin)) g1 Hs1)
      as (g' & Hrun & Hs' & Hp').
    exists g'. split; [exact Hrun |]. split; [exact Hs' |].
    intros p. destruct (Hp1 p) as (Ha1 & Hb1 & Hc1). destruct (Hp' p) as (Ha' & Hb' & Hc').
    split; [| split].
    + destruct Ha' as [-> | ->]; auto.
    + intros (a0 & Hin & Hr). apply elem_of_cons in Hin as [-> | Hin].
      * destruct Ha' as [-> | ->]; auto.
      * apply Hb'. eauto.
    + intros Hn. rewrite Hc', Hc1; [reflexivity | |].
      * intros Hr. apply Hn. exists a. split; [apply list_elem_of_here | exact Hr].
      * intros (a0 & Hin & Hr). apply Hn. exists a0.
        split; [apply list_elem_of_further; exact Hin | exact Hr].
Qed.

(** X18. On a grid of [h] rows and [w] columns, a corridor carved between
    two columns of a row, or two rows of a column, all on the grid, sets
    exactly the cells of the segment between them (ends included, in either
    order) to the tile, and leaves every other cell as it was. *)
Theorem corridors_paint_segments (h w : Z) (grid : TileGrid) (a b c : Z) (t : tile) :
  grid_shape h w grid ->
  (0 <= a < w -> 0 <= b < w -> 0 <= c < h ->
   exists grid',
     carve_h_corridor grid a b c t = Ok grid' /\ grid_shape h w grid' /\
     painted (fun p => snd p = c /\ Z.min a b <= fst p <= Z.max a b) t grid grid') /\
  (0 <= a < h -> 0 <= b < h -> 0 <= c < w ->
   exists grid',
     carve_v_corridor grid a b c t = Ok grid' /\ grid_shape h w grid' /\
     painted (fun p => fst p = c /\ Z.min a b <= snd p <= Z.max a b) t grid grid').
Proof.
  intros Hs. split; intros Ha Hb Hc.
  - unfold carve_h_corridor.
    destruct (paint_regions h w (fun x p => p = (x, c)) t
                (fun grid x => grid_set grid c x t)
                (py_range (Z.min a b) (Z.max a b + 1))) with (g := grid)
      as (grid' & Hrun & Hs' & Hp); [| exact Hs |].
    + intros s x Hx Hshape. apply elem_of_py_range in Hx.
      apply painted_cell; [exact Hshape | lia | lia].
    + exists grid'. split; [exact Hrun |]. split; [exact Hs' |].
      eapply painted_ext; [| exact Hp].
      intros [px py]. cbn [fst snd]. split.
      * intros (x & Hx & [= -> ->]). apply elem_of_py_range in Hx. lia.
      * intros [-> Hpx]. exists px. split; [apply elem_of_py_range; lia | reflexivity].
  - unfold carve_v_corridor.
    destruct (paint_regions h w (fun y p => p = (c, y)) t
                (fun grid y => grid_set grid y c t)
                (py_range (Z.min a b) (Z.max a b + 1))) with (g := grid)
      as (grid' & Hrun & Hs' & Hp); [| exact Hs |].
    + intros s y Hy Hshape. apply elem_of_py_range in Hy.
      apply painted_cell; [exact Hshape | lia | lia].
    + exists grid'. split; [exact Hrun |]. split; [exact Hs' |].
      eapply painted_ext; [| exact Hp].
      intros [px py]. cbn [fst snd]. split.
      * intros (y & Hy & [= -> ->]). apply elem_of_py_range in Hy. lia.
      * intros [-> Hpy]. exists py. split; [apply elem_of_py_range; lia | reflexivity].
Qed.

(** On the blank grid: a corridor from column 5 back to column 2 in row 3. *)
Lemma corridors_paint_segments_witness :
  exists grid',
    carve_h_corridor blank_grid 5 2 3 Path = Ok grid' /\
    tile_at grid' (2, 3) = Some Path /\ tile_at grid' (5, 3) = Some Path /\
    tile_at grid' (6, 3) = Some Background.
Proof.
  assert (grid_shape 36 48 blank_grid) as Hs
    by (split; [reflexivity | apply Forall_replicate; reflexivity]).
  destruct (corridors_paint_segments 36 48 blank_grid 5 2 3 Path Hs) as [Hh _].
  destruct (Hh ltac:(lia) ltac:(lia) ltac:(lia)) as (grid' & Hrun & _ & Hp).
  exists grid'. split; [exact Hrun |].
  split; [| split].
  - apply (Hp (2, 3)). cbn [fst snd]. lia.
  - apply (Hp (5, 3)). cbn [fst snd]. lia.
  - destruct (Hp (6, 3)) as (_ & _ & Hout). rewrite Hout; [reflexivity |].
    cbn [fst snd]. lia.
Defined.

(** X19. On a grid of the configured size, [place_castle] raises nothing
    for any origin, on the map or off it: it sets the cells of the 4x4
    block at the origin that lie on the map to the castle tile, clips the
    rest of the block, and leaves every other cell as it was. *)
Theorem place_castle_clips (cfg : config) (grid : TileGrid) (ox oy : Z) (t : tile) :
  grid_shape (MAP_H cfg) (MAP_W cfg) grid ->
  exists grid',
    place_castle cfg grid (ox, oy) t = Ok grid' /\
    grid_shape (MAP_H cfg) (MAP_W cfg) grid' /\
    painted (fun p => ox <= fst p < ox + 4 /\ oy <= snd p < oy + 4 /\
                      0 <= fst p < MAP_W cfg /\ 0 <= snd p < MAP_H cfg)
      t grid grid'.
Proof.
  intros Hs. unfold place_castle.
  set (inside := fun p : Z * Z => 0 <= fst p < MAP_W cfg /\ 0 <= snd p < MAP_H cfg).
  destruct (paint_regions (MAP_H cfg) (MAP_W cfg)
              (fun j p => exists i, i ∈ py_range 0 4 /\ (p = (ox + i, oy + j) /\ inside p)) t
              (fun grid j =>
                 for_each (py_range 0 4)
                   (fun grid i =>
                      if (0 <=? ox + i) && (ox + i <? MAP_W cfg) &&
                         (0 <=? oy + j) && (oy + j <? MAP_H cfg)
                      then grid_set grid (oy + j) (ox + i) t
                      else Ok grid)
                   grid)
              (py_range 0 4)) with (g := grid) as (grid' & Hrun & Hs' & Hp);
    [| exact Hs |].
  - intros s j _ Hshape.
    apply (paint_regions (MAP_H cfg) (MAP_W cfg)
             (fun i p => p = (ox + i, oy + j) /\ inside p) t); [| exact Hshape].
    intros s0 i _ Hshape0.
    destruct ((0 <=? ox + i) && (ox + i <? MAP_W cfg) &&
              (0 <=? oy + j) && (oy + j <? MAP_H cfg)) eqn:Hin.
    + rewrite !andb_true_iff in Hin.
      destruct (painted_cell _ _ s0 (oy + j) (ox + i) t Hshape0) as (s1 & Hset & Hs1 & Hp1);
        [lia | lia |].
      exists s1. split; [exact Hset |]. split; [exact Hs1 |].
      eapply painted_ext; [| exact Hp1].
      intros p. unfold inside. split; [intros ->; cbn [fst snd]; split; [reflexivity | lia] |].
      intros [-> _]. reflexivity.
    + exists s0. split; [reflexivity |]. split; [exact Hshape0 |].
      intros p. split; [left; reflexivity |]. split; [| reflexivity].
      intros [-> Hon]. unfold inside in Hon. cbn [fst snd] in Hon.
      rewrite !andb_false_iff in Hin. lia.
  - exists grid'. split; [exact Hrun |]. split; [exact Hs' |].
    eapply painted_ext; [| exact Hp].
    intros [px py]. unfold inside. cbn [fst snd]. split.
    + intros (j & Hj & i & Hi & [= -> ->] & Hon).
      apply elem_of_py_range in Hj. apply elem_of_py_range in Hi. lia.
    + intros (Hpx & Hpy & Hon).
      exists (py - oy). split; [apply elem_of_py_range; lia |].
      exists (px - ox). split; [apply elem_of_py_range; lia |].
      split; [f_equal; lia | exact Hon].
Qed.

(** On the map of the file: a castle at the top right corner, two of its
    columns and two of its rows off the map. *)
Lemma place_castle_clips_witness :
  exists grid',
    place_castle file_config blank_grid (46, -2) Castle = Ok grid' /\
    tile_at grid' (47, 1) = Some Castle /\ tile_at grid' (45, 1) = Some Background /\
    tile_at grid' (47, 2) = Some Background.
Proof.
  assert (grid_shape (MAP_H file_config) (MAP_W file_config) blank_grid) as Hs
    by (split; [reflexivity | apply Forall_replicate; reflexivity]).
  destruct (place_castle_clips file_config blank_grid 46 (-2) Castle Hs)
    as (grid' & Hrun & _ & Hp).
  exists grid'. split; [exact Hrun |].
  split; [| split].
  - apply (Hp (47, 1)). cbn. lia.
  - destruct (Hp (45, 1)) as (_ & _ & Hout). rewrite Hout; [reflexivity |]. cbn. lia.
  - destruct (Hp (47, 2)) as (_ & _ & Hout). rewrite Hout; [reflexivity |]. cbn. lia.
Defined.

(** ** [rects_overlap] read on tiles *)

(** X20. For two rectangles of at least one tile each and a padding that is
    not negative, [rects_overlap] answers true exactly when the first
    rectangle, extended by the padding on every side, shares a tile with
    the second; and the answer does not depend on the order of the two. *)
Theorem rects_overlap_shares_tile (a b : rect) (padding : Z) :
  1 <= a.1.2 -> 1 <= a.2 -> 1 <= b.1.2 -> 1 <= b.2 -> 0 <= padding ->
  (rects_overlap a b padding = true <->
   exists p, in_rect (padded a padding) p /\ in_rect b p) /\
  rects_overlap a b padding = rects_overlap b a padding.
Proof.
  intros Haw Hah Hbw Hbh Hpad. split; [| apply rects_overlap_sym].
  split.
  - destruct a as [[[ax ay] aw] ah], b as [[[bx by'] bw] bh]. cbn [fst snd] in *.
    unfold rects_overlap, in_rect, padded.
    rewrite negb_true_iff, !orb_false_iff, !Z.ltb_ge. intros Hov.
    exists (Z.max (ax - padding) bx, Z.max (ay - padding) by'). cbn [fst snd]. lia.
  - intros (p & Ha & Hb).
    destruct (rects_overlap a b padding) eqn:Hov; [reflexivity |].
    exfalso. exact (rects_apart_disjoint a b padding p Hov Ha Hb).
Qed.

(** Two rooms of the file's sizes, two columns apart: the padded test
    finds them apart, with a padding of two they meet. *)
Lemma rects_overlap_shares_tile_witness :
  (rects_overlap (1, 1, 5, 4) (8, 1, 5, 4) 2 = true <->
   exists p, in_rect (padded (1, 1, 5, 4) 2) p /\ in_rect (8, 1, 5, 4) p) /\
  rects_overlap (1, 1, 5, 4) (8, 1, 5, 4) 2 = rects_overlap (8, 1, 5, 4) (1, 1, 5, 4) 2.
Proof.
  apply (rects_overlap_shares_tile (1, 1, 5, 4) (8, 1, 5, 4) 2); cbn; lia.
Defined.

(** ** The sort that picks the castle rooms *)

Lemma insert_by_area_perm (r : rect) (l : list rect) :
  insert_by_area r l ≡ₚ r :: l.
Proof.
  induction l as [| r' l IH]; simpl; [reflexivity |].
  destruct (area r' <=? area r); [reflexivity |].
  rewrite IH. apply Permutation_swap.
Qed.

Lemma insert_by_area_filter (k : Z) (r : rect) (l : list rect) :
  filter (fun x => area x = k) (insert_by_area r l) =
  filter (fun x => area x = k) (r :: l).
Proof.
  induction l as [| r' l IH]; simpl; [reflexivity |].
  destruct (area r' <=? area r) eqn:Hle; [reflexivity |].
  apply Z.leb_gt in Hle.
  rewrite (filter_cons _ r' (insert_by_area r l)), IH, !filter_cons.
  destruct (decide (area r' = k)), (decide (area r = k)); try reflexivity. lia.
Qed.

Lemma insert_by_area_descending (r : rect) (l : list rect) :
  StronglySorted (fun a b => area b <= area a) l ->
  StronglySorted (fun a b => area b <= area a) (insert_by_area r l).
Proof.
  induction 1 as [| r' l Hsorted IH Hall]; simpl.
  - constructor; constructor.
  - destruct (area r' <=? area r) eqn:Hle.
    + apply Z.leb_le in Hle. constructor; [constructor; assumption |].
      constructor; [exact Hle |].
      eapply Forall_impl; [exact Hall |]. cbv beta. intros b Hb. lia.
    + apply Z.leb_gt in Hle. constructor; [exact IH |].
      rewrite insert_by_area_perm. constructor; [lia | exact Hall].
Qed.

(** X21. The sort that picks the castle rooms is the stable sort by area,
    largest first: its result holds the same rooms, no room comes before a
    larger one, and the rooms of any one area stand in the order they had
    in the input. *)
Theorem sorted_by_area_stable_descending (rooms : list rect) :
  sorted_by_area rooms ≡ₚ rooms /\
  (forall (i j : nat) (a b : rect),
     (i < j)%nat -> sorted_by_area rooms !! i = Some a ->
     sorted_by_area rooms !! j = Some b -> area b <= area a) /\
  (forall k : Z,
     filter (fun r => area r = k) (sorted_by_area rooms) =
     filter (fun r => area r = k) rooms).
Proof.
  unfold sorted_by_area. split; [| split].
  - induction rooms as [| r rooms IH]; simpl; [reflexivity |].
    rewrite insert_by_area_perm, IH. reflexivity.
  - assert (StronglySorted (fun a b => area b <= area a) (foldr insert_by_area [] rooms))
      as Hsorted.
    { induction rooms as [| r rooms IH]; simpl; [constructor |].
      apply insert_by_area_descending, IH. }
    revert Hsorted. generalize (foldr insert_by_area [] rooms). intros l Hsorted.
    induction Hsorted as [| r l Hsorted IH Hall]; intros i j a b Hij Hi Hj.
    + rewrite lookup_nil in Hi. discriminate.
    + destruct j as [| j]; [lia |]. cbn in Hj. destruct i as [| i].
      * cbn in Hi. injection Hi as <-.
        rewrite Forall_forall in Hall. apply Hall. eapply list_elem_of_lookup_2, Hj.
      * cbn in Hi. apply (IH i j); [lia | exact Hi | exact Hj].
  - intros k. induction rooms as [| r rooms IH]; simpl; [reflexivity |].
    rewrite insert_by_area_filter, !filter_cons, IH. reflexivity.
Qed.

(** ** [train.py]: the series the callback records *)

Lemma on_steps_snoc (self : CustomCallback) (steps : list (gmap string float * Z))
    (name_to_value : gmap string float) (num_timesteps : Z) :
  on_steps self (steps ++ [(name_to_value, num_timesteps)]) =
  fst (_on_step (on_steps self steps) name_to_value num_timesteps).
Proof. unfold on_steps. rewrite fold_left_app. reflexivity. Qed.

(** One call either records nothing, or records the step count and the
    reward, and each training metric the logger holds. *)
Lemma _on_step_cases (self : CustomCallback) (m : gmap string float) (n : Z) :
  let self' := fst (_on_step self m n) in
  self' = self \/
  exists reward,
    m !! "rollout/ep_rew_mean"%string = Some reward /\
    last (timesteps_data self) <> Some n /\
    timesteps_data self' = timesteps_data self ++ [n] /\
    rewards_data self' = rewards_data self ++ [reward] /\
    loss_data self' = loss_data self ++ option_list (m !! "train/loss"%string) /\
    variance_data self' =
      variance_data self ++ option_list (m !! "train/explained_variance"%string).
Proof.
  unfold _on_step.
  destruct (m !! "rollout/ep_rew_mean"%string) as [reward |]; [| left; reflexivity].
  assert (forall (l : list float) (o : option float),
            match o with Some v => l ++ [v] | None => l end = l ++ option_list o) as Hopt.
  { intros l [v |]; simpl; [reflexivity | rewrite app_nil_r; reflexivity]. }
  destruct (last (timesteps_data self)) as [t |] eqn:Hlast.
  - destruct (t =? n) eqn:Ht; cbn [negb fst]; [left; reflexivity |].
    right. exists reward. apply Z.eqb_neq in Ht. cbn.
    rewrite !Hopt. repeat split; congruence.
  - right. exists reward. cbn. rewrite !Hopt. repeat split; congruence.
Qed.

(** X22. In the callback of a training run, whatever the logger holds at
    each step, the reward series is as long as the timestep series, and
    the loss and explained-variance series are never longer than it. *)
Theorem callback_series_lengths (steps : list (gmap string float * Z)) :
  let self := on_steps CustomCallback_new steps in
  length (rewards_data self) = length (timesteps_data self) /\
  (length (loss_data self) <= length (timesteps_data self))%nat /\
  (length (variance_data self) <= length (timesteps_data self))%nat.
Proof.
  induction steps as [| [m n] steps IH] using rev_ind.
  - cbn. lia.
  - cbv zeta in *. rewrite on_steps_snoc.
    destruct (_on_step_cases (on_steps CustomCallback_new steps) m n)
      as [-> | (reward & _ & _ & -> & -> & -> & ->)]; [exact IH |].
    rewrite !length_app.
    destruct (m !! "train/loss"%string), (m !! "train/explained_variance"%string);
      simpl; lia.
Qed.

(** X23. When the step count never decreases from one call to the next,
    the recorded timesteps are strictly increasing, so no timestep is
    recorded twice; and each of them is the step count of a call at which
    the logger held the mean reward. *)
Theorem callback_timesteps_increasing (steps : list (gmap string float * Z)) :
  StronglySorted Z.le (map snd steps) ->
  let self := on_steps CustomCallback_new steps in
  StronglySorted Z.lt (timesteps_data self) /\
  forall t, t ∈ timesteps_data self ->
    exists m, (m, t) ∈ steps /\ is_Some (m !! "rollout/ep_rew_mean"%string).
Proof.
  induction steps as [| [m n] steps IH] using rev_ind; intros Hsorted.
  - cbn. split; [constructor |]. intros t Ht. inversion Ht.
  - cbv zeta in *. rewrite map_app in Hsorted. cbn [map snd] in Hsorted.
    apply StronglySorted_app in Hsorted as (Hbelow & Hsorted & _).
    destruct (IH Hsorted) as [Hinc Hfrom]. clear IH.
    rewrite on_steps_snoc.
    destruct (_on_step_cases (on_steps CustomCallback_new steps) m n)
      as [-> | (reward & Hreward & Hfresh & -> & _)].
    + split; [exact Hinc |]. intros t Ht.
      destruct (Hfrom t Ht) as (m0 & Hin & Hsome).
      exists m0. split; [apply elem_of_app; left; exact Hin | exact Hsome].
    + assert (forall t, t ∈ timesteps_data (on_steps CustomCallback_new steps) -> t <= n)
        as Hle.
      { intros t Ht. destruct (Hfrom t Ht) as (m0 & Hin & _).
        apply (Hbelow t n); [| apply list_elem_of_here].
        apply list_elem_of_fmap. exists (m0, t). split; [reflexivity | exact Hin]. }
      split.
      * apply StronglySorted_app_2; [| exact Hinc | repeat constructor].
        intros t n' Ht Hn'. apply list_elem_of_singleton in Hn' as ->.
        destruct (last (timesteps_data (on_steps CustomCallback_new steps)))
          as [tl |] eqn:Hlast.
        -- apply last_Some in Hlast as (l' & Hl'). rewrite Hl' in Hinc, Ht, Hle.
           assert (tl <= n) as Htl by (apply Hle, elem_of_app; right; apply list_elem_of_here).
           assert (tl <> n) as Hne by congruence.
           apply elem_of_app in Ht as [Ht | Ht].
           ++ pose proof (StronglySorted_app_1_elem_of _ _ _ t tl Hinc Ht
                            (list_elem_of_here _ _)). lia.
           ++ apply list_elem_of_singleton in Ht as ->. lia.
        -- apply last_None in Hlast. rewrite Hlast in Ht. inversion Ht.
      * intros t Ht. apply elem_of_app in Ht as [Ht | Ht].
        -- destruct (Hfrom t Ht) as (m0 & Hin & Hsome).
           exists m0. split; [apply elem_of_app; left; exact Hin | exact Hsome].
        -- apply list_elem_of_singleton in Ht as ->. exists m.
           split; [apply elem_of_app; right; apply list_elem_of_here |].
           rewrite Hreward. eauto.
Qed.

(** Four calls, the second at the step count of the first and the third
    without a reward in the logger: two timesteps are recorded. *)
Lemma callback_timesteps_increasing_witness :
  let m : gmap string float := {[ "rollout/ep_rew_mean"%string := S754_zero false ]} in
  StronglySorted Z.lt
    (timesteps_data (on_steps CustomCallback_new [(m, 5); (m, 5); (∅, 7); (m, 9)])).
Proof.
  intros m.
  apply (callback_timesteps_increasing [(m, 5); (m, 5); (∅, 7); (m, 9)]).
  cbn [map snd]. repeat (constructor || lia).
Defined.

(** X24. When every call whose logger holds the mean reward also finds the
    loss and the explained variance in it, the loss and variance series
    are as long as the timestep series, as [plot] needs them to draw one
    against the other. *)
Theorem callback_series_complete (steps : list (gmap string float * Z)) :
  (forall m n, (m, n) ∈ steps ->
     is_Some (m !! "rollout/ep_rew_mean"%string) ->
     is_Some (m !! "train/loss"%string) /\
     is_Some (m !! "train/explained_variance"%string)) ->
  let self := on_steps CustomCallback_new steps in
  length (loss_data self) = length (timesteps_data self) /\
  length (variance_data self) = length (timesteps_data self).
Proof.
  induction steps as [| [m n] steps IH] using rev_ind; intros Hlogged.
  - cbn. lia.
  - cbv zeta in *. rewrite on_steps_snoc.
    assert (forall m0 n0, (m0, n0) ∈ steps ->
              is_Some (m0 !! "rollout/ep_rew_mean"%string) ->
              is_Some (m0 !! "train/loss"%string) /\
              is_Some (m0 !! "train/explained_variance"%string)) as Hlogged'.
    { intros m0 n0 Hin. apply (Hlogged m0 n0), elem_of_app. left. exact Hin. }
    specialize (IH Hlogged').
    destruct (_on_step_cases (on_steps CustomCallback_new steps) m n)
      as [-> | (reward & Hreward & _ & -> & _ & -> & ->)]; [exact IH |].
    destruct (Hlogged m n) as [[loss ->] [variance ->]].
    { apply elem_of_app. right. apply list_elem_of_here. }
    { rewrite Hreward. eauto. }
    rewrite !length_app. simpl. lia.
Qed.

(** Two calls with everything logged: two entries in each series. *)
Lemma callback_series_complete_witness :
  let m : gmap string float :=
    {[ "rollout/ep_rew_mean"%string := S754_zero false;
       "train/loss"%string := S754_zero false;
       "train/explained_variance"%string := S754_zero false ]} in
  let self := on_steps CustomCallback_new [(m, 5); (m, 9)] in
  length (loss_data self) = length (timesteps_data self) /\
  length (variance_data self) = length (timesteps_data self).
Proof.
  intros m.
  apply (callback_series_complete [(m, 5); (m, 9)]).
  intros m0 n0 Hin _.
  assert (m0 = m) as ->.
  { apply elem_of_cons in Hin as [[= -> _] | Hin]; [reflexivity |].
    apply elem_of_cons in Hin as [[= -> _] | Hin]; [reflexivity | inversion Hin]. }
  split; vm_compute; eauto.
Defined.

(** ** A map without enemies *)

(** X25. On a map without enemies the distance to the nearest enemy is
    infinite wherever the agent stands, so no move is ever counted as an
    approach: after any calls, a [step] that returns never gives the
    reward 1.0; it gives -5, -0.5, or 100. *)
Theorem no_enemy_no_approach_reward (self : MapEnv) (calls : list call) (action : Z)
    (obs : observation) (reward : Q) (done truncated : bool) :
  enemy_locations self = [] ->
  snd (step (run self calls) action) = Ok (obs, reward, done, truncated) ->
  reward = (-5)%Q \/ reward = (- (1 # 2))%Q \/ reward = 100%Q.
Proof.
  intros Hnone.
  destruct (run_same_map calls self) as (_ & _ & _ & Henemies & _).
  rewrite Hnone in Henemies. revert Henemies. generalize (run self calls).
  intros s Hs. unfold step.
  destruct (resolve_move s action) as [s' [r | e]] eqn:Hres; [| discriminate].
  cbn [fst snd].
  destruct (np_get (goal_matrix s') (snd (player_pos s')) (fst (player_pos s')))
    as [g |]; [| discriminate].
  cbn [mbind result_bind].
  assert (r = (-5)%Q \/ r = (- (1 # 2))%Q) as Hr.
  { revert Hres. unfold resolve_move.
    destruct (candidate action (player_pos s)) as [x y].
    destruct (negb (in_bounds s (x, y))); [intros [= _ <-]; auto |].
    destruct (np_get (wall_matrix s) y x) as [w |]; [| discriminate].
    destruct (w =? 1); [intros [= _ <-]; auto |].
    unfold _get_distance_to_nearest_enemy, distance_to_nearest.
    cbn [enemy_locations player_pos set_player_pos]. rewrite <- Hs.
    assert (float_lt inf (last_distance s) = false) as ->
      by (destruct (last_distance s) as [| [] | |]; reflexivity).
    intros [= _ <-]. auto. }
  destruct (g =? 255); destruct (_get_observation s') as [o |]; try discriminate;
    cbn [mbind result_bind]; intros [= _ <- _ _]; tauto.
Qed.

(** A corridor of two floor tiles and no enemy: the move right succeeds
    and costs 0.5. *)
Lemma no_enemy_no_approach_reward_witness :
  exists self obs reward,
    __init__ {| width := 2; height := 1;
                visible_layers := [TiledTileLayer [(0, 0, 8); (1, 0, 8)]] |}
      (0, 0) {[48]} {[8]} = Ok self /\
    snd (step (run self [CallReset]) 3) = Ok (obs, reward, false, false) /\
    player_pos (fst (step (run self [CallReset]) 3)) = (1, 0) /\
    (reward = (-5)%Q \/ reward = (- (1 # 2))%Q \/ reward = 100%Q).
Proof.
  destruct (__init__ {| width := 2; height := 1;
                        visible_layers := [TiledTileLayer [(0, 0, 8); (1, 0, 8)]] |}
              (0, 0) {[48]} {[8]}) as [self |] eqn:Hinit;
    [| vm_compute in Hinit; discriminate Hinit].
  assert (enemy_locations self = []) as Hnone
    by (vm_compute in Hinit; injection Hinit as <-; reflexivity).
  destruct (snd (step (run self [CallReset]) 3))
    as [[[[obs reward] done] truncated] |] eqn:Hstep.
  - pose proof (no_enemy_no_approach_reward self [CallReset] 3 obs reward done truncated
                  Hnone Hstep) as Hreward.
    exists self, obs, reward. split; [reflexivity |].
    vm_compute in Hinit. injection Hinit as <-.
    vm_compute in Hstep. injection Hstep as <- <- <- <-.
    split; [reflexivity |]. split; [vm_compute; reflexivity | exact Hreward].
  - vm_compute in Hinit. injection Hinit as <-. vm_compute in Hstep. discriminate Hstep.
Defined.
